(** * PotJack backend: chain synchronization engine

    A shallow embedding of [BlockchainService] (Backend/src/services/blockchain)
    together with the TypeORM entities and migrations it writes to.

    Conventions of the embedding
    - a table is the list of its rows in insertion order; [findOne] returns the
      first matching row; [save] of a loaded entity rewrites that row, [save]
      of an entity built with [create] inserts a new row;
    - a unique index makes an insert fail with PostgreSQL error 23505;
    - there is no surrounding transaction in the source, so the writes that
      precede a failure stay in the store;
    - a [User] is identified by its address: the column is unique
      (UQ_b0ec0293d53a1385955f9834d5c), the generated uuid is not modelled;
    - JavaScript numbers that hold block heights, round ids and counts are [Z];
      timestamps are milliseconds;
    - the JS objects indexed by chain name ([configs], [reconnectAttempts],
      [connectionStates], [healthCheckTimers]) are finite maps. *)

From Stdlib Require Import ZArith List Ascii String Bool Lia.
From stdpp Require Import gmap strings.
From Equations Require Import Equations.
Import ListNotations.

Open Scope string_scope.
Open Scope list_scope.
Open Scope Z_scope.

(** ** Entities *)

Record TicketPurchase := mkTicketPurchase {
  tp_buyer : string;
  tp_token : string;
  tp_roundId : Z;
  tp_chainId : Z;
  tp_contractAddress : string;
  tp_count : Z;
  tp_totalAmount : Z;
  tp_blockTimestamp : Z;
  tp_transactionHash : string;
  tp_logIndex : Z
}.

Record FirstTicketBonus := mkFirstTicketBonus {
  ftb_buyer : string;
  ftb_token : string;
  ftb_roundId : Z;
  ftb_chainId : Z;
  ftb_contractAddress : string;
  ftb_blockTimestamp : Z;
  ftb_transactionHash : string;
  ftb_logIndex : Z
}.

Record WinEvent := mkWinEvent {
  we_winner : string;
  we_token : string;
  we_roundId : Z;
  we_chainId : Z;
  we_contractAddress : string;
  we_amount : Z;
  we_players : list string;
  we_ticketId : Z;
  we_blockTimestamp : Z;
  we_transactionHash : string;
  we_logIndex : Z
}.

Record UserRoundStats := mkUserRoundStats {
  urs_user : string;
  urs_token : string;
  urs_roundId : Z;
  urs_contractAddress : string;
  urs_ticketCount : Z;
  urs_isConsecutive : bool;
  urs_consecutiveRounds : Z;
  urs_totalWins : Z;
  urs_roundTimestamp : Z
}.

Record Round := mkRound {
  r_contractAddress : string;
  r_token : string;
  r_roundId : Z;
  r_chainId : Z;
  r_startTime : Z;
  r_endTime : Z;
  r_prizeAmount : option Z;
  r_commissionAmount : option Z;
  r_prizeClaimed : bool
}.

Record BlockchainSync := mkBlockchainSync {
  bs_blockchainName : string;
  bs_contractAddress : string;
  bs_lastSyncedBlock : Z
}.

Record Store := mkStore {
  users : list string;
  ticket_purchases : list TicketPurchase;
  first_ticket_bonuses : list FirstTicketBonus;
  win_events : list WinEvent;
  user_round_stats : list UserRoundStats;
  rounds : list Round;
  blockchain_sync : list BlockchainSync
}.

Definition emptyStore : Store := mkStore [] [] [] [] [] [] [].

Definition set_users (s : Store) (v : list string) : Store :=
  mkStore v (ticket_purchases s) (first_ticket_bonuses s) (win_events s)
          (user_round_stats s) (rounds s) (blockchain_sync s).
Definition set_ticket_purchases (s : Store) (v : list TicketPurchase) : Store :=
  mkStore (users s) v (first_ticket_bonuses s) (win_events s)
          (user_round_stats s) (rounds s) (blockchain_sync s).
Definition set_first_ticket_bonuses (s : Store) (v : list FirstTicketBonus) : Store :=
  mkStore (users s) (ticket_purchases s) v (win_events s)
          (user_round_stats s) (rounds s) (blockchain_sync s).
Definition set_win_events (s : Store) (v : list WinEvent) : Store :=
  mkStore (users s) (ticket_purchases s) (first_ticket_bonuses s) v
          (user_round_stats s) (rounds s) (blockchain_sync s).
Definition set_user_round_stats (s : Store) (v : list UserRoundStats) : Store :=
  mkStore (users s) (ticket_purchases s) (first_ticket_bonuses s) (win_events s)
          v (rounds s) (blockchain_sync s).
Definition set_rounds (s : Store) (v : list Round) : Store :=
  mkStore (users s) (ticket_purchases s) (first_ticket_bonuses s) (win_events s)
          (user_round_stats s) v (blockchain_sync s).
Definition set_blockchain_sync (s : Store) (v : list BlockchainSync) : Store :=
  mkStore (users s) (ticket_purchases s) (first_ticket_bonuses s) (win_events s)
          (user_round_stats s) (rounds s) v.

(** ** Database computations

    A computation threads the store and either returns a value or raises.
    [QueryFailed23505] is TypeORM's [QueryFailedError] whose driver error code
    is '23505' (unique violation); [OtherError] is any other exception. *)

Inductive Failure := QueryFailed23505 | OtherError.

Definition Db (A : Type) : Type := Store -> Store * (Failure + A).

Definition ret {A} (a : A) : Db A := fun s => (s, inr a).
Definition throw {A} (f : Failure) : Db A := fun s => (s, inl f).
Definition bind {A B} (c : Db A) (k : A -> Db B) : Db B :=
  fun s => match c s with
           | (s', inl f) => (s', inl f)
           | (s', inr a) => k a s'
           end.

Notation "x <-- c ;; k" := (bind c (fun x => k))
  (at level 100, c at next level, right associativity).
Notation "c ;;; k" := (bind c (fun _ => k))
  (at level 100, right associativity).

(** How a handler's outer [try { ... } catch (error)] ends. *)
Inductive Outcome := Completed | DuplicateIgnored | Rethrown.

(** [catch (error) { if (error instanceof QueryFailedError &&
    error.driverError.code === '23505') log; else throw error; }] *)
Definition catchDuplicate (c : Db unit) (s : Store) : Store * Outcome :=
  match c s with
  | (s', inr _) => (s', Completed)
  | (s', inl QueryFailed23505) => (s', DuplicateIgnored)
  | (s', inl OtherError) => (s', Rethrown)
  end.

(** ** Generic row helpers *)

(** Rewrite the first row that satisfies [p] (the row [findOne] returned). *)
Fixpoint update_first {A} (p : A -> bool) (f : A -> A) (l : list A) : list A :=
  match l with
  | [] => []
  | x :: t => if p x then f x :: t else x :: update_first p f t
  end.

(** ** Repositories

    A repository call is described for values its columns hold.  A value
    that a column refuses (an [integer] column and a round id of 2^31, say)
    makes the real call fail with an error that the handlers rethrow; the
    ranges are spelled out under "Column ranges" below, and the statements
    about written rows assume them. *)

Definition sameTxLog (tx : string) (idx : Z) (tx' : string) (idx' : Z) : bool :=
  String.eqb tx tx' && Z.eqb idx idx'.

(** IDX_ticket_purchases_tx_log: unique (transactionHash, logIndex). *)
Definition hasTicketPurchase (s : Store) (tx : string) (idx : Z) : bool :=
  existsb (fun r => sameTxLog tx idx (tp_transactionHash r) (tp_logIndex r))
          (ticket_purchases s).

Definition saveTicketPurchase (r : TicketPurchase) : Db unit := fun s =>
  if hasTicketPurchase s (tp_transactionHash r) (tp_logIndex r)
  then (s, inl QueryFailed23505)
  else (set_ticket_purchases s (ticket_purchases s ++ [r]), inr tt).

(** IDX_first_ticket_bonuses_tx_log: unique (transactionHash, logIndex). *)
Definition hasFirstTicketBonus (s : Store) (tx : string) (idx : Z) : bool :=
  existsb (fun r => sameTxLog tx idx (ftb_transactionHash r) (ftb_logIndex r))
          (first_ticket_bonuses s).

Definition saveFirstTicketBonus (r : FirstTicketBonus) : Db unit := fun s =>
  if hasFirstTicketBonus s (ftb_transactionHash r) (ftb_logIndex r)
  then (s, inl QueryFailed23505)
  else (set_first_ticket_bonuses s (first_ticket_bonuses s ++ [r]), inr tt).

(** IDX_win_events_tx_log: unique (transactionHash, logIndex). *)
Definition hasWinEvent (s : Store) (tx : string) (idx : Z) : bool :=
  existsb (fun r => sameTxLog tx idx (we_transactionHash r) (we_logIndex r))
          (win_events s).

Definition saveWinEvent (r : WinEvent) : Db unit := fun s =>
  if hasWinEvent s (we_transactionHash r) (we_logIndex r)
  then (s, inl QueryFailed23505)
  else (set_win_events s (win_events s ++ [r]), inr tt).

(** The "rounds" table (migration AddRound1759235694350) has a uuid primary
    key and four plain indexes, no unique constraint: an insert never fails. *)
Definition insertRound (r : Round) : Db unit := fun s =>
  (set_rounds s (rounds s ++ [r]), inr tt).

Definition roundMatches (token : string) (roundId : Z) (contractAddress : string)
    (chainId : Z) (r : Round) : bool :=
  String.eqb (r_token r) token && Z.eqb (r_roundId r) roundId &&
  String.eqb (r_contractAddress r) contractAddress && Z.eqb (r_chainId r) chainId.

Definition findRound (token : string) (roundId : Z) (contractAddress : string)
    (chainId : Z) : Db (option Round) := fun s =>
  (s, inr (find (roundMatches token roundId contractAddress chainId) (rounds s))).

Definition updateRound (token : string) (roundId : Z) (contractAddress : string)
    (chainId : Z) (f : Round -> Round) : Db unit := fun s =>
  (set_rounds s (update_first (roundMatches token roundId contractAddress chainId) f (rounds s)),
   inr tt).

(** [userRepository.createQueryBuilder().insert().values({address}).orIgnore()]
    followed by [findOne({ where: { address } })]. *)
Definition getOrCreateUser (address : string) : Db string := fun s =>
  let s' := if existsb (String.eqb address) (users s) then s
            else set_users s (users s ++ [address]) in
  if existsb (String.eqb address) (users s')
  then (s', inr address)
  else (s', inl OtherError).

(** UQ_user_round_stats: unique (userId, token, roundId, contractAddress). *)
Definition statsKey (user token : string) (roundId : Z) (contractAddress : string)
    (r : UserRoundStats) : bool :=
  String.eqb (urs_user r) user && String.eqb (urs_token r) token &&
  Z.eqb (urs_roundId r) roundId && String.eqb (urs_contractAddress r) contractAddress.

Definition findUserRoundStats (user token : string) (roundId : Z)
    (contractAddress : string) : Db (option UserRoundStats) := fun s =>
  (s, inr (find (statsKey user token roundId contractAddress) (user_round_stats s))).

(** [where "userId" = ... and token = ... and "contractAddress" = ... and
    "roundId" < :roundId order by "roundId" DESC limit 1]. *)
Definition priorOf (user token : string) (roundId : Z) (contractAddress : string)
    (r : UserRoundStats) : bool :=
  String.eqb (urs_user r) user && String.eqb (urs_token r) token &&
  String.eqb (urs_contractAddress r) contractAddress && Z.ltb (urs_roundId r) roundId.

Fixpoint maxByRoundId (best : option UserRoundStats) (l : list UserRoundStats)
    : option UserRoundStats :=
  match l with
  | [] => best
  | x :: t =>
      match best with
      | None => maxByRoundId (Some x) t
      | Some b => if Z.ltb (urs_roundId b) (urs_roundId x)
                  then maxByRoundId (Some x) t
                  else maxByRoundId best t
      end
  end.

Definition findPreviousRound (user token : string) (roundId : Z)
    (contractAddress : string) : Db (option UserRoundStats) := fun s =>
  (s, inr (maxByRoundId None
             (List.filter (priorOf user token roundId contractAddress) (user_round_stats s)))).

(** [save] of a created entity: INSERT, guarded by UQ_user_round_stats. *)
Definition insertUserRoundStats (r : UserRoundStats) : Db unit := fun s =>
  if existsb (statsKey (urs_user r) (urs_token r) (urs_roundId r) (urs_contractAddress r))
             (user_round_stats s)
  then (s, inl QueryFailed23505)
  else (set_user_round_stats s (user_round_stats s ++ [r]), inr tt).

(** [save] of a loaded entity: UPDATE of the row it was loaded from. *)
Definition updateUserRoundStats (r : UserRoundStats) : Db unit := fun s =>
  (set_user_round_stats s
     (update_first (statsKey (urs_user r) (urs_token r) (urs_roundId r) (urs_contractAddress r))
                   (fun _ => r) (user_round_stats s)),
   inr tt).

(** ** Sync cursor *)

Definition syncKey (blockchainName contractAddress : string) (r : BlockchainSync) : bool :=
  String.eqb (bs_blockchainName r) blockchainName &&
  String.eqb (bs_contractAddress r) contractAddress.

Definition findSync (s : Store) (blockchainName contractAddress : string)
    : option BlockchainSync :=
  find (syncKey blockchainName contractAddress) (blockchain_sync s).

(** [(syncRecord && Number(syncRecord.lastSyncedBlock)) || null] *)
Definition getLastSyncedBlock (s : Store) (blockchainName contractAddress : string)
    : option Z :=
  match findSync s blockchainName contractAddress with
  | Some r => if Z.eqb (bs_lastSyncedBlock r) 0 then None else Some (bs_lastSyncedBlock r)
  | None => None
  end.

(** [if (!blockNumber || !blockchainName || !contractAddress) return;]
    then overwrite the record's [lastSyncedBlock], or create the record. *)
Definition updateLastSyncedBlock (blockchainName contractAddress : string)
    (blockNumber : Z) : Db unit := fun s =>
  if Z.eqb blockNumber 0 || String.eqb blockchainName "" || String.eqb contractAddress ""
  then (s, inr tt)
  else
    match findSync s blockchainName contractAddress with
    | Some _ =>
        (set_blockchain_sync s
           (update_first (syncKey blockchainName contractAddress)
              (fun r => mkBlockchainSync (bs_blockchainName r) (bs_contractAddress r) blockNumber)
              (blockchain_sync s)),
         inr tt)
    | None =>
        (set_blockchain_sync s
           (blockchain_sync s ++ [mkBlockchainSync blockchainName contractAddress blockNumber]),
         inr tt)
    end.

(** ** Idempotent applier: log-based (EVM) handlers *)

(** The block "Find or create user round stats ... Save the updated entities"
    that [processTicketPurchasedEvent] (lines 2894-2949) and
    [processSolanaTicketPurchasedEvent] (lines 1996-2051) both contain,
    word for word. *)
Definition updateStatsOnPurchase (user token : string) (roundIdNumber : Z)
    (contractAddress : string) (count blockTimestamp : Z) : Db unit :=
  userRoundStats <-- findUserRoundStats user token roundIdNumber contractAddress ;;
  previousRound <-- findPreviousRound user token roundIdNumber contractAddress ;;
  let row :=
    match userRoundStats with
    | None =>
        mkUserRoundStats user token roundIdNumber contractAddress count
          false 0
          (match previousRound with Some p => urs_totalWins p | None => 0 end)
          blockTimestamp
    | Some r =>
        mkUserRoundStats (urs_user r) (urs_token r) (urs_roundId r) (urs_contractAddress r)
          (urs_ticketCount r + count)
          (urs_isConsecutive r) (urs_consecutiveRounds r) (urs_totalWins r)
          (urs_roundTimestamp r)
    end in
  let adjacent :=
    match previousRound with
    | Some p => Z.eqb (urs_roundId p) (roundIdNumber - 1)
    | None => false
    end in
  let row' :=
    if adjacent then
      mkUserRoundStats (urs_user row) (urs_token row) (urs_roundId row) (urs_contractAddress row)
        (urs_ticketCount row)
        true
        (match previousRound with
         | Some p => if urs_isConsecutive p then urs_consecutiveRounds p + 1 else 1
         | None => 1
         end)
        (urs_totalWins row) (urs_roundTimestamp row)
    else
      mkUserRoundStats (urs_user row) (urs_token row) (urs_roundId row) (urs_contractAddress row)
        (urs_ticketCount row)
        (urs_isConsecutive row)
        0
        (urs_totalWins row) (urs_roundTimestamp row) in
  match userRoundStats with
  | None => insertUserRoundStats row'
  | Some _ => updateUserRoundStats row'
  end.

Definition processTicketPurchasedEvent
    (token : string) (roundId : Z) (buyer : string) (count totalAmount timestamp : Z)
    (chainId : Z) (transactionHash : string) (blockNumber : Z)
    (blockchainName contractAddress : string) (logIndex : Z)
    : Store -> Store * Outcome :=
  catchDuplicate (
    user <-- getOrCreateUser buyer ;;
    let roundIdNumber := roundId in
    let blockTimestamp := timestamp * 1000 in
    saveTicketPurchase
      (mkTicketPurchase user token roundIdNumber chainId contractAddress count
         totalAmount blockTimestamp transactionHash logIndex) ;;;
    updateStatsOnPurchase user token roundIdNumber contractAddress count blockTimestamp ;;;
    updateLastSyncedBlock blockchainName contractAddress blockNumber).

Definition processFirstTicketBonusEvent
    (token : string) (roundId : Z) (buyer : string)
    (timestamp roundStartTime roundEndTime : Z)
    (chainId : Z) (transactionHash : string) (blockNumber : Z)
    (blockchainName contractAddress : string) (logIndex : Z)
    : Store -> Store * Outcome :=
  catchDuplicate (
    user <-- getOrCreateUser buyer ;;
    insertRound
      (mkRound contractAddress token roundId chainId
         (roundStartTime * 1000) (roundEndTime * 1000) None None false) ;;;
    saveFirstTicketBonus
      (mkFirstTicketBonus user token roundId chainId contractAddress
         (timestamp * 1000) transactionHash logIndex) ;;;
    updateLastSyncedBlock blockchainName contractAddress blockNumber).

(** What a read call to the chain gives back. *)
Inductive ChainRead (A : Type) :=
| ReadThrows
| ReadNull
| ReadValue (a : A).
Arguments ReadThrows {A}.
Arguments ReadNull {A}.
Arguments ReadValue {A} a.

(** Result of the contract's [getRoundResult(token, roundId)]. *)
Record RoundResult := mkRoundResult {
  winnerAddress : string;
  winnerTicket : Z;
  roundPlayers : list string;
  prizeAmount : Z
}.

Fixpoint getOrCreateUsers (addresses : list string) : Db (list string) :=
  match addresses with
  | [] => ret []
  | a :: t =>
      u <-- getOrCreateUser a ;;
      us <-- getOrCreateUsers t ;;
      ret (u :: us)
  end.

(** The block that [processWinnerPickedEvent] and
    [processSolanaWinnerPickedEvent] share: find the winner's row for the
    round, create it with [totalWins: 1] or increment [totalWins], save. *)
Definition updateStatsOnWin (user token : string) (roundIdNumber : Z)
    (contractAddress : string) (eventDate : Z) : Db unit :=
  userRoundStats <-- findUserRoundStats user token roundIdNumber contractAddress ;;
  match userRoundStats with
  | None =>
      insertUserRoundStats
        (mkUserRoundStats user token roundIdNumber contractAddress 0 false 0 1 eventDate)
  | Some r =>
      updateUserRoundStats
        (mkUserRoundStats (urs_user r) (urs_token r) (urs_roundId r) (urs_contractAddress r)
           (urs_ticketCount r) (urs_isConsecutive r) (urs_consecutiveRounds r)
           (urs_totalWins r + 1) (urs_roundTimestamp r))
  end.

(** [roundResult] is the answer of [this.getRoundResult(blockchainName, token,
    roundIdNumber)].  The notification rows written by
    [createWinNotifications] live in a table no other operation reads and are
    left out.  The players of the win event are the list handed to
    [winEventRepository.create]; what the join table keeps of an address
    that the round result lists twice is not described. *)
Definition processWinnerPickedEvent
    (roundResult : ChainRead RoundResult)
    (token : string) (roundId : Z) (timestamp : Z)
    (chainId : Z) (transactionHash : string) (blockNumber : Z)
    (blockchainName contractAddress : string) (logIndex : Z)
    : Store -> Store * Outcome :=
  catchDuplicate (
    let roundIdNumber := roundId in
    let eventDate := timestamp * 1000 in
    match roundResult with
    | ReadThrows => throw OtherError
    | ReadNull => ret tt
    | ReadValue rr =>
        winner <-- getOrCreateUser (winnerAddress rr) ;;
        updateStatsOnWin winner token roundIdNumber contractAddress eventDate ;;;
        playerEntities <-- getOrCreateUsers (roundPlayers rr) ;;
        saveWinEvent
          (mkWinEvent winner token roundIdNumber chainId contractAddress
             (prizeAmount rr) playerEntities (winnerTicket rr) eventDate
             transactionHash logIndex) ;;;
        updateLastSyncedBlock blockchainName contractAddress blockNumber
    end).

(** ** Log-based source: decoded logs and [processEvent] *)

Inductive EventArgs :=
| WinnerPicked (token : string) (roundId : Z) (timestamp : Z)
| TicketPurchased (token : string) (roundId : Z) (buyer : string)
    (count totalAmount timestamp : Z)
| FirstTicketBonusAwarded (token : string) (roundId : Z) (buyer : string)
    (timestamp roundStartTime roundEndTime : Z)
| UnknownEvent (eventName : string).

Record EventLog := mkEventLog {
  args : EventArgs;
  transactionHash : string;
  blockNumber : Z;
  index : Z
}.

(** An entry of [queryFilter('*', ...)]: an [EventLog], or a plain [Log] the
    interface could not decode ([!(event instanceof EventLog)]). *)
Inductive RawLog :=
| Decoded (event : EventLog)
| Undecoded.

(** The EVM node as the service sees it. *)
Record EvmChain := mkEvmChain {
  (** [contract.queryFilter('*', from, to)] after [retryWithBackoff];
      [None] when it finally throws *)
  queryFilter : string -> Z -> Z -> option (list RawLog);
  (** [getRoundResult(blockchainName, token, roundId)] *)
  getRoundResult : string -> string -> Z -> ChainRead RoundResult
}.

(** [chainId] is [this.configs[name].chainId]; [None] when the chain has no
    configuration, in which case reading [.chainId] throws a TypeError. *)
Definition processEvent (chain : EvmChain) (chainId : option Z)
    (event : EventLog) (name contractAddress : string)
    : Store -> Store * Outcome :=
  fun s =>
  match chainId with
  | None => (s, Rethrown)
  | Some chainId =>
      match args event with
      | WinnerPicked token roundId timestamp =>
          processWinnerPickedEvent (getRoundResult chain name token roundId)
            token roundId timestamp chainId
            (transactionHash event) (blockNumber event) name contractAddress (index event) s
      | TicketPurchased token roundId buyer count totalAmount timestamp =>
          processTicketPurchasedEvent token roundId buyer count totalAmount timestamp
            chainId (transactionHash event) (blockNumber event) name contractAddress
            (index event) s
      | FirstTicketBonusAwarded token roundId buyer timestamp roundStartTime roundEndTime =>
          processFirstTicketBonusEvent token roundId buyer timestamp roundStartTime
            roundEndTime chainId (transactionHash event) (blockNumber event) name
            contractAddress (index event) s
      | UnknownEvent _ => (s, Completed)
      end
  end.

(** ** Idempotent applier: instruction-based (Solana) handlers *)

(** Anchor events decoded from the [Program data:] log lines of a
    transaction ([parseEventsFromLogs]). *)
Inductive SolanaEvent :=
| SolTicketPurchased (token : string) (round_id : Z) (buyer : string)
    (count total_amount prize_amount commission_amount timestamp : Z)
| SolFirstTicketBonusAwarded (token : string) (round_id : Z) (buyer : string)
    (timestamp round_start_time round_end_time : Z)
| SolWinnerPicked (token round : string)
    (round_id winner_purchase_index winner_ticket_index prize_amount timestamp : Z)
| SolPrizeClaimed (round_id : Z) (winner : string)
| SolAllRequestsCompleted
| SolOtherEvent (name : string).

Definition isTicketPurchased (e : SolanaEvent) : bool :=
  match e with SolTicketPurchased _ _ _ _ _ _ _ _ => true | _ => false end.
Definition isFirstTicketBonusAwarded (e : SolanaEvent) : bool :=
  match e with SolFirstTicketBonusAwarded _ _ _ _ _ _ => true | _ => false end.
Definition isWinnerPicked (e : SolanaEvent) : bool :=
  match e with SolWinnerPicked _ _ _ _ _ _ _ => true | _ => false end.
Definition isPrizeClaimed (e : SolanaEvent) : bool :=
  match e with SolPrizeClaimed _ _ => true | _ => false end.
Definition isAllRequestsCompleted (e : SolanaEvent) : bool :=
  match e with SolAllRequestsCompleted => true | _ => false end.

Definition amountOrZero (a : option Z) : Z :=
  match a with Some v => v | None => 0 end.

(** [contractAddress] is [this.solanaProgramId[blockchainName].toBase58()]. *)
Definition processSolanaTicketPurchasedEvent
    (contractAddress : string)
    (chainId : Z) (signature : string) (block : Z) (blockchainName : string)
    (instructionIndex : Z) (events : list SolanaEvent)
    : Store -> Store * Outcome :=
  catchDuplicate (
    match find isTicketPurchased events with
    | Some (SolTicketPurchased tokenAddress round_id buyer count total_amount
              prize_amount commission_amount timestamp) =>
        user <-- getOrCreateUser buyer ;;
        let eventTimestamp := timestamp * 1000 in
        saveTicketPurchase
          (mkTicketPurchase user tokenAddress round_id chainId contractAddress count
             total_amount eventTimestamp signature instructionIndex) ;;;
        updateStatsOnPurchase user tokenAddress round_id contractAddress count
          eventTimestamp ;;;
        match find isFirstTicketBonusAwarded events with
        | Some (SolFirstTicketBonusAwarded btoken bround_id bbuyer btimestamp
                  round_start_time round_end_time) =>
            buser <-- getOrCreateUser bbuyer ;;
            insertRound
              (mkRound contractAddress btoken bround_id chainId
                 (round_start_time * 1000) (round_end_time * 1000)
                 (Some 0) (Some 0) false) ;;;
            saveFirstTicketBonus
              (mkFirstTicketBonus buser btoken bround_id chainId contractAddress
                 (btimestamp * 1000) signature instructionIndex)
        | _ => ret tt
        end ;;;
        round <-- findRound tokenAddress round_id contractAddress chainId ;;
        match round with
        | Some _ =>
            updateRound tokenAddress round_id contractAddress chainId
              (fun r => mkRound (r_contractAddress r) (r_token r) (r_roundId r) (r_chainId r)
                          (r_startTime r) (r_endTime r)
                          (Some (amountOrZero (r_prizeAmount r) + prize_amount))
                          (Some (amountOrZero (r_commissionAmount r) + commission_amount))
                          (r_prizeClaimed r))
        | None => ret tt
        end ;;;
        updateLastSyncedBlock blockchainName contractAddress block
    | _ => ret tt
    end).

(** [statisticsService.getRoundPlayers]: the users of the rows of a round. *)
Definition getRoundPlayers (contractAddress tokenAddress : string) (roundId : Z)
    : Db (list string) := fun s =>
  (s, inr (map urs_user
             (List.filter (fun r => Z.eqb (urs_roundId r) roundId &&
                               String.eqb (urs_contractAddress r) contractAddress &&
                               String.eqb (urs_token r) tokenAddress)
                     (user_round_stats s)))).

(** [winnerPubkey] is the answer of [getWinnerAddressFromPurchase], which
    reads the purchase account and returns null on any failure.  The
    on-chain [setWinnerAddress] call sits in its own try/catch and writes
    nothing to the store. *)
Definition processSolanaWinnerPickedEvent
    (contractAddress : string) (winnerPubkey : string -> Z -> option string)
    (chainId : Z) (signature : string) (block : Z) (blockchainName : string)
    (instructionIndex : Z) (events : list SolanaEvent)
    : Store -> Store * Outcome :=
  catchDuplicate (
    match find isWinnerPicked events with
    | Some (SolWinnerPicked tokenAddress round round_id winner_purchase_index
              winner_ticket_index prize_amount timestamp) =>
        let eventTimestamp := timestamp * 1000 in
        match winnerPubkey round winner_purchase_index with
        | None => ret tt
        | Some winnerAddress =>
            user <-- getOrCreateUser winnerAddress ;;
            updateStatsOnWin user tokenAddress round_id contractAddress eventTimestamp ;;;
            playerEntities <-- getRoundPlayers contractAddress tokenAddress round_id ;;
            saveWinEvent
              (mkWinEvent user tokenAddress round_id chainId contractAddress prize_amount
                 playerEntities winner_ticket_index eventTimestamp signature
                 instructionIndex) ;;;
            updateLastSyncedBlock blockchainName contractAddress block
        end
    | _ => ret tt
    end).

(** [tukTukOk] tells whether [updateCronJobAfterRequestsCompleted] returns. *)
Definition processAllRequestsCompletedEvent
    (contractAddress : string) (tukTukOk : bool)
    (signature : string) (block : Z) (blockchainName : string)
    (events : list SolanaEvent)
    : Store -> Store * Outcome :=
  catchDuplicate (
    match find isAllRequestsCompleted events with
    | Some _ =>
        if tukTukOk
        then updateLastSyncedBlock blockchainName contractAddress block
        else throw OtherError
    | None => ret tt
    end).

(** The round selected by the join of "rounds" with "win_events" in
    [processSolanaPrizeClaimedEvent]. *)
Definition claimableRound (s : Store) (round_id : Z) (contractAddress user : string)
    (r : Round) : bool :=
  Z.eqb (r_roundId r) round_id && String.eqb (r_contractAddress r) contractAddress &&
  negb (r_prizeClaimed r) &&
  existsb (fun we => String.eqb (we_token we) (r_token r) &&
                     Z.eqb (we_roundId we) (r_roundId r) &&
                     String.eqb (we_contractAddress we) (r_contractAddress r) &&
                     Z.eqb (we_chainId we) (r_chainId r) &&
                     String.eqb (we_winner we) user)
          (win_events s).

Definition processSolanaPrizeClaimedEvent
    (contractAddress : string)
    (signature : string) (block : Z) (blockchainName : string)
    (events : list SolanaEvent)
    : Store -> Store * Outcome :=
  catchDuplicate (
    match find isPrizeClaimed events with
    | Some (SolPrizeClaimed round_id winnerAddress) =>
        fun s =>
        if existsb (String.eqb winnerAddress) (users s) then
          match find (claimableRound s round_id contractAddress winnerAddress) (rounds s) with
          | Some _ =>
              updateLastSyncedBlock blockchainName contractAddress block
                (set_rounds s
                   (update_first (claimableRound s round_id contractAddress winnerAddress)
                      (fun r => mkRound (r_contractAddress r) (r_token r) (r_roundId r)
                                  (r_chainId r) (r_startTime r) (r_endTime r)
                                  (r_prizeAmount r) (r_commissionAmount r) true)
                      (rounds s)))
          | None => (s, inr tt)
          end
        else (s, inr tt)
    | _ => ret tt
    end).

(** ** Instruction-based source: transactions and their decoding *)

Inductive InstructionName :=
| buy_tickets_sol
| consume_randomness
| request_randomness
| claim_prize_sol
| other_instruction (name : string).

(** An instruction of a transaction: whether its program is the configured
    one ([accountKeys[programIdIndex].equals(programId)]) and what
    [BorshInstructionCoder.decode] makes of its data. *)
Record Instruction := mkInstruction {
  ix_isProgram : bool;
  ix_decoded : ChainRead InstructionName
}.

Record InnerInstructionSet := mkInner {
  inner_index : Z;
  inner_instructions : list Instruction
}.

Inductive TxMeta :=
| NoMeta
| MetaErr
| MetaOk (innerInstructions : list InnerInstructionSet) (events : list SolanaEvent).

Record SolanaTx := mkSolanaTx {
  tx_slot : Z;
  tx_instructions : list Instruction;
  tx_meta : TxMeta
}.

(** An entry of [getSignaturesForAddress]. *)
Record SignatureInfo := mkSignatureInfo {
  signature : string;
  slot : Z
}.

(** Per-chain Solana context held by the service and the node's read calls. *)
Record SolanaChain := mkSolanaChain {
  sol_chainId : Z;                      (* configs[name].chainId *)
  sol_programId : string;               (* solanaProgramId[name].toBase58() *)
  sol_hasIdl : bool;                    (* solanaIdl[name] is set *)
  (** the program's signature history, newest first, as
      [getSignaturesForAddress] pages through it *)
  sol_history : list SignatureInfo;
  (** whether the request for page number [n] (counted from 1)
      finally throws, [retryWithBackoff] included *)
  sol_pageThrows : nat -> bool;
  getTransaction : string -> ChainRead SolanaTx;
  getWinnerAddressFromPurchase : string -> Z -> option string;
  sol_tukTukOk : bool
}.

Definition decodeSolanaInstruction (chain : SolanaChain) (blockchainName : string)
    (instruction : Instruction) (events : list SolanaEvent)
    (signature : string) (block : Z) (instructionIndex : Z) (isHistorical : bool)
    : Store -> Store * Outcome :=
  fun s =>
  if sol_hasIdl chain then
    match ix_decoded instruction with
    | ReadThrows => (s, Rethrown)
    | ReadNull => (s, Completed)
    | ReadValue buy_tickets_sol =>
        processSolanaTicketPurchasedEvent (sol_programId chain) (sol_chainId chain)
          signature block blockchainName instructionIndex events s
    | ReadValue consume_randomness =>
        processSolanaWinnerPickedEvent (sol_programId chain)
          (getWinnerAddressFromPurchase chain) (sol_chainId chain)
          signature block blockchainName instructionIndex events s
    | ReadValue request_randomness =>
        if negb isHistorical
        then processAllRequestsCompletedEvent (sol_programId chain) (sol_tukTukOk chain)
               signature block blockchainName events s
        else (s, Completed)
    | ReadValue claim_prize_sol =>
        processSolanaPrizeClaimedEvent (sol_programId chain)
          signature block blockchainName events s
    | ReadValue (other_instruction _) => (s, Completed)
    end
  else (s, Completed).

(** The loop over the top-level instructions; every error of the decoding is
    caught and logged, so only the store comes back. *)
Fixpoint processTopLevel (chain : SolanaChain) (blockchainName : string)
    (events : list SolanaEvent) (signature : string) (block : Z) (isHistorical : bool)
    (instructionIndex : Z) (instructions : list Instruction) (s : Store) : Store :=
  match instructions with
  | [] => s
  | instruction :: rest =>
      let s' :=
        if ix_isProgram instruction
        then fst (decodeSolanaInstruction chain blockchainName instruction events
                    signature block instructionIndex isHistorical s)
        else s in
      processTopLevel chain blockchainName events signature block isHistorical
        (instructionIndex + 1) rest s'
  end.

Fixpoint processInnerSet (chain : SolanaChain) (blockchainName : string)
    (events : list SolanaEvent) (signature : string) (block : Z) (isHistorical : bool)
    (parentIndex : Z) (i : Z) (instructions : list Instruction) (s : Store) : Store :=
  match instructions with
  | [] => s
  | innerInstruction :: rest =>
      let s' :=
        if ix_isProgram innerInstruction
        then let compositeIndex := parentIndex * 1000 + i in
             fst (decodeSolanaInstruction chain blockchainName innerInstruction events
                    signature block compositeIndex isHistorical s)
        else s in
      processInnerSet chain blockchainName events signature block isHistorical
        parentIndex (i + 1) rest s'
  end.

Fixpoint processInnerSets (chain : SolanaChain) (blockchainName : string)
    (events : list SolanaEvent) (signature : string) (block : Z) (isHistorical : bool)
    (sets : list InnerInstructionSet) (s : Store) : Store :=
  match sets with
  | [] => s
  | innerInstructionSet :: rest =>
      processInnerSets chain blockchainName events signature block isHistorical rest
        (processInnerSet chain blockchainName events signature block isHistorical
           (inner_index innerInstructionSet) 0 (inner_instructions innerInstructionSet) s)
  end.

(** Called only for a transaction whose [meta] is present and without error. *)
Definition processSolanaTransactionData (chain : SolanaChain) (blockchainName : string)
    (tx : SolanaTx) (signature : string) (block : Z) (isHistorical : bool)
    (s : Store) : Store :=
  match tx_meta tx with
  | MetaOk innerInstructions events =>
      processInnerSets chain blockchainName events signature block isHistorical
        innerInstructions
        (processTopLevel chain blockchainName events signature block isHistorical 0
           (tx_instructions tx) s)
  | _ => s
  end.

(** ** Backfill engine: log-based source *)

Definition maxBlockRange : Z := 10000.

(** [for (const event of allEvents)]: entries that are not an [EventLog] are
    skipped; whatever [processEvent] throws is caught and logged. *)
Fixpoint processEvents (chain : EvmChain) (chainId : option Z)
    (name contractAddress : string) (allEvents : list RawLog) (s : Store) : Store :=
  match allEvents with
  | [] => s
  | Undecoded :: rest => processEvents chain chainId name contractAddress rest s
  | Decoded event :: rest =>
      processEvents chain chainId name contractAddress rest
        (fst (processEvent chain chainId event name contractAddress s))
  end.

(** One completed chunk: its bounds, the logs fetched for it and the store
    right after the cursor write that ends it (the point of the
    "Completed chunk" log line). *)
Record ChunkRun := mkChunkRun {
  chunk_from : Z;
  chunk_to : Z;
  chunk_events : list RawLog;
  chunk_store : Store
}.

Record Backfill := mkBackfill {
  bf_result : bool;
  bf_store : Store;
  bf_chunks : list ChunkRun
}.

(** [while (currentFrom <= toBlock) { ... currentFrom = currentTo + 1; }] *)
Equations? chunkLoop (chain : EvmChain) (chainId : option Z)
    (name contractAddress : string) (toBlock currentFrom : Z) (s : Store)
    : Backfill by wf (Z.to_nat (toBlock - currentFrom + 1)) lt :=
  chunkLoop chain chainId name contractAddress toBlock currentFrom s
    with Z_le_dec currentFrom toBlock => {
    | right _ => mkBackfill true s []
    | left _ with queryFilter chain contractAddress currentFrom
                    (Z.min (currentFrom + maxBlockRange - 1) toBlock) => {
      | None => mkBackfill false s []
      | Some allEvents =>
          let currentTo := Z.min (currentFrom + maxBlockRange - 1) toBlock in
          let s1 := processEvents chain chainId name contractAddress allEvents s in
          let s2 := fst (updateLastSyncedBlock name contractAddress currentTo s1) in
          let rest := chunkLoop chain chainId name contractAddress toBlock (currentTo + 1) s2 in
          mkBackfill (bf_result rest) (bf_store rest)
            (mkChunkRun currentFrom currentTo allEvents s2 :: bf_chunks rest) } }.
Proof. subst currentTo. unfold maxBlockRange. lia. Qed.

(** [contractAddress] is [contract.target.toString()]. *)
Definition fetchHistoricalEvents (chain : EvmChain) (chainId : option Z)
    (name contractAddress : string) (fromBlock toBlock : Z) (s : Store) : Backfill :=
  let totalBlocks := toBlock - fromBlock + 1 in
  if Z.leb totalBlocks maxBlockRange then
    match queryFilter chain contractAddress fromBlock toBlock with
    | None => mkBackfill false s []
    | Some allEvents =>
        let s1 := processEvents chain chainId name contractAddress allEvents s in
        let s2 := fst (updateLastSyncedBlock name contractAddress toBlock s1) in
        mkBackfill true s2 [mkChunkRun fromBlock toBlock allEvents s2]
    end
  else chunkLoop chain chainId name contractAddress toBlock fromBlock s.

(** ** Backfill engine: instruction-based source *)

(** [limit: 1000] of [getSignaturesForAddress]. *)
Definition pageLimit : nat := 1000.

Definition inRange (fromBlock toBlock : Z) (sig : SignatureInfo) : bool :=
  Z.leb fromBlock (slot sig) && Z.leb (slot sig) toBlock.

Inductive Paging :=
| PagingThrew
| Collected (allSignatures : list string).

(** The pagination loop.  [older] is the part of the history that lies
    behind the [before] cursor (all of it while [before] is undefined), so
    the page the node returns is [firstn pageLimit older] and setting
    [before] to the page's last signature leaves [skipn pageLimit older]. *)
Equations? collectSignatures (pageThrows : nat -> bool) (fromBlock toBlock : Z)
    (pageIndex : nat) (older : list SignatureInfo) (allSignatures : list string)
    : Paging by wf (length older) lt :=
  collectSignatures pageThrows fromBlock toBlock pageIndex older allSignatures
    with pageThrows (S pageIndex) => {
    | true => PagingThrew
    | false with older => {
      | [] => Collected allSignatures
      | first :: more =>
          let signatures := firstn pageLimit (first :: more) in
          let firstBlockOnPage := slot first in
          let lastBlockOnPage := slot (List.last signatures first) in
          if Z.ltb firstBlockOnPage fromBlock then Collected allSignatures
          else
            let allSignatures' :=
              allSignatures ++
              map signature (List.filter (inRange fromBlock toBlock) signatures) in
            if Z.ltb lastBlockOnPage fromBlock then Collected allSignatures'
            else if Nat.ltb (length signatures) pageLimit then Collected allSignatures'
            else collectSignatures pageThrows fromBlock toBlock (S pageIndex)
                   (skipn pageLimit (first :: more)) allSignatures' } }.
Proof. rewrite length_skipn. unfold pageLimit. simpl length. lia. Qed.

(** The body of the [for (const signature of allSignatures)] loop. *)
Definition processSignature (chain : SolanaChain) (name : string) (isHistorical : bool)
    (signature : string) (s : Store) : Store :=
  match getTransaction chain signature with
  | ReadThrows => s
  | ReadNull => s
  | ReadValue tx =>
      match tx_meta tx with
      | NoMeta => s
      | MetaErr => s
      | MetaOk _ _ =>
          processSolanaTransactionData chain name tx signature (tx_slot tx) isHistorical s
      end
  end.

Record SolanaBackfill := mkSolanaBackfill {
  sb_result : bool;
  sb_store : Store;
  (** the signatures in the order in which the loop handles them *)
  sb_applied : list string
}.

Definition fetchSolanaTransactions (chain : SolanaChain) (name : string)
    (fromBlock toBlock : Z) (isHistorical : bool) (s : Store) : SolanaBackfill :=
  match collectSignatures (sol_pageThrows chain) fromBlock toBlock 0
          (sol_history chain) [] with
  | PagingThrew => mkSolanaBackfill false s []
  | Collected allSignatures =>
      let reversed := rev allSignatures in
      let s1 := fold_left (fun st sig => processSignature chain name isHistorical sig st)
                          reversed s in
      let s2 := fst (updateLastSyncedBlock name (sol_programId chain) toBlock s1) in
      mkSolanaBackfill true s2 reversed
  end.

(** ** Connection supervisor *)

Definition maxReconnectAttempts : Z := 5.
Definition reconnectDelay : Z := 5000.
Definition healthCheckInterval : Z := 30000.

Record BlockchainConfig := mkBlockchainConfig {
  cfg_rpcUrl : string;
  cfg_chainId : Z;
  cfg_contractAddresses : list string;
  cfg_programId : option string          (* extra?.programId *)
}.

(** The class of [this.providers[name]], which the health probe tests with
    [instanceof]. *)
Inductive Provider :=
| WebSocketProvider
| JsonRpcProvider
| Connection.

(** The per-chain maps of [BlockchainService] and its pending timers.
    [contracts] keeps the [target] of each contract instance;
    [healthCheckTimers] holds the chains with a live [setInterval] timer;
    [reconnectTimeouts] holds the [setTimeout] callbacks registered by
    [reconnectBlockchain] that have not run yet, with their delay;
    [socketHandlers] holds the chains whose live provider carries the
    'open' / 'close' / 'error' handlers of [addBlockchain]. *)
Record Runtime := mkRuntime {
  configs : gmap string BlockchainConfig;
  providers : gmap string Provider;
  contracts : gmap string (list string);
  connectionStates : gmap string bool;
  reconnectAttempts : gmap string Z;
  healthCheckTimers : gset string;
  reconnectTimeouts : list (string * Z);
  socketHandlers : gset string;
  syncThresholdBlocks : Z
}.

Definition emptyRuntime : Runtime := mkRuntime ∅ ∅ ∅ ∅ ∅ ∅ [] ∅ 5.

Definition set_configs (rt : Runtime) (v : gmap string BlockchainConfig) : Runtime :=
  mkRuntime v (providers rt) (contracts rt) (connectionStates rt) (reconnectAttempts rt)
            (healthCheckTimers rt) (reconnectTimeouts rt) (socketHandlers rt)
            (syncThresholdBlocks rt).
Definition set_providers (rt : Runtime) (v : gmap string Provider) : Runtime :=
  mkRuntime (configs rt) v (contracts rt) (connectionStates rt) (reconnectAttempts rt)
            (healthCheckTimers rt) (reconnectTimeouts rt) (socketHandlers rt)
            (syncThresholdBlocks rt).
Definition set_contracts (rt : Runtime) (v : gmap string (list string)) : Runtime :=
  mkRuntime (configs rt) (providers rt) v (connectionStates rt) (reconnectAttempts rt)
            (healthCheckTimers rt) (reconnectTimeouts rt) (socketHandlers rt)
            (syncThresholdBlocks rt).
Definition set_connectionStates (rt : Runtime) (v : gmap string bool) : Runtime :=
  mkRuntime (configs rt) (providers rt) (contracts rt) v (reconnectAttempts rt)
            (healthCheckTimers rt) (reconnectTimeouts rt) (socketHandlers rt)
            (syncThresholdBlocks rt).
Definition set_reconnectAttempts (rt : Runtime) (v : gmap string Z) : Runtime :=
  mkRuntime (configs rt) (providers rt) (contracts rt) (connectionStates rt) v
            (healthCheckTimers rt) (reconnectTimeouts rt) (socketHandlers rt)
            (syncThresholdBlocks rt).
Definition set_healthCheckTimers (rt : Runtime) (v : gset string) : Runtime :=
  mkRuntime (configs rt) (providers rt) (contracts rt) (connectionStates rt)
            (reconnectAttempts rt) v (reconnectTimeouts rt) (socketHandlers rt)
            (syncThresholdBlocks rt).
Definition set_reconnectTimeouts (rt : Runtime) (v : list (string * Z)) : Runtime :=
  mkRuntime (configs rt) (providers rt) (contracts rt) (connectionStates rt)
            (reconnectAttempts rt) (healthCheckTimers rt) v (socketHandlers rt)
            (syncThresholdBlocks rt).

Definition set_socketHandlers (rt : Runtime) (v : gset string) : Runtime :=
  mkRuntime (configs rt) (providers rt) (contracts rt) (connectionStates rt)
            (reconnectAttempts rt) (healthCheckTimers rt) (reconnectTimeouts rt)
            v (syncThresholdBlocks rt).

Definition setSyncThreshold (threshold : Z) (rt : Runtime) : Runtime :=
  mkRuntime (configs rt) (providers rt) (contracts rt) (connectionStates rt)
            (reconnectAttempts rt) (healthCheckTimers rt) (reconnectTimeouts rt)
            (socketHandlers rt) threshold.

(** [name.toLowerCase() === 'solana'] *)
Definition lowerAscii (c : ascii) : ascii :=
  let n := nat_of_ascii c in
  if (Nat.leb 65 n && Nat.leb n 90)%bool then ascii_of_nat (n + 32) else c.

Fixpoint toLowerCase (s : string) : string :=
  match s with
  | EmptyString => EmptyString
  | String c t => String (lowerAscii c) (toLowerCase t)
  end.

Definition isSolana (name : string) : bool := String.eqb (toLowerCase name) "solana".

(** [rpcUrl.startsWith('wss://') || rpcUrl.startsWith('ws://')] *)
Definition isSocket (rpcUrl : string) : bool :=
  String.prefix "wss://" rpcUrl || String.prefix "ws://" rpcUrl.

(** What the outside world does during one connection attempt. *)
Record ConnectEnv := mkConnectEnv {
  (** building the provider or loading the IDL throws inside [addBlockchain] *)
  env_createThrows : bool;
  (** [wsProvider._websocket] is accessible, so the handlers get registered *)
  env_socketEvents : bool;
  (** the socket's 'open' handler runs while the listeners are being set up *)
  env_socketOpens : bool;
  (** [listenToEthereumEvents] / [listenToSolanaEvents] throws *)
  env_listenThrows : bool
}.

(** [addBlockchain(name, config)]; the boolean is false when it throws. *)
Definition addBlockchain (env : ConnectEnv) (name : string) (config : BlockchainConfig)
    (rt : Runtime) : Runtime * bool :=
  let rt := set_configs rt (<[name := config]> (configs rt)) in
  if isSolana name then
    let rt := set_providers rt (<[name := Connection]> (providers rt)) in
    if env_createThrows env then (rt, false)
    else
      let rt := set_connectionStates rt (<[name := true]> (connectionStates rt)) in
      let rt := set_reconnectAttempts rt (<[name := 0]> (reconnectAttempts rt)) in
      (rt, true)
  else if env_createThrows env then (rt, false)
  else
    let '(rt, provider) :=
      if isSocket (cfg_rpcUrl config) then
        (if env_socketEvents env
         then set_socketHandlers rt (socketHandlers rt ∪ {[name]})
         else set_connectionStates rt (<[name := true]> (connectionStates rt)),
         WebSocketProvider)
      else
        (set_reconnectAttempts
           (set_connectionStates rt (<[name := true]> (connectionStates rt)))
           (<[name := 0]> (reconnectAttempts rt)),
         JsonRpcProvider) in
    let rt := set_providers rt (<[name := provider]> (providers rt)) in
    let rt := set_contracts rt (<[name := cfg_contractAddresses config]> (contracts rt)) in
    (rt, true).

(** The 'open' handler registered on the socket by [addBlockchain]. *)
Definition onSocketOpen (name : string) (rt : Runtime) : Runtime :=
  set_reconnectAttempts
    (set_connectionStates rt (<[name := true]> (connectionStates rt)))
    (<[name := 0]> (reconnectAttempts rt)).

(** The 'close' and 'error' handlers. *)
Definition onSocketDown (name : string) (rt : Runtime) : Runtime :=
  set_connectionStates rt (<[name := false]> (connectionStates rt)).

(** [cleanupBlockchain]: clears the health timer, removes the contract
    listeners and destroys a WebSocket provider, whose handlers go with it;
    the maps keep their entries. *)
Definition cleanupBlockchain (name : string) (rt : Runtime) : Runtime :=
  let rt := set_healthCheckTimers rt (healthCheckTimers rt ∖ {[name]}) in
  set_socketHandlers rt (socketHandlers rt ∖ {[name]}).

Definition startHealthCheck (name : string) (rt : Runtime) : Runtime :=
  set_healthCheckTimers rt (healthCheckTimers rt ∪ {[name]}).

(** What an invocation of [reconnectBlockchain] does that can be observed. *)
Inductive Effect :=
| AttemptStarted (blockchainName : string) (attempt : Z)
| Waited (blockchainName : string) (delayMs : Z)
| Reconnected (blockchainName : string)
| RetryScheduled (blockchainName : string) (nextDelayMs : Z).

Definition attemptsOf (rt : Runtime) (blockchainName : string) : Z :=
  match reconnectAttempts rt !! blockchainName with
  | Some n => n
  | None => 0
  end.

(** [reconnectBlockchain(blockchainName)].  The backfill that the listener
    set-up runs acts on the database only and is the subject of
    [fetchHistoricalEvents] / [fetchSolanaTransactions]; here it shows as
    [env_listenThrows]. *)
Definition reconnectBlockchain (env : ConnectEnv) (blockchainName : string)
    (rt : Runtime) : Runtime * list Effect :=
  match configs rt !! blockchainName with
  | None => (rt, [])
  | Some config =>
      let currentAttempts := attemptsOf rt blockchainName in
      if Z.geb currentAttempts maxReconnectAttempts then (rt, [])
      else
        let rt := set_reconnectAttempts rt
                    (<[blockchainName := currentAttempts + 1]> (reconnectAttempts rt)) in
        let rt := cleanupBlockchain blockchainName rt in
        let delayMs := reconnectDelay * currentAttempts in
        let '(rt, created) := addBlockchain env blockchainName config rt in
        let rt :=
          if created && negb (isSolana blockchainName) && isSocket (cfg_rpcUrl config)
             && env_socketEvents env && env_socketOpens env
          then onSocketOpen blockchainName rt else rt in
        if created && negb (env_listenThrows env) then
          let rt := startHealthCheck blockchainName rt in
          let rt := set_connectionStates rt (<[blockchainName := true]> (connectionStates rt)) in
          let rt := set_reconnectAttempts rt (<[blockchainName := 0]> (reconnectAttempts rt)) in
          (rt, [AttemptStarted blockchainName (currentAttempts + 1);
                Waited blockchainName delayMs;
                Reconnected blockchainName])
        else
          let rt := set_connectionStates rt (<[blockchainName := false]> (connectionStates rt)) in
          let nextDelayMs := reconnectDelay * (currentAttempts + 1) in
          let rt := set_reconnectTimeouts rt
                      (reconnectTimeouts rt ++ [(blockchainName, nextDelayMs)]) in
          (rt, [AttemptStarted blockchainName (currentAttempts + 1);
                Waited blockchainName delayMs;
                RetryScheduled blockchainName nextDelayMs])
  end.

(** [forceReconnect(blockchainName)]: [reconnectBlockchain] handles its own
    errors, so the call returns true. *)
Definition forceReconnect (env : ConnectEnv) (blockchainName : string) (rt : Runtime)
    : Runtime * list Effect * bool :=
  let '(rt', effects) := reconnectBlockchain env blockchainName rt in
  (rt', effects, true).

(** The [setInterval] callback installed by [startHealthCheck]; [isHealthy]
    is what [checkConnectionHealth] returned. *)
Definition healthCheckTick (env : ConnectEnv) (isHealthy : bool) (blockchainName : string)
    (rt : Runtime) : Runtime * list Effect :=
  let rt := set_connectionStates rt (<[blockchainName := isHealthy]> (connectionStates rt)) in
  if isHealthy
  then (set_reconnectAttempts rt (<[blockchainName := 0]> (reconnectAttempts rt)), [])
  else reconnectBlockchain env blockchainName rt.

Fixpoint removeTimeout (entry : string * Z) (l : list (string * Z)) : list (string * Z) :=
  match l with
  | [] => []
  | x :: t =>
      if String.eqb (fst x) (fst entry) && Z.eqb (snd x) (snd entry)
      then t else x :: removeTimeout entry t
  end.

(** A [setTimeout] callback registered by a failed attempt runs. *)
Definition reconnectTimeoutFires (env : ConnectEnv) (entry : string * Z) (rt : Runtime)
    : Runtime * list Effect :=
  reconnectBlockchain env (fst entry)
    (set_reconnectTimeouts rt (removeTimeout entry (reconnectTimeouts rt))).

(** Everything that can happen to the supervisor without an operator: a
    health timer fires, a retry timeout fires, a socket handler runs. *)
Inductive autoStep : Runtime -> list Effect -> Runtime -> Prop :=
| auto_health (env : ConnectEnv) (isHealthy : bool) (name : string) (rt : Runtime) :
    name ∈ healthCheckTimers rt ->
    autoStep rt (snd (healthCheckTick env isHealthy name rt))
             (fst (healthCheckTick env isHealthy name rt))
| auto_timeout (env : ConnectEnv) (entry : string * Z) (rt : Runtime) :
    In entry (reconnectTimeouts rt) ->
    autoStep rt (snd (reconnectTimeoutFires env entry rt))
             (fst (reconnectTimeoutFires env entry rt))
| auto_socket_open (name : string) (rt : Runtime) :
    name ∈ socketHandlers rt ->
    autoStep rt [] (onSocketOpen name rt)
| auto_socket_down (name : string) (rt : Runtime) :
    name ∈ socketHandlers rt ->
    autoStep rt [] (onSocketDown name rt).

Inductive autoRun : Runtime -> list Effect -> Runtime -> Prop :=
| auto_done (rt : Runtime) : autoRun rt [] rt
| auto_more (rt rt' rt'' : Runtime) (e e' : list Effect) :
    autoStep rt e rt' -> autoRun rt' e' rt'' -> autoRun rt (e ++ e') rt''.

(** ** Health probe *)

Record Probe := mkProbe {
  probe_healthy : bool;
  probe_store : Store;
  (** the catch-up backfill the probe started: contract (or program),
      first and last position *)
  probe_backfill : option (string * Z * Z)
}.

(** [currentBlock] is the answer of [connection.getSlot('confirmed')]. *)
Definition checkSolanaConnectionHealth (solana : SolanaChain) (currentBlock : option Z)
    (rt : Runtime) (blockchainName : string) (s : Store) : Probe :=
  match currentBlock with
  | None => mkProbe false s None
  | Some currentBlock =>
      match configs rt !! blockchainName with
      | Some config =>
          match cfg_programId config with
          | Some configured =>
              if String.eqb configured "" then mkProbe true s None
              else
                let programId := sol_programId solana in
                match getLastSyncedBlock s blockchainName programId with
                | Some lastSyncedBlock =>
                    let blocksBehind := currentBlock - lastSyncedBlock in
                    let solanaThreshold := syncThresholdBlocks rt * 10 in
                    if Z.gtb blocksBehind solanaThreshold then
                      let b := fetchSolanaTransactions solana blockchainName
                                 (lastSyncedBlock + 1) currentBlock false s in
                      mkProbe true (sb_store b)
                        (Some (programId, lastSyncedBlock + 1, currentBlock))
                    else mkProbe true s None
                | None => mkProbe true s None
                end
          | None => mkProbe true s None
          end
      | None => mkProbe true s None
      end
  end.

(** [checkConnectionHealth(blockchainName)]; [height] is the answer of
    [getBlockNumber()] (or [getSlot]), [None] when the call throws. *)
Definition checkConnectionHealth (chain : EvmChain) (solana : SolanaChain)
    (height : option Z) (rt : Runtime) (blockchainName : string) (s : Store) : Probe :=
  match providers rt !! blockchainName with
  | None => mkProbe false s None
  | Some WebSocketProvider =>
      match height with
      | None => mkProbe false s None
      | Some blockNumber =>
          match configs rt !! blockchainName with
          | Some config =>
              match cfg_contractAddresses config with
              | contractAddress :: _ =>
                  match getLastSyncedBlock s blockchainName contractAddress with
                  | Some lastSyncedBlock =>
                      let blocksBehind := blockNumber - lastSyncedBlock in
                      if Z.gtb blocksBehind (syncThresholdBlocks rt) then
                        match contracts rt !! blockchainName with
                        | Some instances =>
                            match find (fun target => String.eqb target contractAddress)
                                       instances with
                            | Some contract =>
                                let b := fetchHistoricalEvents chain
                                           (Some (cfg_chainId config)) blockchainName
                                           contract (lastSyncedBlock + 1) blockNumber s in
                                mkProbe (bf_result b) (bf_store b)
                                  (Some (contract, lastSyncedBlock + 1, blockNumber))
                            | None => mkProbe false s None
                            end
                        | None => mkProbe false s None
                        end
                      else mkProbe true s None
                  | None => mkProbe true s None
                  end
              | [] => mkProbe true s None
              end
          | None => mkProbe true s None
          end
      end
  | Some Connection => checkSolanaConnectionHealth solana height rt blockchainName s
  | Some JsonRpcProvider =>
      match height with
      | None => mkProbe false s None
      | Some _ => mkProbe true s None
      end
  end.

(** * Further parts of the service *)

(** ** Retry with backoff *)

(** What one call of the operation handed to [retryWithBackoff] does: it
    returns, it throws the rate-limit error ([isError(error, 'BAD_DATA')]
    with a message that includes 'Too Many Requests'), or it throws
    something else. *)
Inductive Attempt (A : Type) :=
| Returns (a : A)
| RateLimited
| Fails.
Arguments Returns {A} a.
Arguments RateLimited {A}.
Arguments Fails {A}.

(** How [retryWithBackoff] ends. *)
Inductive Retried (A : Type) :=
| Returned (a : A)
| ThrewRateLimit      (* [throw error] on the last try *)
| ThrewOther          (* [throw error] of any other error *)
| ThrewMaxRetries.    (* [throw new Error('Max retries exceeded')] *)
Arguments Returned {A} a.
Arguments ThrewRateLimit {A}.
Arguments ThrewOther {A}.
Arguments ThrewMaxRetries {A}.

Record RetryRun (A : Type) := mkRetryRun {
  retry_result : Retried A;
  retry_calls : nat;          (* how often [operation] was called *)
  retry_delays : list Z       (* the waits of [this.delay], in order *)
}.
Arguments mkRetryRun {A} _ _ _.
Arguments retry_result {A} _.
Arguments retry_calls {A} _.
Arguments retry_delays {A} _.

(** [for (let attempt = 1; attempt <= maxRetries; attempt++)]; [operation k]
    is what the call made in attempt [k] does. *)
Equations? retryLoop {A : Type} (operation : Z -> Attempt A)
    (maxRetries baseDelay attempt : Z)
    : RetryRun A by wf (Z.to_nat (maxRetries - attempt + 1)) lt :=
  retryLoop operation maxRetries baseDelay attempt
    with Z_le_dec attempt maxRetries => {
    | right _ => mkRetryRun ThrewMaxRetries 0 []
    | left _ with operation attempt => {
      | Returns a => mkRetryRun (Returned a) 1 []
      | Fails => mkRetryRun ThrewOther 1 []
      | RateLimited =>
          if Z.eqb attempt maxRetries then mkRetryRun ThrewRateLimit 1 []
          else
            let delay := baseDelay * 2 ^ (attempt - 1) in
            let rest := retryLoop operation maxRetries baseDelay (attempt + 1) in
            mkRetryRun (retry_result rest) (S (retry_calls rest))
              (delay :: retry_delays rest) } }.
Proof. lia. Qed.

Definition retryWithBackoff {A : Type} (operation : Z -> Attempt A)
    (maxRetries baseDelay : Z) : RetryRun A :=
  retryLoop operation maxRetries baseDelay 1.

(** The defaults of the signature: [maxRetries = 3], [baseDelay = 1000]. *)
Definition defaultMaxRetries : Z := 3.
Definition defaultBaseDelay : Z := 1000.

(** ** Deployment block *)

(** [while (startBlock <= endBlock)] of [getDeploymentBlock]; [codeAt b]
    tells whether [provider.getCode(contractAddress, b)] differs from '0x'. *)
Equations? deploymentSearch (codeAt : Z -> bool) (startBlock endBlock : Z)
    : Z by wf (Z.to_nat (endBlock - startBlock + 1)) lt :=
  deploymentSearch codeAt startBlock endBlock with Z_le_dec startBlock endBlock => {
    | right _ => startBlock
    | left _ =>
        let midBlock := (startBlock + endBlock) / 2 in
        if codeAt midBlock
        then deploymentSearch codeAt startBlock (midBlock - 1)
        else deploymentSearch codeAt (midBlock + 1) endBlock }.
Proof.
  - subst midBlock.
    pose proof (Z.mul_div_le (startBlock + endBlock) 2 ltac:(lia)).
    pose proof (Z.mul_succ_div_gt (startBlock + endBlock) 2 ltac:(lia)). lia.
  - subst midBlock.
    pose proof (Z.mul_div_le (startBlock + endBlock) 2 ltac:(lia)).
    pose proof (Z.mul_succ_div_gt (startBlock + endBlock) 2 ltac:(lia)). lia.
Qed.

(** [codeNow] is [provider.getCode(contractAddress) !== '0x'] at the latest
    block, [blockNumber] the answer of [provider.getBlockNumber()].  A read
    that throws makes the whole call throw; callers see that case as the
    [None] of [deploymentBlock] in [listenContracts] below. *)
Definition getDeploymentBlock (codeNow : bool) (codeAt : Z -> bool) (blockNumber : Z) : Z :=
  if negb codeNow then 0
  else deploymentSearch codeAt 0 blockNumber.

(** ** Chunk count *)

(** [const totalChunks = Math.ceil(totalBlocks / this.maxBlockRange)], the
    number the chunked branch of [fetchHistoricalEvents] announces in its
    log lines; on integers the ceiling of n / m is the floor of
    (n + m - 1) / m. *)
Definition totalChunks (fromBlock toBlock : Z) : Z :=
  let totalBlocks := toBlock - fromBlock + 1 in
  (totalBlocks + maxBlockRange - 1) / maxBlockRange.

(** ** Shutdown and status *)

(** [stopHealthChecks()]: every health timer is cleared and deleted. *)
Definition stopHealthChecks (rt : Runtime) : Runtime := set_healthCheckTimers rt ∅.

(** [cleanup()]: [stopHealthChecks], then [cleanupBlockchain] for every key
    of [this.configs]. *)
Definition cleanup (rt : Runtime) : Runtime :=
  foldr cleanupBlockchain (stopHealthChecks rt) (map fst (map_to_list (configs rt))).

(** [getConnectionStatus()]: for every key of [this.configs],
    [connectionStates[name] || false] and [reconnectAttempts[name] || 0]. *)
Definition getConnectionStatus (rt : Runtime) : gmap string (bool * Z) :=
  map_imap (fun name _ =>
              Some (match connectionStates rt !! name with Some b => b | None => false end,
                    attemptsOf rt name))
           (configs rt).

(** ** Listener set-up *)

(** How [listenToEthereumEvents] / [listenToSolanaEvents] end, with the
    store they leave. *)
Inductive Listened :=
| ListenThrew (s : Store)
| ListenDone (s : Store).

(** [for (const contract of contracts)] of [listenToEthereumEvents]:
    [contracts] holds the [target] of each instance, [deploymentBlock c] is
    the answer of [getDeploymentBlock(provider, c)], [None] when one of its
    reads throws.  The handlers that [setupEventListeners] registers write
    nothing until a live event arrives. *)
Fixpoint listenContracts (chain : EvmChain) (chainId : option Z)
    (deploymentBlock : string -> option Z) (name : string) (currentBlock : Z)
    (contracts : list string) (s : Store) : Listened :=
  match contracts with
  | [] => ListenDone s
  | contractAddress :: rest =>
      match getLastSyncedBlock s name contractAddress with
      | None =>
          match deploymentBlock contractAddress with
          | None => ListenThrew s
          | Some fromBlock =>
              listenContracts chain chainId deploymentBlock name currentBlock rest
                (bf_store (fetchHistoricalEvents chain chainId name contractAddress
                             fromBlock currentBlock s))
          end
      | Some lastSyncedBlock =>
          if Z.ltb lastSyncedBlock currentBlock then
            listenContracts chain chainId deploymentBlock name currentBlock rest
              (bf_store (fetchHistoricalEvents chain chainId name contractAddress
                           (lastSyncedBlock + 1) currentBlock s))
          else listenContracts chain chainId deploymentBlock name currentBlock rest s
      end
  end.

(** [contracts] is [this.contracts[name]], [currentBlock] the answer of
    [provider.getBlockNumber()], [None] when it throws. *)
Definition listenToEthereumEvents (chain : EvmChain) (chainId : option Z)
    (deploymentBlock : string -> option Z) (name : string)
    (contracts : option (list string)) (currentBlock : option Z) (s : Store) : Listened :=
  match contracts with
  | None => ListenDone s
  | Some contracts =>
      match currentBlock with
      | None => ListenThrew s
      | Some currentBlock =>
          listenContracts chain chainId deploymentBlock name currentBlock contracts s
      end
  end.

(** [currentBlock] is the answer of [connection.getSlot()].  The program id
    built from [config.extra.programId] is the one [addBlockchain] stored. *)
Definition listenToSolanaEvents (chain : SolanaChain) (name : string)
    (currentBlock : option Z) (s : Store) : Listened :=
  let lastSyncedBlock := getLastSyncedBlock s name (sol_programId chain) in
  match currentBlock with
  | None => ListenThrew s
  | Some currentBlock =>
      match lastSyncedBlock with
      | None =>
          ListenDone (sb_store (fetchSolanaTransactions chain name 0 currentBlock true s))
      | Some lastSyncedBlock =>
          if Z.ltb lastSyncedBlock currentBlock then
            ListenDone (sb_store (fetchSolanaTransactions chain name
                                    (lastSyncedBlock + 1) currentBlock false s))
          else ListenDone s
      end
  end.

(** ** Win notifications *)

(** A row of "notifications"; the win event is referred to by its
    (transactionHash, logIndex). *)
Record Notification := mkNotification {
  n_user : string;
  n_winEvent : string * Z;
  n_isWinner : bool;
  n_isRead : bool
}.

(** [NotificationService.createWinNotifications(winEvent)]: the rows handed
    to [notificationRepository.save]. *)
Definition createWinNotifications (winEvent : WinEvent) : list Notification :=
  let event := (we_transactionHash winEvent, we_logIndex winEvent) in
  mkNotification (we_winner winEvent) event true false ::
  map (fun player => mkNotification player event false false)
      (List.filter (fun player => negb (String.eqb player (we_winner winEvent)))
                   (we_players winEvent)).

(** * Specification vocabulary *)

(** The event rows that carry a given natural key. *)
Definition ticketPurchaseRows (s : Store) (tx : string) (idx : Z) : list TicketPurchase :=
  List.filter (fun r => sameTxLog tx idx (tp_transactionHash r) (tp_logIndex r))
              (ticket_purchases s).

Definition hasUser (s : Store) (address : string) : bool :=
  existsb (String.eqb address) (users s).

(** The aggregate row of a (user, token, round, contract), as [findOne]
    returns it, and its ticket count (0 while there is no row). *)
Definition statsRow (s : Store) (user token : string) (roundId : Z)
    (contractAddress : string) : option UserRoundStats :=
  find (statsKey user token roundId contractAddress) (user_round_stats s).

Definition ticketCountOf (s : Store) (user token : string) (roundId : Z)
    (contractAddress : string) : Z :=
  match statsRow s user token roundId contractAddress with
  | Some r => urs_ticketCount r
  | None => 0
  end.

(** A store never loses a user or a ticket-purchase key. *)
Definition grows (s s' : Store) : Prop :=
  (forall a, hasUser s a = true -> hasUser s' a = true) /\
  (forall tx idx, hasTicketPurchase s tx idx = true -> hasTicketPurchase s' tx idx = true).

Definition monotone {A} (c : Db A) : Prop := forall s, grows s (fst (c s)).

(** A computation leaves a component of the store as it is, whether it
    returns or raises. *)
Definition keeps {A X} (f : Store -> X) (c : Db A) : Prop :=
  forall s, f (fst (c s)) = f s.

(** The row the "previous round" query of the purchase handlers returns. *)
Definition previousRoundOf (s : Store) (user token : string) (roundId : Z)
    (contractAddress : string) : option UserRoundStats :=
  maxByRoundId None
    (List.filter (priorOf user token roundId contractAddress) (user_round_stats s)).

(** ** Reachable stores

    Every write of the service to the tables goes through one of the
    handlers or the cursor write; the administrative purge of
    [CleanupService.clean] empties all tables.  [reachable] below holds the
    stores reached when the deliveries are handled one after the other.  The
    listeners of live events start a handler without awaiting it, so two
    handlers can interleave; the stores of such runs are not described. *)
Inductive Delivery :=
| EvmTicketPurchased (token : string) (roundId : Z) (buyer : string)
    (count totalAmount timestamp chainId : Z) (tx : string) (blockNo : Z)
    (name contract : string) (idx : Z)
| EvmFirstTicketBonus (token : string) (roundId : Z) (buyer : string)
    (timestamp roundStartTime roundEndTime chainId : Z) (tx : string) (blockNo : Z)
    (name contract : string) (idx : Z)
| EvmWinnerPicked (roundResult : ChainRead RoundResult) (token : string)
    (roundId timestamp chainId : Z) (tx : string) (blockNo : Z)
    (name contract : string) (idx : Z)
| SolanaTicketPurchased (contract : string) (chainId : Z) (sig : string) (block : Z)
    (name : string) (idx : Z) (events : list SolanaEvent)
| SolanaWinnerPicked (contract : string) (winnerPubkey : string -> Z -> option string)
    (chainId : Z) (sig : string) (block : Z) (name : string) (idx : Z)
    (events : list SolanaEvent)
| SolanaAllRequestsCompleted (contract : string) (tukTukOk : bool) (sig : string)
    (block : Z) (name : string) (events : list SolanaEvent)
| SolanaPrizeClaimed (contract : string) (sig : string) (block : Z) (name : string)
    (events : list SolanaEvent)
| CursorWrite (name contract : string) (blockNo : Z)
| Purge.

Definition deliver (d : Delivery) (s : Store) : Store :=
  match d with
  | EvmTicketPurchased token roundId buyer count totalAmount timestamp chainId tx blockNo
      name contract idx =>
      fst (processTicketPurchasedEvent token roundId buyer count totalAmount timestamp
             chainId tx blockNo name contract idx s)
  | EvmFirstTicketBonus token roundId buyer timestamp roundStartTime roundEndTime chainId
      tx blockNo name contract idx =>
      fst (processFirstTicketBonusEvent token roundId buyer timestamp roundStartTime
             roundEndTime chainId tx blockNo name contract idx s)
  | EvmWinnerPicked roundResult token roundId timestamp chainId tx blockNo name contract idx =>
      fst (processWinnerPickedEvent roundResult token roundId timestamp chainId tx blockNo
             name contract idx s)
  | SolanaTicketPurchased contract chainId sig block name idx events =>
      fst (processSolanaTicketPurchasedEvent contract chainId sig block name idx events s)
  | SolanaWinnerPicked contract winnerPubkey chainId sig block name idx events =>
      fst (processSolanaWinnerPickedEvent contract winnerPubkey chainId sig block name idx
             events s)
  | SolanaAllRequestsCompleted contract tukTukOk sig block name events =>
      fst (processAllRequestsCompletedEvent contract tukTukOk sig block name events s)
  | SolanaPrizeClaimed contract sig block name events =>
      fst (processSolanaPrizeClaimedEvent contract sig block name events s)
  | CursorWrite name contract blockNo =>
      fst (updateLastSyncedBlock name contract blockNo s)
  | Purge => emptyStore
  end.

Inductive reachable : Store -> Prop :=
| reachable_empty : reachable emptyStore
| reachable_deliver (d : Delivery) (s : Store) : reachable s -> reachable (deliver d s).

(** ** Streaks *)

Definition keyOf (r : UserRoundStats) : string * string * Z * string :=
  (urs_user r, urs_token r, urs_roundId r, urs_contractAddress r).

Definition sameSeries (user token contractAddress : string) (r : UserRoundStats) : Prop :=
  urs_user r = user /\ urs_token r = token /\ urs_contractAddress r = contractAddress.

(** [p] is the most recent row of the series before round [roundId]. *)
Definition mostRecentPrior (s : Store) (user token : string) (roundId : Z)
    (contractAddress : string) (p : UserRoundStats) : Prop :=
  In p (user_round_stats s) /\ sameSeries user token contractAddress p /\
  urs_roundId p < roundId /\
  forall q, In q (user_round_stats s) -> sameSeries user token contractAddress q ->
            urs_roundId q < roundId -> urs_roundId q <= urs_roundId p.

(** The rule of the specification for the row of the current round. *)
Definition streakRule (s : Store) (user token : string) (roundId : Z)
    (contractAddress : string) (row : UserRoundStats) : Prop :=
  (forall p, mostRecentPrior s user token roundId contractAddress p ->
             urs_roundId p = roundId - 1 ->
             urs_isConsecutive row = true /\
             urs_consecutiveRounds row =
               (if urs_isConsecutive p then urs_consecutiveRounds p + 1 else 1)) /\
  ((forall p, mostRecentPrior s user token roundId contractAddress p ->
              urs_roundId p <> roundId - 1) ->
   urs_isConsecutive row = false /\ urs_consecutiveRounds row = 0).

(** The two facts about the aggregate table that every reachable store has:
    one row per key, and a row marked consecutive has a row for the round
    before it. *)
Definition uniqueStats (l : list UserRoundStats) : Prop := List.NoDup (map keyOf l).

Definition consecutiveHasPredecessor (l : list UserRoundStats) : Prop :=
  forall r, In r l -> urs_isConsecutive r = true ->
    existsb (statsKey (urs_user r) (urs_token r) (urs_roundId r - 1)
               (urs_contractAddress r)) l = true.

Definition statsInvariant (s : Store) : Prop :=
  uniqueStats (user_round_stats s) /\ consecutiveHasPredecessor (user_round_stats s).

Definition preservesStats {A} (c : Db A) : Prop :=
  forall s, statsInvariant s -> statsInvariant (fst (c s)).

(** ** Chunked backfill *)

(** Consecutive, non-overlapping chunks in ascending order, the first one
    starting at [start], none longer than [maxBlockRange] or reaching past
    [toBlock]. *)
Fixpoint chunksFrom (start toBlock : Z) (cs : list ChunkRun) : Prop :=
  match cs with
  | [] => True
  | c :: rest =>
      chunk_from c = start /\
      chunk_from c <= chunk_to c /\
      chunk_to c <= toBlock /\
      chunk_to c - chunk_from c + 1 <= maxBlockRange /\
      chunksFrom (chunk_to c + 1) toBlock rest
  end.

(** Each chunk is fetched, its events are applied to the store the chunk
    before it left, the cursor is then written and reads back as the chunk's
    end; only then does the next chunk start. *)
Fixpoint processedInOrder (chain : EvmChain) (chainId : option Z)
    (name contractAddress : string) (s : Store) (cs : list ChunkRun) : Prop :=
  match cs with
  | [] => True
  | c :: rest =>
      queryFilter chain contractAddress (chunk_from c) (chunk_to c) = Some (chunk_events c) /\
      chunk_store c =
        fst (updateLastSyncedBlock name contractAddress (chunk_to c)
               (processEvents chain chainId name contractAddress (chunk_events c) s)) /\
      getLastSyncedBlock (chunk_store c) name contractAddress = Some (chunk_to c) /\
      processedInOrder chain chainId name contractAddress (chunk_store c) rest
  end.

(** The last block covered by a run of chunks starting at [start], and the
    store the run leaves. *)
Fixpoint endAfter (start : Z) (cs : list ChunkRun) : Z :=
  match cs with
  | [] => start - 1
  | c :: rest => endAfter (chunk_to c + 1) rest
  end.

Fixpoint storeAfter (s : Store) (cs : list ChunkRun) : Store :=
  match cs with
  | [] => s
  | c :: rest => storeAfter (chunk_store c) rest
  end.

(** A node that answers every query and has no logs. *)
Definition quietChain : EvmChain :=
  mkEvmChain (fun _ _ _ => Some []) (fun _ _ _ => ReadNull).

(** ** Sync cursor *)

(** The claim that no write of the service lowers a stored cursor. *)
Definition cursor_never_decreases : Prop :=
  forall s d name contract c c',
    reachable s ->
    getLastSyncedBlock s name contract = Some c ->
    getLastSyncedBlock (deliver d s) name contract = Some c' ->
    c <= c'.

(** A live log of block 108 has been applied; the catch-up backfill of
    [101, 107] then applies a log of block 103. *)
Definition liveAhead : Store :=
  deliver (EvmTicketPurchased "0xT" 7 "0xB" 1 10 1700000108 1 "0xB108" 108
             "ethereum" "0xC" 0) emptyStore.

Definition lateLog : Delivery :=
  EvmTicketPurchased "0xT" 7 "0xA" 2 20 1700000103 1 "0xA103" 103 "ethereum" "0xC" 0.

(** ** Reconnection *)

Definition wsConfig : BlockchainConfig :=
  mkBlockchainConfig "wss://sepolia.example/ws" 11155111 ["0xC"] None.

Definition httpConfig : BlockchainConfig :=
  mkBlockchainConfig "https://sepolia.example/rpc" 11155111 ["0xC"] None.

(** A registered, connected chain with its health timer running. *)
Definition connected (name : string) (config : BlockchainConfig) : Runtime :=
  startHealthCheck name (fst (addBlockchain (mkConnectEnv false false false false)
                                name config emptyRuntime)).

(** The same chain once the attempt counter stands at the maximum. *)
Definition exhausted (name : string) (config : BlockchainConfig) : Runtime :=
  set_reconnectAttempts (cleanupBlockchain name (connected name config))
    (<[name := maxReconnectAttempts]> ∅).

(** The node is down: the listener set-up throws, no socket handler is
    reachable. *)
Definition nodeDown : ConnectEnv := mkConnectEnv false false false true.

(** The claim that a forced reconnect starts over at attempt 1, whatever the
    state of the chain. *)
Definition forceReconnect_restarts : Prop :=
  forall env name config rt,
    configs rt !! name = Some config ->
    exists rest, snd (fst (forceReconnect env name rt)) = AttemptStarted name 1 :: rest.

Definition waits (effects : list Effect) : list Z :=
  flat_map (fun e => match e with Waited _ ms => [ms] | _ => [] end) effects.

Definition retriesScheduled (effects : list Effect) : list Z :=
  flat_map (fun e => match e with RetryScheduled _ ms => [ms] | _ => [] end) effects.

Definition attemptsStarted (name : string) (effects : list Effect) : list Z :=
  flat_map (fun e => match e with
                     | AttemptStarted n k => if String.eqb n name then [k] else []
                     | _ => []
                     end) effects.

(** An attempt that fails. *)
Definition attemptFails (env : ConnectEnv) : bool :=
  env_createThrows env || env_listenThrows env.

(** An attempt on a WebSocket chain that fails and neither resets the
    attempt counter nor leaves a socket handler behind that could. *)
Definition failsQuietly (env : ConnectEnv) : bool :=
  env_createThrows env || (env_listenThrows env && negb (env_socketEvents env)).

(** The retry timers of a chain fire one after the other, each attempt
    meeting the next environment of the list. *)
Fixpoint fireRetries (envs : list ConnectEnv) (name : string) (rt : Runtime)
    : Runtime * list Effect :=
  match envs with
  | [] => (rt, [])
  | env :: rest =>
      match find (fun entry => String.eqb (fst entry) name) (reconnectTimeouts rt) with
      | None => (rt, [])
      | Some entry =>
          let '(rt1, e1) := reconnectTimeoutFires env entry rt in
          let '(rt2, e2) := fireRetries rest name rt1 in
          (rt2, e1 ++ e2)
      end
  end.

(** The health check finds the chain unhealthy, which starts the first
    attempt; the retry timers do the rest. *)
Definition unhealthyRun (envs : list ConnectEnv) (name : string) (rt : Runtime)
    : Runtime * list Effect :=
  match envs with
  | [] => (rt, [])
  | env :: rest =>
      let '(rt1, e1) := healthCheckTick env false name rt in
      let '(rt2, e2) := fireRetries rest name rt1 in
      (rt2, e1 ++ e2)
  end.

(** The claim about the reconnect bound: five failed attempts wait 5, 10,
    15, 20 and 25 seconds, and no automatic attempt follows them. *)
Definition reconnect_bound_claim : Prop :=
  forall name config envs,
    length envs = 5%nat -> forallb attemptFails envs = true ->
    let '(rt', effects) := unhealthyRun envs name (connected name config) in
    waits effects = [5000; 10000; 15000; 20000; 25000] /\
    forall later rt'', autoRun rt' later rt'' -> attemptsStarted name later = [].

(** The chain has used up its attempts and nothing is left that could
    start one or reset the counter. *)
Definition givenUp (name : string) (rt : Runtime) : Prop :=
  maxReconnectAttempts <= attemptsOf rt name /\
  (name ∉ healthCheckTimers rt) /\
  (name ∉ socketHandlers rt).

(** The retry timers of a chain that are still pending. *)
Definition pendingFor (name : string) (rt : Runtime) : list (string * Z) :=
  List.filter (fun entry => String.eqb (fst entry) name) (reconnectTimeouts rt).

(** What [n] failed attempts in a row show, the first being attempt
    number [k + 1]. *)
Fixpoint failedAttempts (name : string) (k : Z) (n : nat) : list Effect :=
  match n with
  | O => []
  | S n' =>
      [AttemptStarted name (k + 1);
       Waited name (reconnectDelay * k);
       RetryScheduled name (reconnectDelay * (k + 1))] ++ failedAttempts name (k + 1) n'
  end.

(** ** Order of application on the instruction-based source *)

(** Slots never increase along the list (the order of the history API). *)
Fixpoint newestFirst (l : list SignatureInfo) : Prop :=
  match l with
  | [] => True
  | x :: t => Forall (fun y => slot y <= slot x) t /\ newestFirst t
  end.

(** Slots never decrease along the list (execution order). *)
Fixpoint oldestFirst (l : list SignatureInfo) : Prop :=
  match l with
  | [] => True
  | x :: t => Forall (fun y => slot x <= slot y) t /\ oldestFirst t
  end.

(** Round 7 of the SOL lottery: alice's purchase in slot 10 opens the round
    (its logs carry the first-ticket bonus), bob's purchase follows in
    slot 20.  The history API lists bob's transaction first. *)
Definition openingTx : SolanaTx :=
  mkSolanaTx 10 [mkInstruction true (ReadValue buy_tickets_sol)]
    (MetaOk []
       [SolTicketPurchased "SOL" 7 "alice" 2 100 90 10 1700000010;
        SolFirstTicketBonusAwarded "SOL" 7 "alice" 1700000010 1700000000 1700000900]).

Definition followingTx : SolanaTx :=
  mkSolanaTx 20 [mkInstruction true (ReadValue buy_tickets_sol)]
    (MetaOk [] [SolTicketPurchased "SOL" 7 "bob" 1 50 45 5 1700000020]).

Definition demoSolana : SolanaChain :=
  mkSolanaChain 101 "Prog" true
    [mkSignatureInfo "sigB" 20; mkSignatureInfo "sigA" 10]
    (fun _ => false)
    (fun sig => if String.eqb sig "sigA" then ReadValue openingTx
                else if String.eqb sig "sigB" then ReadValue followingTx
                else ReadNull)
    (fun _ _ => None)
    true.

Definition roundAmounts (s : Store) : list (Z * option Z * option Z) :=
  map (fun r => (r_roundId r, r_prizeAmount r, r_commissionAmount r)) (rounds s).

(** ** Health probe *)

(** An EVM chain as the probe meets it: registered with [contract] first in
    its address list, the contract instances created from that list, and the
    cursor of [contract] stored. *)
Definition evmProbeSetting (rt : Runtime) (name : string) (config : BlockchainConfig)
    (contract : string) (cursor : Z) (s : Store) : Prop :=
  (providers rt !! name = Some WebSocketProvider \/
   providers rt !! name = Some JsonRpcProvider) /\
  configs rt !! name = Some config /\
  (exists others, cfg_contractAddresses config = contract :: others) /\
  contracts rt !! name = Some (cfg_contractAddresses config) /\
  getLastSyncedBlock s name contract = Some cursor.

(** The claim about the health-triggered catch-up. *)
Definition health_probe_claim : Prop :=
  forall chain solana rt name config contract s,
    evmProbeSetting rt name config contract 100 s ->
    syncThresholdBlocks rt = 5 ->
    (let p := checkConnectionHealth chain solana (Some 107) rt name s in
     probe_healthy p = false /\ probe_backfill p = Some (contract, 101, 107)) /\
    (let p := checkConnectionHealth chain solana (Some 104) rt name s in
     probe_healthy p = true /\ probe_backfill p = None).

(** The stored cursor stands at 100 for the contract "0xC" of "ethereum". *)
Definition cursorAt100 : Store :=
  fst (updateLastSyncedBlock "ethereum" "0xC" 100 emptyStore).

(** ** Concrete scenarios *)

(** The user "0xB" buys in round 5, then in round 6, then in round 8. *)
Definition afterRound5 : Store :=
  deliver (EvmTicketPurchased "0xT" 5 "0xB" 1 10 1700000005 1 "0xA5" 50
             "ethereum" "0xC" 0) emptyStore.

Definition afterRound6 : Store :=
  deliver (EvmTicketPurchased "0xT" 6 "0xB" 1 10 1700000006 1 "0xA6" 60
             "ethereum" "0xC" 0) afterRound5.

Definition afterRound8 : Store :=
  deliver (EvmTicketPurchased "0xT" 8 "0xB" 1 10 1700000008 1 "0xA8" 80
             "ethereum" "0xC" 0) afterRound6.

Definition streakOf (s : Store) (roundId : Z) : option (bool * Z) :=
  option_map (fun r => (urs_isConsecutive r, urs_consecutiveRounds r))
             (statsRow s "0xB" "0xT" roundId "0xC").

(** A WebSocket chain with two contracts. *)
Definition twoContracts : BlockchainConfig :=
  mkBlockchainConfig "wss://sepolia.example/ws" 11155111 ["0xC"; "0xD"] None.

(** * Column ranges

    The tables have [integer], [character varying(255)] and [TIMESTAMP]
    columns.  PostgreSQL refuses a value that its column cannot hold (22003,
    22001), and the handlers rethrow every error but 23505.  The
    repositories above describe the writes of values the columns hold; the
    statements below that speak of a row being written say so with the
    predicates of this section. *)

(** [integer]: -2^31 .. 2^31 - 1. *)
Definition int32 (x : Z) : bool := (-2147483648 <=? x) && (x <=? 2147483647).

(** [character varying(255)]. *)
Definition varchar255 (s : string) : bool := Nat.leb (String.length s) 255.

(** A chain time in seconds that [getNumber] / [toNumber] return and for
    which [new Date(seconds * 1000)] is a valid date (at most 8.64e15 ms). *)
Definition chainTime (seconds : Z) : bool :=
  (0 <=? seconds) && (seconds * 1000 <=? 8640000000000000).

(** The data of an event of a Solana transaction, as far as a handler
    stores them. *)
Definition solanaEventFits (e : SolanaEvent) : bool :=
  match e with
  | SolTicketPurchased token round_id buyer count _ _ _ timestamp =>
      varchar255 token && int32 round_id && varchar255 buyer && int32 count &&
      chainTime timestamp
  | SolFirstTicketBonusAwarded token round_id buyer timestamp round_start_time
      round_end_time =>
      varchar255 token && int32 round_id && varchar255 buyer && chainTime timestamp &&
      chainTime round_start_time && chainTime round_end_time
  | SolWinnerPicked token _ round_id _ _ _ timestamp =>
      varchar255 token && int32 round_id && chainTime timestamp
  | SolPrizeClaimed round_id _ => int32 round_id
  | SolAllRequestsCompleted => true
  | SolOtherEvent _ => true
  end.

(** Everything a delivery hands to the tables is a value its column holds:
    round ids, chain ids, counts and log indexes are [integer]s, tokens,
    addresses and transaction hashes have at most 255 characters, times are
    valid dates.  Amounts and ticket ids go to unbounded text columns. *)
Definition deliveryFits (d : Delivery) : bool :=
  match d with
  | EvmTicketPurchased token roundId buyer count _ timestamp chainId tx _ _ contract idx =>
      varchar255 token && int32 roundId && varchar255 buyer && int32 count &&
      chainTime timestamp && int32 chainId && varchar255 tx && varchar255 contract &&
      int32 idx
  | EvmFirstTicketBonus token roundId buyer timestamp roundStartTime roundEndTime chainId
      tx _ _ contract idx =>
      varchar255 token && int32 roundId && varchar255 buyer && chainTime timestamp &&
      chainTime roundStartTime && chainTime roundEndTime && int32 chainId &&
      varchar255 tx && varchar255 contract && int32 idx
  | EvmWinnerPicked roundResult token roundId timestamp chainId tx _ _ contract idx =>
      varchar255 token && int32 roundId && chainTime timestamp && int32 chainId &&
      varchar255 tx && varchar255 contract && int32 idx &&
      match roundResult with
      | ReadValue rr => varchar255 (winnerAddress rr) && forallb varchar255 (roundPlayers rr)
      | _ => true
      end
  | SolanaTicketPurchased contract chainId sig _ _ idx events =>
      varchar255 contract && int32 chainId && varchar255 sig && int32 idx &&
      forallb solanaEventFits events
  | SolanaWinnerPicked contract winnerPubkey chainId sig _ _ idx events =>
      varchar255 contract && int32 chainId && varchar255 sig && int32 idx &&
      forallb solanaEventFits events &&
      match find isWinnerPicked events with
      | Some (SolWinnerPicked _ round _ winner_purchase_index _ _ _) =>
          match winnerPubkey round winner_purchase_index with
          | Some winner => varchar255 winner
          | None => true
          end
      | _ => true
      end
  | SolanaAllRequestsCompleted contract _ sig _ _ events =>
      varchar255 contract && varchar255 sig && forallb solanaEventFits events
  | SolanaPrizeClaimed contract sig _ _ events =>
      varchar255 contract && varchar255 sig && forallb solanaEventFits events
  | CursorWrite _ _ _ => true
  | Purge => true
  end.

(** The counters of an aggregate row are values the [integer] columns
    "ticketCount", "consecutiveRounds" and "totalWins" hold. *)
Definition aggregateFits (r : UserRoundStats) : bool :=
  int32 (urs_ticketCount r) && int32 (urs_consecutiveRounds r) && int32 (urs_totalWins r).

Definition aggregatesFit (s : Store) : bool := forallb aggregateFits (user_round_stats s).

(** The stores of a service whose deliveries are handled one after the
    other, each handler running to its end before the next one starts, every
    delivery within the column ranges and leaving aggregate rows the columns
    hold. *)
Inductive reachableInRange : Store -> Prop :=
| inRange_empty : reachableInRange emptyStore
| inRange_deliver (d : Delivery) (s : Store) :
    reachableInRange s ->
    deliveryFits d = true ->
    aggregatesFit (deliver d s) = true ->
    reachableInRange (deliver d s).

(** * Further specification vocabulary *)

(** ** Retries and backfills *)

(** An operation that hits the rate limit twice and then returns 7. *)
Definition rateLimitedTwice (attempt : Z) : Attempt Z :=
  if attempt <? 3 then RateLimited else Returns 7.

(** A node that answers the log queries that start below block 20000 and
    throws on the others. *)
Definition flakyChain : EvmChain :=
  mkEvmChain (fun _ fromBlock _ => if fromBlock <? 20000 then Some [] else None)
             (fun _ _ _ => ReadNull).

(** A node whose only log in any range is the WinnerPicked of round 5 and
    whose [getRoundResult] read throws. *)
Definition deafChain : EvmChain :=
  mkEvmChain
    (fun _ _ _ => Some [Decoded (mkEventLog (WinnerPicked "0xT" 5 1700000500) "0xW5" 55 2)])
    (fun _ _ _ => ReadThrows).

(** ** Invariants of the tables *)

(** A computation keeps a property of the store, whether it returns or
    raises. *)
Definition preserves {A} (I : Store -> Prop) (c : Db A) : Prop :=
  forall s, I s -> I (fst (c s)).

(** ** Tickets bought and tickets counted *)

(** The purchases of a (user, token, round, contract) and the sum of their
    counts. *)
Definition purchaseOf (user token : string) (roundId : Z) (contractAddress : string)
    (p : TicketPurchase) : bool :=
  String.eqb (tp_buyer p) user && String.eqb (tp_token p) token &&
  Z.eqb (tp_roundId p) roundId && String.eqb (tp_contractAddress p) contractAddress.

Definition sumCounts (l : list TicketPurchase) : Z :=
  fold_right (fun p acc => tp_count p + acc) 0 l.

Definition purchasedTickets (s : Store) (user token : string) (roundId : Z)
    (contractAddress : string) : Z :=
  sumCounts (List.filter (purchaseOf user token roundId contractAddress)
               (ticket_purchases s)).

(** The aggregate [ticketCount] of every key is the sum of the counts of the
    stored purchases of that key (0 where there is no aggregate row). *)
Definition ticketsConsistent (s : Store) : Prop :=
  forall user token roundId contractAddress,
    ticketCountOf s user token roundId contractAddress =
    purchasedTickets s user token roundId contractAddress.

Definition totalWinsOf (s : Store) (user token : string) (roundId : Z)
    (contractAddress : string) : Z :=
  match statsRow s user token roundId contractAddress with
  | Some r => urs_totalWins r
  | None => 0
  end.

(** ** Streak flag and streak length *)

(** A row marked consecutive has a streak of at least 1, a row not marked
    has streak 0. *)
Definition flagAgrees (r : UserRoundStats) : Prop :=
  if urs_isConsecutive r then 1 <= urs_consecutiveRounds r
  else urs_consecutiveRounds r = 0.

Definition streaksWellFormed (s : Store) : Prop :=
  statsInvariant s /\ forall r, In r (user_round_stats s) -> flagAgrees r.

(** The result of a round: "0xB" wins with ticket 3. *)
Definition demoResult : RoundResult := mkRoundResult "0xB" 3 ["0xA"; "0xB"] 500.

(** The WinnerPicked log of round 5 has been applied once. *)
Definition afterWin : Store :=
  deliver (EvmWinnerPicked (ReadValue demoResult) "0xT" 5 1700000500 1 "0xW5" 55
             "ethereum" "0xC" 2) afterRound5.

Definition demoWinnerPicked : list SolanaEvent :=
  [SolWinnerPicked "SOL" "roundPda" 7 0 1 135 1700000900].

(** The aggregate row of "0xB" for round 6 in [afterRound6]. *)
Definition rowOfRound6 : UserRoundStats :=
  mkUserRoundStats "0xB" "0xT" 6 "0xC" 1 true 1 0 1700000006000.

(** ** Round totals *)

(** The prize and commission totals of the round row that [findOne] returns
    for a (token, round, contract, chain); 0 where there is no row or the
    column is NULL. *)
Definition prizeOf (s : Store) (token : string) (roundId : Z) (contractAddress : string)
    (chainId : Z) : Z :=
  match find (roundMatches token roundId contractAddress chainId) (rounds s) with
  | Some r => amountOrZero (r_prizeAmount r)
  | None => 0
  end.

Definition commissionOf (s : Store) (token : string) (roundId : Z)
    (contractAddress : string) (chainId : Z) : Z :=
  match find (roundMatches token roundId contractAddress chainId) (rounds s) with
  | Some r => amountOrZero (r_commissionAmount r)
  | None => 0
  end.

Definition hasRound (s : Store) (token : string) (roundId : Z) (contractAddress : string)
    (chainId : Z) : bool :=
  existsb (roundMatches token roundId contractAddress chainId) (rounds s).

(** The events of bob's purchase in round 7 ([followingTx]) and the store
    after alice's opening purchase ([openingTx]) has been applied. *)
Definition followingEvents : list SolanaEvent :=
  [SolTicketPurchased "SOL" 7 "bob" 1 50 45 5 1700000020].

Definition afterOpening : Store :=
  processSignature demoSolana "solana" true "sigA" emptyStore.

(** Bob's purchase as the handler receives it. *)
Definition followingPurchase : Delivery :=
  SolanaTicketPurchased "Prog" 101 "sigB" 20 "solana" 0 followingEvents.

(** The logs of a transaction with two purchases: bob's, then carol's. *)
Definition twoPurchases : list SolanaEvent :=
  [SolTicketPurchased "SOL" 7 "bob" 1 50 45 5 1700000020;
   SolTicketPurchased "SOL" 7 "carol" 4 200 180 20 1700000020].

Definition buyInstruction : Instruction := mkInstruction true (ReadValue buy_tickets_sol).

(** ** Round rows over time *)

(** What stays of a round row: its identity, its time window, and a claimed
    prize. *)
Definition roundKept (r r' : Round) : Prop :=
  r_contractAddress r' = r_contractAddress r /\ r_token r' = r_token r /\
  r_roundId r' = r_roundId r /\ r_chainId r' = r_chainId r /\
  r_startTime r' = r_startTime r /\ r_endTime r' = r_endTime r /\
  (r_prizeClaimed r = true -> r_prizeClaimed r' = true).

(** Every row of [l] is still there, at its place, in [l']. *)
Definition roundsKept (l l' : list Round) : Prop :=
  exists kept added, l' = kept ++ added /\ Forall2 roundKept l kept.

Definition keepsRounds {A} (c : Db A) : Prop :=
  forall s, roundsKept (rounds s) (rounds (fst (c s))).

(** The answer of [getRoundPlayers] on a store. *)
Definition roundPlayersOf (s : Store) (contractAddress tokenAddress : string) (roundId : Z)
    : list string :=
  match snd (getRoundPlayers contractAddress tokenAddress roundId s) with
  | inr players => players
  | inl _ => []
  end.

(** ** Reconnection of polled chains *)

(** A chain without socket: Solana, or an EVM chain whose URL is not a
    WebSocket URL. *)
Definition polled (name : string) (config : BlockchainConfig) : bool :=
  isSolana name || negb (isSocket (cfg_rpcUrl config)).

(** An attempt on which the provider is built and the listener set-up
    throws. *)
Definition listenFails (env : ConnectEnv) : bool :=
  negb (env_createThrows env) && env_listenThrows env.

(** An attempt on which nothing throws. *)
Definition attemptSucceeds (env : ConnectEnv) : bool :=
  negb (env_createThrows env) && negb (env_listenThrows env).

(** The node is back: nothing throws, no socket handler is reachable. *)
Definition nodeUp : ConnectEnv := mkConnectEnv false false false false.

(** A WebSocket chain after one failed attempt: its retry is pending. *)
Definition afterFailedAttempt : Runtime :=
  fst (reconnectBlockchain nodeDown "ethereum" (connected "ethereum" wsConfig)).

(** A Solana chain as [addBlockchain] registers it. *)
Definition solanaConfig : BlockchainConfig :=
  mkBlockchainConfig "https://api.devnet.solana.com" 103 [] (Some "Prog").

(** ** Listener set-up and notifications *)

(** The stored cursor of a contract stands at [currentBlock] or beyond. *)
Definition caughtUp (s : Store) (name contractAddress : string) (currentBlock : Z) : Prop :=
  exists k, getLastSyncedBlock s name contractAddress = Some k /\ currentBlock <= k.

(** The notifications of a user that tell them they lost the round. *)
Definition lostNotifications (user : string) (l : list Notification) : list Notification :=
  List.filter (fun n => negb (n_isWinner n) && String.eqb (n_user n) user) l.

(** The deployment-block search on a node that has code for every contract
    from block 50 on and stands at block 107. *)
Definition deployedAt50 (contractAddress : string) : option Z :=
  Some (getDeploymentBlock true (fun b => 50 <=? b) 107).

(** ** Replaying purchase logs *)

(** The logs of a range are TicketPurchased logs (or undecodable). *)
Definition purchasesOnly (allEvents : list RawLog) : bool :=
  forallb (fun l => match l with
                    | Decoded e => match args e with
                                   | TicketPurchased _ _ _ _ _ _ => true
                                   | _ => false
                                   end
                    | Undecoded => true
                    end) allEvents.

(** The purchase of a log is in the store: its row and its buyer. *)
Definition applied (s : Store) (e : EventLog) : bool :=
  match args e with
  | TicketPurchased _ _ buyer _ _ _ =>
      hasUser s buyer && hasTicketPurchase s (transactionHash e) (index e)
  | _ => true
  end.

(** A node whose logs in any range are two purchases of round 5. *)
Definition purchaseChain : EvmChain :=
  mkEvmChain
    (fun _ _ _ =>
       Some [Decoded (mkEventLog (TicketPurchased "0xT" 5 "0xA" 2 20 1700000051) "0xP1" 51 0);
             Undecoded;
             Decoded (mkEventLog (TicketPurchased "0xT" 5 "0xB" 1 10 1700000052) "0xP2" 52 3)])
    (fun _ _ _ => ReadNull).

(** ** The aggregate row of a delivery *)

(** The (user, token, round, contract) whose aggregate row a delivery
    writes: that of the buyer for a purchase, that of the winner for a
    WinnerPicked whose winner could be read; no other delivery writes one. *)
Definition aggregateKeyOf (d : Delivery) : option (string * string * Z * string) :=
  match d with
  | EvmTicketPurchased token roundId buyer _ _ _ _ _ _ _ contract _ =>
      Some (buyer, token, roundId, contract)
  | EvmWinnerPicked (ReadValue rr) token roundId _ _ _ _ _ contract _ =>
      Some (winnerAddress rr, token, roundId, contract)
  | SolanaTicketPurchased contract _ _ _ _ _ events =>
      match find isTicketPurchased events with
      | Some (SolTicketPurchased token round_id buyer _ _ _ _ _) =>
          Some (buyer, token, round_id, contract)
      | _ => None
      end
  | SolanaWinnerPicked contract winnerPubkey _ _ _ _ _ events =>
      match find isWinnerPicked events with
      | Some (SolWinnerPicked token round round_id winner_purchase_index _ _ _) =>
          match winnerPubkey round winner_purchase_index with
          | Some winner => Some (winner, token, round_id, contract)
          | None => None
          end
      | _ => None
      end
  | _ => None
  end.

(** The WinnerPicked log of round 5, arriving after the purchase of
    round 6. *)
Definition lateWin : Delivery :=
  EvmWinnerPicked (ReadValue demoResult) "0xT" 5 1700000500 1 "0xW5" 55 "ethereum" "0xC" 2.

(** ** The attempt counter inside an attempt *)

(** Once the provider is built the counter is set back to 0 before the
    listeners are set up: by [addBlockchain] itself on a polled chain, by
    the 'open' handler of the socket on a WebSocket chain, if it runs. *)
Definition resetInside (env : ConnectEnv) (name : string) (config : BlockchainConfig) : bool :=
  negb (env_createThrows env) &&
  (polled name config || (env_socketEvents env && env_socketOpens env)).

(** * Properties *)

(** ** Basic facts about the database computations *)

Lemma grows_refl s : grows s s.
Proof. split; auto. Qed.

Lemma grows_trans s1 s2 s3 : grows s1 s2 -> grows s2 s3 -> grows s1 s3.
Proof. intros [H1 H2] [H3 H4]. split; auto. Qed.

Lemma monotone_ret {A} (a : A) : monotone (ret a).
Proof. intros s. apply grows_refl. Qed.

Lemma monotone_throw {A} f : monotone (@throw A f).
Proof. intros s. apply grows_refl. Qed.

Lemma monotone_bind {A B} (c : Db A) (k : A -> Db B) :
  monotone c -> (forall a, monotone (k a)) -> monotone (bind c k).
Proof.
  intros Hc Hk s. unfold bind. specialize (Hc s).
  destruct (c s) as [s' [f | a]]; simpl in *; [exact Hc |].
  eapply grows_trans; [exact Hc | apply Hk].
Qed.

Lemma keeps_ret {A X} (f : Store -> X) (a : A) : keeps f (ret a).
Proof. intros s. reflexivity. Qed.

Lemma keeps_throw {A X} (f : Store -> X) e : keeps f (@throw A e).
Proof. intros s. reflexivity. Qed.

Lemma keeps_bind {A B X} (f : Store -> X) (c : Db A) (k : A -> Db B) :
  keeps f c -> (forall a, keeps f (k a)) -> keeps f (bind c k).
Proof.
  intros Hc Hk s. unfold bind. specialize (Hc s).
  destruct (c s) as [s' [e | a]]; simpl in *; [exact Hc |].
  rewrite Hk. exact Hc.
Qed.

Lemma existsb_app_true {A} (p : A -> bool) l1 l2 :
  existsb p l1 = true -> existsb p (l1 ++ l2) = true.
Proof. intros H. rewrite existsb_app, H. reflexivity. Qed.

Lemma getOrCreateUser_spec address s :
  exists s', getOrCreateUser address s = (s', inr address) /\
             hasUser s' address = true /\
             (hasUser s address = true -> s' = s) /\
             grows s s' /\
             ticket_purchases s' = ticket_purchases s /\
             user_round_stats s' = user_round_stats s /\
             rounds s' = rounds s /\
             first_ticket_bonuses s' = first_ticket_bonuses s /\
             blockchain_sync s' = blockchain_sync s /\
             win_events s' = win_events s.
Proof.
  unfold getOrCreateUser, hasUser.
  destruct (existsb (String.eqb address) (users s)) eqn:E.
  - rewrite E. exists s. repeat split; auto.
  - cbn [users set_users]. rewrite existsb_app. cbn [existsb].
    rewrite String.eqb_refl, orb_true_r. cbn.
    eexists. split; [reflexivity |].
    repeat split; try reflexivity; try discriminate.
    + cbn. rewrite existsb_app. cbn. rewrite String.eqb_refl. apply orb_true_r.
    + intros a Ha. cbn. apply existsb_app_true. exact Ha.
    + intros tx idx H. exact H.
Qed.

Lemma monotone_getOrCreateUser a : monotone (getOrCreateUser a).
Proof.
  intros s. destruct (getOrCreateUser_spec a s) as (s' & -> & _ & _ & H & _).
  exact H.
Qed.

Lemma monotone_saveTicketPurchase r : monotone (saveTicketPurchase r).
Proof.
  intros s. unfold saveTicketPurchase.
  destruct (hasTicketPurchase s _ _); [apply grows_refl |].
  split; cbn; auto. intros tx idx H. unfold hasTicketPurchase in *. cbn.
  apply existsb_app_true. exact H.
Qed.

Lemma grows_same s s' :
  users s' = users s -> ticket_purchases s' = ticket_purchases s -> grows s s'.
Proof.
  intros Hu Ht. split; unfold hasUser, hasTicketPurchase; rewrite ?Hu, ?Ht; auto.
Qed.

Lemma monotone_of_keeps {A} (c : Db A) :
  keeps users c -> keeps ticket_purchases c -> monotone c.
Proof. intros Hu Ht s. apply grows_same; [apply Hu | apply Ht]. Qed.

(** Which tables each primitive touches. *)
Ltac keeps_prim :=
  intros s;
  repeat match goal with
         | |- context [if ?b then _ else _] => destruct b
         | |- context [match ?x with _ => _ end] => destruct x
         end; reflexivity.

Lemma keeps_users_updateLastSyncedBlock n c b : keeps users (updateLastSyncedBlock n c b).
Proof. unfold updateLastSyncedBlock. keeps_prim. Qed.
Lemma keeps_tp_updateLastSyncedBlock n c b :
  keeps ticket_purchases (updateLastSyncedBlock n c b).
Proof. unfold updateLastSyncedBlock. keeps_prim. Qed.
Lemma keeps_urs_updateLastSyncedBlock n c b :
  keeps user_round_stats (updateLastSyncedBlock n c b).
Proof. unfold updateLastSyncedBlock. keeps_prim. Qed.
Lemma keeps_rounds_updateLastSyncedBlock n c b :
  keeps rounds (updateLastSyncedBlock n c b).
Proof. unfold updateLastSyncedBlock. keeps_prim. Qed.

Lemma keeps_users_insertRound r : keeps users (insertRound r).
Proof. unfold insertRound. keeps_prim. Qed.
Lemma keeps_tp_insertRound r : keeps ticket_purchases (insertRound r).
Proof. unfold insertRound. keeps_prim. Qed.
Lemma keeps_urs_insertRound r : keeps user_round_stats (insertRound r).
Proof. unfold insertRound. keeps_prim. Qed.

Lemma keeps_users_saveFirstTicketBonus r : keeps users (saveFirstTicketBonus r).
Proof. unfold saveFirstTicketBonus. keeps_prim. Qed.
Lemma keeps_tp_saveFirstTicketBonus r : keeps ticket_purchases (saveFirstTicketBonus r).
Proof. unfold saveFirstTicketBonus. keeps_prim. Qed.
Lemma keeps_urs_saveFirstTicketBonus r : keeps user_round_stats (saveFirstTicketBonus r).
Proof. unfold saveFirstTicketBonus. keeps_prim. Qed.
Lemma keeps_rounds_saveFirstTicketBonus r : keeps rounds (saveFirstTicketBonus r).
Proof. unfold saveFirstTicketBonus. keeps_prim. Qed.

Lemma keeps_users_findRound t r c ch : keeps users (findRound t r c ch).
Proof. unfold findRound. keeps_prim. Qed.
Lemma keeps_tp_findRound t r c ch : keeps ticket_purchases (findRound t r c ch).
Proof. unfold findRound. keeps_prim. Qed.
Lemma keeps_urs_findRound t r c ch : keeps user_round_stats (findRound t r c ch).
Proof. unfold findRound. keeps_prim. Qed.

Lemma keeps_users_updateRound t r c ch f : keeps users (updateRound t r c ch f).
Proof. unfold updateRound. keeps_prim. Qed.
Lemma keeps_tp_updateRound t r c ch f : keeps ticket_purchases (updateRound t r c ch f).
Proof. unfold updateRound. keeps_prim. Qed.
Lemma keeps_urs_updateRound t r c ch f : keeps user_round_stats (updateRound t r c ch f).
Proof. unfold updateRound. keeps_prim. Qed.

Lemma keeps_users_saveWinEvent r : keeps users (saveWinEvent r).
Proof. unfold saveWinEvent. keeps_prim. Qed.
Lemma keeps_tp_saveWinEvent r : keeps ticket_purchases (saveWinEvent r).
Proof. unfold saveWinEvent. keeps_prim. Qed.
Lemma keeps_urs_saveWinEvent r : keeps user_round_stats (saveWinEvent r).
Proof. unfold saveWinEvent. keeps_prim. Qed.

Lemma keeps_users_insertUserRoundStats r : keeps users (insertUserRoundStats r).
Proof. unfold insertUserRoundStats. keeps_prim. Qed.
Lemma keeps_tp_insertUserRoundStats r : keeps ticket_purchases (insertUserRoundStats r).
Proof. unfold insertUserRoundStats. keeps_prim. Qed.
Lemma keeps_users_updateUserRoundStats r : keeps users (updateUserRoundStats r).
Proof. unfold updateUserRoundStats. keeps_prim. Qed.
Lemma keeps_tp_updateUserRoundStats r : keeps ticket_purchases (updateUserRoundStats r).
Proof. unfold updateUserRoundStats. keeps_prim. Qed.

Lemma keeps_users_updateStatsOnPurchase u t r c n ts :
  keeps users (updateStatsOnPurchase u t r c n ts).
Proof.
  unfold updateStatsOnPurchase, findUserRoundStats, findPreviousRound, bind.
  intros s. cbn.
  destruct (find _ (user_round_stats s));
    [apply keeps_users_updateUserRoundStats | apply keeps_users_insertUserRoundStats].
Qed.

Lemma keeps_tp_updateStatsOnPurchase u t r c n ts :
  keeps ticket_purchases (updateStatsOnPurchase u t r c n ts).
Proof.
  unfold updateStatsOnPurchase, findUserRoundStats, findPreviousRound, bind.
  intros s. cbn.
  destruct (find _ (user_round_stats s));
    [apply keeps_tp_updateUserRoundStats | apply keeps_tp_insertUserRoundStats].
Qed.

Lemma keeps_tp_getOrCreateUser a : keeps ticket_purchases (getOrCreateUser a).
Proof.
  intros s. destruct (getOrCreateUser_spec a s) as (s' & -> & _ & _ & _ & H & _).
  exact H.
Qed.

Lemma keeps_urs_getOrCreateUser a : keeps user_round_stats (getOrCreateUser a).
Proof.
  intros s. destruct (getOrCreateUser_spec a s) as (s' & -> & _ & _ & _ & _ & H & _).
  exact H.
Qed.

(** ** Facts about [find], [update_first] and appended rows *)

Lemma find_update_first {A} (p : A -> bool) (f : A -> A) l x :
  find p l = Some x -> p (f x) = true -> find p (update_first p f l) = Some (f x).
Proof.
  induction l as [| y t IH]; cbn; [discriminate |].
  destruct (p y) eqn:E; intros H Hf.
  - injection H as ->. cbn. rewrite Hf. reflexivity.
  - cbn. rewrite E. auto.
Qed.

Lemma find_app_new {A} (p : A -> bool) l r :
  find p l = None -> p r = true -> find p (l ++ [r]) = Some r.
Proof.
  induction l as [| y t IH]; cbn; intros H Hr.
  - rewrite Hr. reflexivity.
  - destruct (p y); [discriminate | auto].
Qed.

Lemma find_none_existsb {A} (p : A -> bool) l :
  find p l = None -> existsb p l = false.
Proof.
  induction l as [| y t IH]; cbn; [reflexivity |].
  destruct (p y); [discriminate | auto].
Qed.

Lemma find_some_holds {A} (p : A -> bool) l x : find p l = Some x -> p x = true /\ In x l.
Proof.
  induction l as [| y t IH]; cbn; [discriminate |].
  destruct (p y) eqn:E; intros H.
  - injection H as ->. auto.
  - destruct (IH H). auto.
Qed.

Lemma filter_none {A} (p : A -> bool) l : existsb p l = false -> List.filter p l = [].
Proof.
  induction l as [| y t IH]; cbn; [reflexivity |].
  destruct (p y); cbn; [discriminate | auto].
Qed.

Lemma statsKey_fields u t r c x :
  statsKey u t r c x = true ->
  urs_user x = u /\ urs_token x = t /\ urs_roundId x = r /\ urs_contractAddress x = c.
Proof.
  unfold statsKey. rewrite !andb_true_iff.
  intros [[[H1 H2] H3] H4].
  apply String.eqb_eq in H1, H2, H4. apply Z.eqb_eq in H3. auto.
Qed.

Lemma statsKey_refl u t r c n b cr w ts :
  statsKey u t r c (mkUserRoundStats u t r c n b cr w ts) = true.
Proof.
  unfold statsKey. cbn. rewrite !String.eqb_refl, Z.eqb_refl. reflexivity.
Qed.

(** ** What the purchase block leaves in the aggregate row *)

Lemma updateStatsOnPurchase_row u t r c n ts s :
  exists s' row,
    updateStatsOnPurchase u t r c n ts s = (s', inr tt) /\
    statsRow s' u t r c = Some row /\
    urs_ticketCount row = ticketCountOf s u t r c + n /\
    match previousRoundOf s u t r c with
    | Some p =>
        if Z.eqb (urs_roundId p) (r - 1)
        then urs_isConsecutive row = true /\
             urs_consecutiveRounds row =
               (if urs_isConsecutive p then urs_consecutiveRounds p + 1 else 1)
        else urs_consecutiveRounds row = 0 /\
             urs_isConsecutive row =
               match statsRow s u t r c with
               | Some old => urs_isConsecutive old
               | None => false
               end
    | None =>
        urs_consecutiveRounds row = 0 /\
        urs_isConsecutive row =
          match statsRow s u t r c with
          | Some old => urs_isConsecutive old
          | None => false
          end
    end.
Proof.
  unfold updateStatsOnPurchase, findUserRoundStats, findPreviousRound, bind,
    ticketCountOf, statsRow, previousRoundOf.
  cbn.
  set (prev := maxByRoundId None _).
  destruct (find (statsKey u t r c) (user_round_stats s)) as [old |] eqn:Hold.
  - destruct (find_some_holds _ _ _ Hold) as [Hkey _].
    destruct (statsKey_fields _ _ _ _ _ Hkey) as (-> & -> & -> & ->).
    unfold updateUserRoundStats.
    destruct prev as [p |]; [destruct (Z.eqb (urs_roundId p) _) |];
      cbn; eexists _, _; (split; [reflexivity |]); cbn;
      (split; [apply find_update_first; [exact Hold | apply statsKey_refl] |]);
      cbn; auto.
  - pose proof (find_none_existsb _ _ Hold) as Hex.
    unfold insertUserRoundStats.
    destruct prev as [p |]; [destruct (Z.eqb (urs_roundId p) _) |];
      cbn; rewrite Hex; eexists _, _; (split; [reflexivity |]); cbn;
      (split; [apply find_app_new; [exact Hold | apply statsKey_refl] |]);
      cbn; auto.
Qed.

(** ** Re-delivery of a keyed ticket purchase *)

Section KeyedInsert.
Variables (buyer tx : string) (idx : Z).
Variable mk : string -> TicketPurchase.
Variable rest : string -> Db unit.
Hypothesis mk_key : forall u, tp_transactionHash (mk u) = tx /\ tp_logIndex (mk u) = idx.
Hypothesis rest_monotone : forall u, monotone (rest u).

Let handler : Db unit :=
  user <-- getOrCreateUser buyer ;; saveTicketPurchase (mk user) ;;; rest user.

Lemma keyed_insert_leaves_key s :
  hasUser (fst (handler s)) buyer = true /\
  hasTicketPurchase (fst (handler s)) tx idx = true.
Proof.
  unfold handler, bind.
  destruct (getOrCreateUser_spec buyer s) as (s' & -> & Hu & _).
  unfold saveTicketPurchase. destruct (mk_key buyer) as [-> ->].
  destruct (hasTicketPurchase s' tx idx) eqn:E; cbn; [auto |].
  set (s2 := set_ticket_purchases _ _).
  assert (H2 : hasUser s2 buyer = true /\ hasTicketPurchase s2 tx idx = true).
  { split; [exact Hu |]. unfold hasTicketPurchase, s2. cbn.
    rewrite existsb_app. cbn. destruct (mk_key buyer) as [-> ->].
    unfold sameTxLog. rewrite String.eqb_refl, Z.eqb_refl. cbn.
    apply orb_true_r. }
  destruct H2 as [Ha Hb]. destruct (rest_monotone buyer s2) as [G1 G2].
  split; [apply G1, Ha | apply G2, Hb].
Qed.

Lemma keyed_insert_duplicate s :
  hasUser s buyer = true -> hasTicketPurchase s tx idx = true ->
  handler s = (s, inl QueryFailed23505).
Proof.
  intros Hu Ht. unfold handler, bind.
  destruct (getOrCreateUser_spec buyer s) as (s' & -> & _ & Hsame & _).
  rewrite (Hsame Hu). unfold saveTicketPurchase.
  destruct (mk_key buyer) as [-> ->]. rewrite Ht. reflexivity.
Qed.

Lemma keyed_insert_twice s :
  catchDuplicate handler (fst (catchDuplicate handler s)) =
  (fst (catchDuplicate handler s), DuplicateIgnored).
Proof.
  assert (Hfst : fst (catchDuplicate handler s) = fst (handler s)).
  { unfold catchDuplicate. destruct (handler s) as [s' [[|] | []]]; reflexivity. }
  rewrite Hfst. destruct (keyed_insert_leaves_key s) as [Hu Ht].
  unfold catchDuplicate at 1. rewrite (keyed_insert_duplicate _ Hu Ht). reflexivity.
Qed.
End KeyedInsert.

Lemma monotone_purchase_tail u t r c n ts name b :
  monotone (updateStatsOnPurchase u t r c n ts ;;; updateLastSyncedBlock name c b).
Proof.
  apply monotone_of_keeps; apply keeps_bind; intros;
    auto using keeps_users_updateStatsOnPurchase, keeps_tp_updateStatsOnPurchase,
      keeps_users_updateLastSyncedBlock, keeps_tp_updateLastSyncedBlock.
Qed.

Lemma ticketPurchaseRows_fresh s r :
  hasTicketPurchase s (tp_transactionHash r) (tp_logIndex r) = false ->
  List.filter (fun x => sameTxLog (tp_transactionHash r) (tp_logIndex r)
                          (tp_transactionHash x) (tp_logIndex x))
              (ticket_purchases s ++ [r]) = [r].
Proof.
  intros H. rewrite List.filter_app, (filter_none _ _ H). cbn.
  unfold sameTxLog. rewrite String.eqb_refl, Z.eqb_refl. reflexivity.
Qed.

Lemma updateLastSyncedBlock_returns n c b s :
  exists s', updateLastSyncedBlock n c b s = (s', inr tt).
Proof.
  unfold updateLastSyncedBlock.
  repeat match goal with
         | |- context [if ?b then _ else _] => destruct b
         | |- context [match ?x with _ => _ end] => destruct x
         end; eexists; reflexivity.
Qed.

Lemma evm_purchase_first_delivery
    token roundId buyer count totalAmount timestamp chainId tx blockNumber name contract idx s :
  hasTicketPurchase s tx idx = false ->
  let once := fst (processTicketPurchasedEvent token roundId buyer count totalAmount
                     timestamp chainId tx blockNumber name contract idx s) in
  length (ticketPurchaseRows once tx idx) = 1%nat /\
  ticketCountOf once buyer token roundId contract =
    ticketCountOf s buyer token roundId contract + count.
Proof.
  intros Hfresh. cbv zeta.
  unfold processTicketPurchasedEvent, catchDuplicate, bind.
  destruct (getOrCreateUser_spec buyer s)
    as (s' & -> & _ & _ & _ & Htp & Hurs & _).
  unfold saveTicketPurchase. cbn [tp_transactionHash tp_logIndex].
  assert (Hfresh' : hasTicketPurchase s' tx idx = false).
  { unfold hasTicketPurchase in *. rewrite Htp. exact Hfresh. }
  rewrite Hfresh'.
  set (row := mkTicketPurchase _ _ _ _ _ _ _ _ _ _).
  set (s2 := set_ticket_purchases s' _).
  pose proof (keeps_tp_updateStatsOnPurchase buyer token roundId contract count
                (timestamp * 1000) s2) as K3.
  destruct (updateStatsOnPurchase_row buyer token roundId contract count
              (timestamp * 1000) s2) as (s3 & r & E3 & Hrow & Hcnt & _).
  rewrite E3 in K3 |- *. cbn [fst] in K3.
  pose proof (keeps_tp_updateLastSyncedBlock name contract blockNumber s3) as K4.
  pose proof (keeps_urs_updateLastSyncedBlock name contract blockNumber s3) as K5.
  destruct (updateLastSyncedBlock_returns name contract blockNumber s3) as (s4 & E4).
  rewrite E4 in K4, K5 |- *. cbn [fst] in *.
  split.
  - unfold ticketPurchaseRows. rewrite K4, K3. unfold s2.
    cbn [ticket_purchases set_ticket_purchases].
    rewrite Htp.
    change tx with (tp_transactionHash row). change idx with (tp_logIndex row).
    rewrite ticketPurchaseRows_fresh; [reflexivity | exact Hfresh].
  - unfold ticketCountOf, statsRow in *. rewrite K5, Hrow, Hcnt.
    unfold s2. cbn [user_round_stats set_ticket_purchases]. rewrite Hurs. reflexivity.
Qed.

Create HintDb keepsdb.
#[local] Hint Resolve
  keeps_users_updateLastSyncedBlock keeps_tp_updateLastSyncedBlock
  keeps_urs_updateLastSyncedBlock keeps_rounds_updateLastSyncedBlock
  keeps_users_insertRound keeps_tp_insertRound keeps_urs_insertRound
  keeps_users_saveFirstTicketBonus keeps_tp_saveFirstTicketBonus
  keeps_urs_saveFirstTicketBonus keeps_rounds_saveFirstTicketBonus
  keeps_users_findRound keeps_tp_findRound keeps_urs_findRound
  keeps_users_updateRound keeps_tp_updateRound keeps_urs_updateRound
  keeps_users_saveWinEvent keeps_tp_saveWinEvent keeps_urs_saveWinEvent
  keeps_users_insertUserRoundStats keeps_tp_insertUserRoundStats
  keeps_users_updateUserRoundStats keeps_tp_updateUserRoundStats
  keeps_users_updateStatsOnPurchase keeps_tp_updateStatsOnPurchase
  keeps_tp_getOrCreateUser keeps_urs_getOrCreateUser : keepsdb.

(** Splits a composed computation into its primitives. *)
Ltac solve_keeps :=
  repeat first
    [ apply keeps_ret
    | apply keeps_throw
    | solve [auto with keepsdb]
    | apply keeps_bind; [| intros]
    | match goal with
      | |- keeps _ (match ?x with _ => _ end) => destruct x
      end ].

Ltac solve_monotone :=
  repeat first
    [ apply monotone_ret
    | apply monotone_throw
    | apply monotone_getOrCreateUser
    | apply monotone_saveTicketPurchase
    | solve [apply monotone_of_keeps; solve_keeps]
    | apply monotone_bind; [| intros]
    | match goal with
      | |- monotone (match ?x with _ => _ end) => destruct x
      end ].

(** The part of [processSolanaTicketPurchasedEvent] that follows the
    aggregate update: bonus and round rows, amounts, cursor. *)
Lemma solana_purchase_unfold contract chainId signature block name idx events s
    token round_id buyer count total_amount prize_amount commission_amount timestamp :
  find isTicketPurchased events =
    Some (SolTicketPurchased token round_id buyer count total_amount prize_amount
            commission_amount timestamp) ->
  exists tail : Db unit,
    keeps ticket_purchases tail /\ keeps user_round_stats tail /\ monotone tail /\
    processSolanaTicketPurchasedEvent contract chainId signature block name idx events s =
    catchDuplicate (
      user <-- getOrCreateUser buyer ;;
      saveTicketPurchase
        (mkTicketPurchase user token round_id chainId contract count total_amount
           (timestamp * 1000) signature idx) ;;;
      updateStatsOnPurchase user token round_id contract count (timestamp * 1000) ;;;
      tail) s.
Proof.
  intros Hfind. unfold processSolanaTicketPurchasedEvent. rewrite Hfind.
  eexists. split; [| split; [| split; [| reflexivity]]].
  - solve_keeps.
  - solve_keeps.
  - solve_monotone.
Qed.

Lemma solana_purchase_twice contract chainId signature block name idx events s :
  let apply := processSolanaTicketPurchasedEvent contract chainId signature block name
                 idx events in
  fst (apply (fst (apply s))) = fst (apply s) /\
  (is_Some (find isTicketPurchased events) -> snd (apply (fst (apply s))) = DuplicateIgnored).
Proof.
  cbv zeta.
  destruct (find isTicketPurchased events) as [e |] eqn:Hfind.
  2:{ split; [| intros [? ?]; discriminate].
      unfold processSolanaTicketPurchasedEvent. rewrite Hfind. reflexivity. }
  destruct (find_some_holds _ _ _ Hfind) as [He _].
  destruct e; try discriminate He.
  assert (Hgen : forall st, exists tail : Db unit,
             monotone tail /\
             processSolanaTicketPurchasedEvent contract chainId signature block name idx
               events st =
             catchDuplicate (
               user <-- getOrCreateUser buyer ;;
               saveTicketPurchase
                 (mkTicketPurchase user token round_id chainId contract count total_amount
                    (timestamp * 1000) signature idx) ;;;
               updateStatsOnPurchase user token round_id contract count (timestamp * 1000) ;;;
               tail) st).
  { intros st.
    destruct (solana_purchase_unfold contract chainId signature block name idx events st
                _ _ _ _ _ _ _ _ Hfind) as (tail & _ & _ & Hm & E).
    exists tail. auto. }
  destruct (Hgen s) as (tail & Hm & E1). rewrite E1.
  destruct (Hgen (fst (catchDuplicate
              (user <-- getOrCreateUser buyer ;;
               saveTicketPurchase
                 (mkTicketPurchase user token round_id chainId contract count total_amount
                    (timestamp * 1000) signature idx) ;;;
               updateStatsOnPurchase user token round_id contract count (timestamp * 1000) ;;;
               tail) s))) as (tail' & Hm' & E2).
  rewrite E2.
  (* both deliveries stop at the keyed insert, whatever follows it *)
  set (mk := fun user => mkTicketPurchase user token round_id chainId contract count
                           total_amount (timestamp * 1000) signature idx).
  assert (Hkey : forall u, tp_transactionHash (mk u) = signature /\ tp_logIndex (mk u) = idx)
    by (intros; split; reflexivity).
  assert (Hrest : forall u, monotone
            (updateStatsOnPurchase u token round_id contract count (timestamp * 1000) ;;; tail)).
  { intros u. apply monotone_bind; [| intros; exact Hm].
    apply monotone_of_keeps; auto with keepsdb. }
  destruct (keyed_insert_leaves_key buyer signature idx mk _ Hkey Hrest s) as [Hu Ht].
  assert (Hfst : forall h, fst (catchDuplicate h s) = fst (h s)).
  { intros h. unfold catchDuplicate. destruct (h s) as [s' [[|] | []]]; reflexivity. }
  rewrite Hfst. unfold catchDuplicate.
  assert (Hrest' : forall u, monotone
            (updateStatsOnPurchase u token round_id contract count (timestamp * 1000) ;;; tail')).
  { intros u. apply monotone_bind; [| intros; exact Hm'].
    apply monotone_of_keeps; auto with keepsdb. }
  rewrite (keyed_insert_duplicate buyer signature idx mk _ Hkey _ Hu Ht).
  split; reflexivity.
Qed.

Lemma solana_purchase_first_delivery contract chainId signature block name idx events s
    token round_id buyer count total_amount prize_amount commission_amount timestamp :
  find isTicketPurchased events =
    Some (SolTicketPurchased token round_id buyer count total_amount prize_amount
            commission_amount timestamp) ->
  hasTicketPurchase s signature idx = false ->
  let once := fst (processSolanaTicketPurchasedEvent contract chainId signature block name
                     idx events s) in
  length (ticketPurchaseRows once signature idx) = 1%nat /\
  ticketCountOf once buyer token round_id contract =
    ticketCountOf s buyer token round_id contract + count.
Proof.
  intros Hfind Hfresh. cbv zeta.
  destruct (solana_purchase_unfold contract chainId signature block name idx events s
              _ _ _ _ _ _ _ _ Hfind) as (tail & Ktp & Kurs & _ & ->).
  assert (Hfst : forall h, fst (catchDuplicate h s) = fst (h s)).
  { intros h. unfold catchDuplicate. destruct (h s) as [s' [[|] | []]]; reflexivity. }
  rewrite Hfst. unfold bind.
  destruct (getOrCreateUser_spec buyer s)
    as (s' & -> & _ & _ & _ & Htp & Hurs & _).
  unfold saveTicketPurchase. cbn [tp_transactionHash tp_logIndex].
  assert (Hfresh' : hasTicketPurchase s' signature idx = false).
  { unfold hasTicketPurchase in *. rewrite Htp. exact Hfresh. }
  rewrite Hfresh'.
  set (row := mkTicketPurchase _ _ _ _ _ _ _ _ _ _).
  set (s2 := set_ticket_purchases s' _).
  pose proof (keeps_tp_updateStatsOnPurchase buyer token round_id contract count
                (timestamp * 1000) s2) as K3.
  destruct (updateStatsOnPurchase_row buyer token round_id contract count
              (timestamp * 1000) s2) as (s3 & r & E3 & Hrow & Hcnt & _).
  rewrite E3 in K3 |- *. cbn [fst] in K3.
  specialize (Ktp s3). specialize (Kurs s3).
  split.
  - unfold ticketPurchaseRows. rewrite Ktp, K3. unfold s2.
    cbn [ticket_purchases set_ticket_purchases]. rewrite Htp.
    change signature with (tp_transactionHash row). change idx with (tp_logIndex row).
    rewrite ticketPurchaseRows_fresh; [reflexivity | exact Hfresh].
  - unfold ticketCountOf, statsRow in *. rewrite Kurs, Hrow, Hcnt.
    unfold s2. cbn [user_round_stats set_ticket_purchases]. rewrite Hurs. reflexivity.
Qed.

(** C1. Delivering the same TicketPurchased event a second time (same
    transaction hash and log / instruction index) changes nothing: the
    keyed insert raises the unique violation, the handler catches it and the
    aggregate update is not reached.  When the first delivery was new, it
    left exactly one event row and raised the ticket count by the event's
    count, and after the second delivery this is still so.  Both the
    log-based and the instruction-based handler behave this way.  The event
    is one whose values the columns hold ([deliveryFits]), and so are the
    counters of the aggregate rows after its first delivery
    ([aggregatesFit]); an event outside these ranges is refused by the
    database and rethrown. *)
Theorem ticket_purchase_redelivery_is_noop :
  (forall token roundId buyer count totalAmount timestamp chainId tx blockNumber
          name contract idx s,
     let apply := processTicketPurchasedEvent token roundId buyer count totalAmount
                    timestamp chainId tx blockNumber name contract idx in
     let once := fst (apply s) in
     let twice := fst (apply once) in
     deliveryFits (EvmTicketPurchased token roundId buyer count totalAmount timestamp
                     chainId tx blockNumber name contract idx) = true ->
     aggregatesFit once = true ->
     apply once = (once, DuplicateIgnored) /\
     (hasTicketPurchase s tx idx = false ->
      length (ticketPurchaseRows once tx idx) = 1%nat /\
      length (ticketPurchaseRows twice tx idx) = 1%nat /\
      ticketCountOf twice buyer token roundId contract =
        ticketCountOf s buyer token roundId contract + count)) /\
  (forall contract chainId signature block name idx events s
          token round_id buyer count total_amount prize_amount commission_amount timestamp,
     let apply := processSolanaTicketPurchasedEvent contract chainId signature block name
                    idx events in
     let once := fst (apply s) in
     let twice := fst (apply once) in
     find isTicketPurchased events =
       Some (SolTicketPurchased token round_id buyer count total_amount prize_amount
               commission_amount timestamp) ->
     deliveryFits (SolanaTicketPurchased contract chainId signature block name idx
                     events) = true ->
     aggregatesFit once = true ->
     apply once = (once, DuplicateIgnored) /\
     (hasTicketPurchase s signature idx = false ->
      length (ticketPurchaseRows once signature idx) = 1%nat /\
      length (ticketPurchaseRows twice signature idx) = 1%nat /\
      ticketCountOf twice buyer token round_id contract =
        ticketCountOf s buyer token round_id contract + count)).
Proof.
  split.
  - intros token roundId buyer count totalAmount timestamp chainId tx blockNumber
      name contract idx s apply once twice _ _. subst apply once twice.
    assert (E : processTicketPurchasedEvent token roundId buyer count totalAmount timestamp
                  chainId tx blockNumber name contract idx
                  (fst (processTicketPurchasedEvent token roundId buyer count totalAmount
                          timestamp chainId tx blockNumber name contract idx s)) =
                (fst (processTicketPurchasedEvent token roundId buyer count totalAmount
                        timestamp chainId tx blockNumber name contract idx s),
                 DuplicateIgnored)).
    { unfold processTicketPurchasedEvent.
      apply (keyed_insert_twice buyer tx idx
               (fun user => mkTicketPurchase user token roundId chainId contract count
                              totalAmount (timestamp * 1000) tx idx)).
      - intros; split; reflexivity.
      - intros u. apply monotone_purchase_tail. }
    split; [exact E |].
    intros Hfresh. rewrite E. cbn [fst].
    destruct (evm_purchase_first_delivery token roundId buyer count totalAmount timestamp
                chainId tx blockNumber name contract idx s Hfresh) as [H1 H2].
    auto.
  - intros contract chainId signature block name idx events s token round_id buyer
      count total_amount prize_amount commission_amount timestamp apply once twice H _ _.
    subst apply once twice.
    destruct (solana_purchase_twice contract chainId signature block name idx events s)
      as [H1 H2].
    assert (E : processSolanaTicketPurchasedEvent contract chainId signature block name idx
                  events
                  (fst (processSolanaTicketPurchasedEvent contract chainId signature block
                          name idx events s)) =
                (fst (processSolanaTicketPurchasedEvent contract chainId signature block
                        name idx events s), DuplicateIgnored)).
    { specialize (H2 ltac:(rewrite H; eexists; reflexivity)).
      destruct (processSolanaTicketPurchasedEvent contract chainId signature block name idx
                  events
                  (fst (processSolanaTicketPurchasedEvent contract chainId signature block
                          name idx events s))) as [s2 o2].
      cbn [fst snd] in H1, H2. subst. reflexivity. }
    split; [exact E |].
    intros Hfresh. rewrite E. cbn [fst].
    destruct (solana_purchase_first_delivery contract chainId signature block name idx
                events s _ _ _ _ _ _ _ _ H Hfresh) as [H3 H4].
    auto.
Qed.

(** ** The aggregate table of a reachable store *)

Lemma statsKey_iff u t r c x : statsKey u t r c x = true <-> keyOf x = (u, t, r, c).
Proof.
  unfold keyOf. split.
  - intros H. destruct (statsKey_fields _ _ _ _ _ H) as (-> & -> & -> & ->). reflexivity.
  - intros H. injection H as <- <- <- <-. unfold statsKey.
    rewrite !String.eqb_refl, Z.eqb_refl. reflexivity.
Qed.

Lemma existsb_statsKey u t r c l :
  existsb (statsKey u t r c) l = true <-> In (u, t, r, c) (map keyOf l).
Proof.
  rewrite existsb_exists, in_map_iff. split.
  - intros (x & Hin & Hk). exists x. split; [apply statsKey_iff, Hk | exact Hin].
  - intros (x & Hk & Hin). exists x. split; [exact Hin | apply statsKey_iff, Hk].
Qed.

Lemma priorOf_iff u t r c x :
  priorOf u t r c x = true <-> sameSeries u t c x /\ urs_roundId x < r.
Proof.
  unfold priorOf, sameSeries. rewrite !andb_true_iff, !String.eqb_eq, Z.ltb_lt. tauto.
Qed.

Lemma map_keyOf_update_first p f l :
  (forall x, p x = true -> keyOf (f x) = keyOf x) ->
  map keyOf (update_first p f l) = map keyOf l.
Proof.
  intros H. induction l as [| y t IH]; cbn; [reflexivity |].
  destruct (p y) eqn:E; cbn; [rewrite (H _ E) | rewrite IH]; reflexivity.
Qed.

Lemma in_update_first {A} (p : A -> bool) f l (r : A) :
  In r (update_first p f l) ->
  In r l \/ exists x, find p l = Some x /\ r = f x.
Proof.
  induction l as [| y t IH]; cbn; [tauto |].
  destruct (p y) eqn:E; cbn.
  - intros [<- | H]; [right; eauto | left; auto].
  - intros [<- | H]; [left; auto |].
    destruct (IH H) as [? | ?]; auto.
Qed.

Lemma unique_key_eq l x y :
  uniqueStats l -> In x l -> In y l -> keyOf x = keyOf y -> x = y.
Proof.
  unfold uniqueStats. induction l as [| z t IH]; cbn; [tauto |].
  intros Hnd [-> | Hx] [-> | Hy] Hk; inversion Hnd as [| ? ? Hnotin Hnd']; subst.
  - reflexivity.
  - exfalso. apply Hnotin. rewrite Hk. apply in_map, Hy.
  - exfalso. apply Hnotin. rewrite <- Hk. apply in_map, Hx.
  - auto.
Qed.

Lemma maxByRoundId_spec l best m :
  maxByRoundId best l = Some m ->
  (In m l \/ best = Some m) /\
  (forall x, In x l -> urs_roundId x <= urs_roundId m) /\
  (forall b, best = Some b -> urs_roundId b <= urs_roundId m).
Proof.
  revert best. induction l as [| y t IH]; cbn; intros best H.
  - subst. repeat split; auto; try tauto. intros b Hb. injection Hb as ->. lia.
  - destruct best as [b |].
    + destruct (Z.ltb (urs_roundId b) (urs_roundId y)) eqn:E.
      * destruct (IH _ H) as (H1 & H2 & H3). apply Z.ltb_lt in E.
        specialize (H3 y eq_refl).
        split; [destruct H1 as [? | Hm]; [auto | injection Hm as ->; auto] |].
        split; [intros x [<- | Hx]; auto |].
        intros b' Hb'. injection Hb' as <-. lia.
      * destruct (IH _ H) as (H1 & H2 & H3). apply Z.ltb_ge in E.
        specialize (H3 b eq_refl).
        split; [destruct H1; auto |].
        split; [intros x [<- | Hx]; [lia | auto] |].
        intros b' Hb'. injection Hb' as <-. lia.
    + destruct (IH _ H) as (H1 & H2 & H3). specialize (H3 y eq_refl).
      split; [destruct H1 as [? | Hm]; [auto | injection Hm as ->; auto] |].
      split; [intros x [<- | Hx]; auto | discriminate].
Qed.

Lemma maxByRoundId_none l : maxByRoundId None l = None -> l = [].
Proof.
  destruct l as [| y t]; [reflexivity |]. cbn. intros H.
  assert (G : forall l b, maxByRoundId (Some b) l <> None).
  { clear. induction l as [| z t IH]; cbn; intros b; [discriminate |].
    destruct (Z.ltb _ _); apply IH. }
  exfalso. exact (G _ _ H).
Qed.

(** The query result is a most recent prior row, and there is one exactly
    when the query finds one. *)
Lemma previousRoundOf_some s u t r c p :
  previousRoundOf s u t r c = Some p -> mostRecentPrior s u t r c p.
Proof.
  unfold previousRoundOf. intros H.
  destruct (maxByRoundId_spec _ _ _ H) as ([Hin | Hn] & Hmax & _); [| discriminate].
  apply filter_In in Hin. destruct Hin as [Hin Hp]. apply priorOf_iff in Hp.
  destruct Hp as [Hs Hlt]. split; [exact Hin | split; [exact Hs | split; [exact Hlt |]]].
  intros q Hq Hsq Hltq. apply Hmax. apply filter_In. split; [exact Hq |].
  apply priorOf_iff. auto.
Qed.

Lemma previousRoundOf_none s u t r c p :
  previousRoundOf s u t r c = None -> ~ mostRecentPrior s u t r c p.
Proof.
  unfold previousRoundOf. intros H (Hin & Hs & Hlt & _).
  apply maxByRoundId_none in H.
  assert (Hf : In p (List.filter (priorOf u t r c) (user_round_stats s))).
  { apply filter_In. split; [exact Hin | apply priorOf_iff; auto]. }
  rewrite H in Hf. exact Hf.
Qed.

Lemma mostRecentPrior_unique s u t r c p q :
  uniqueStats (user_round_stats s) ->
  mostRecentPrior s u t r c p -> mostRecentPrior s u t r c q -> p = q.
Proof.
  intros Hu (Hp & (Hp1 & Hp2 & Hp3) & Hpl & Hpm) (Hq & (Hq1 & Hq2 & Hq3) & Hql & Hqm).
  apply (unique_key_eq _ _ _ Hu Hp Hq). unfold keyOf.
  assert (urs_roundId p = urs_roundId q).
  { specialize (Hpm q Hq (conj Hq1 (conj Hq2 Hq3)) Hql).
    specialize (Hqm p Hp (conj Hp1 (conj Hp2 Hp3)) Hpl). lia. }
  congruence.
Qed.

Lemma NoDup_snoc {A} (l : list A) (k : A) :
  List.NoDup l -> ~ In k l -> List.NoDup (l ++ [k]).
Proof.
  induction l as [| y t IH]; cbn; intros Hnd Hk.
  - constructor; [tauto | constructor].
  - inversion Hnd as [| ? ? Hy Ht]; subst. constructor.
    + intros Hin. apply in_app_or in Hin. destruct Hin as [? | [<- | []]]; tauto.
    + apply IH; tauto.
Qed.

Lemma invariant_insert l r :
  uniqueStats l -> consecutiveHasPredecessor l ->
  existsb (statsKey (urs_user r) (urs_token r) (urs_roundId r) (urs_contractAddress r)) l
    = false ->
  (urs_isConsecutive r = true ->
   In (urs_user r, urs_token r, urs_roundId r - 1, urs_contractAddress r) (map keyOf l)) ->
  uniqueStats (l ++ [r]) /\ consecutiveHasPredecessor (l ++ [r]).
Proof.
  intros Hu Hc Hnew Hpred. split.
  - unfold uniqueStats in *. rewrite map_app. cbn.
    apply NoDup_snoc; [exact Hu |].
    intros Hk.
    assert (existsb (statsKey (urs_user r) (urs_token r) (urs_roundId r)
                       (urs_contractAddress r)) l = true)
      by (apply existsb_statsKey; exact Hk).
    congruence.
  - intros x Hx Hcx. apply existsb_statsKey. rewrite map_app. apply in_or_app. left.
    apply in_app_or in Hx. destruct Hx as [Hx | [<- | []]].
    + apply existsb_statsKey. apply Hc; assumption.
    + apply Hpred, Hcx.
Qed.

Lemma invariant_update l u t rid c old r :
  uniqueStats l -> consecutiveHasPredecessor l ->
  find (statsKey u t rid c) l = Some old ->
  keyOf r = keyOf old ->
  (urs_isConsecutive r = true ->
   In (urs_user r, urs_token r, urs_roundId r - 1, urs_contractAddress r) (map keyOf l)) ->
  uniqueStats (update_first (statsKey u t rid c) (fun _ => r) l) /\
  consecutiveHasPredecessor (update_first (statsKey u t rid c) (fun _ => r) l).
Proof.
  intros Hu Hc Hfind Hkey Hpred.
  destruct (find_some_holds _ _ _ Hfind) as [Hold _].
  assert (Hmap : map keyOf (update_first (statsKey u t rid c) (fun _ => r) l) = map keyOf l).
  { apply map_keyOf_update_first. intros x Hx.
    apply statsKey_iff in Hx, Hold. congruence. }
  split.
  - unfold uniqueStats. rewrite Hmap. exact Hu.
  - intros x Hx Hcx. apply existsb_statsKey. rewrite Hmap.
    destruct (in_update_first _ _ _ _ Hx) as [Hin | (x0 & _ & ->)].
    + apply existsb_statsKey. apply Hc; assumption.
    + apply Hpred, Hcx.
Qed.

Lemma preservesStats_of_keeps {A} (c : Db A) :
  keeps user_round_stats c -> preservesStats c.
Proof. intros K s. unfold statsInvariant. rewrite K. auto. Qed.

Lemma preservesStats_bind {A B} (c : Db A) (k : A -> Db B) :
  preservesStats c -> (forall a, preservesStats (k a)) -> preservesStats (bind c k).
Proof.
  intros Hc Hk s Hs. unfold bind. specialize (Hc s Hs).
  destruct (c s) as [s' [e | a]]; cbn in *; [exact Hc | apply Hk, Hc].
Qed.

Lemma preservesStats_updateStatsOnPurchase u t rid c n ts :
  preservesStats (updateStatsOnPurchase u t rid c n ts).
Proof.
  intros s [Hu Hc].
  unfold updateStatsOnPurchase, findUserRoundStats, findPreviousRound, bind, statsInvariant.
  cbn.
  fold (previousRoundOf s u t rid c).
  destruct (previousRoundOf s u t rid c) as [p |] eqn:Hprev.
  - apply previousRoundOf_some in Hprev.
    destruct Hprev as (Hpin & (Hp1 & Hp2 & Hp3) & Hplt & _).
    destruct (find (statsKey u t rid c) (user_round_stats s)) as [old |] eqn:Hold.
    + destruct (find_some_holds _ _ _ Hold) as [Hkey Hoin].
      destruct (statsKey_fields _ _ _ _ _ Hkey) as (Eu & Et & Er & Ec).
      unfold updateUserRoundStats.
      destruct (Z.eqb (urs_roundId p) (rid - 1)) eqn:Eadj; cbn;
        rewrite Eu, Et, Er, Ec;
        (apply (invariant_update _ u t rid c old); auto;
         [unfold keyOf; cbn; congruence |]); cbn; intros Hcons.
      * apply Z.eqb_eq in Eadj. apply in_map_iff. exists p. split; [| exact Hpin].
        unfold keyOf. congruence.
      * apply existsb_statsKey. rewrite <- Eu, <- Et, <- Er, <- Ec. apply Hc; assumption.
    + pose proof (find_none_existsb _ _ Hold) as Hex.
      unfold insertUserRoundStats.
      destruct (Z.eqb (urs_roundId p) (rid - 1)) eqn:Eadj; cbn; rewrite Hex; cbn;
        (apply invariant_insert; auto); cbn; intros Hcons; try discriminate.
      apply Z.eqb_eq in Eadj. apply in_map_iff. exists p. split; [| exact Hpin].
      unfold keyOf. congruence.
  - destruct (find (statsKey u t rid c) (user_round_stats s)) as [old |] eqn:Hold.
    + destruct (find_some_holds _ _ _ Hold) as [Hkey Hoin].
      destruct (statsKey_fields _ _ _ _ _ Hkey) as (Eu & Et & Er & Ec).
      unfold updateUserRoundStats. cbn. rewrite Eu, Et, Er, Ec.
      apply (invariant_update _ u t rid c old); auto;
        [unfold keyOf; cbn; congruence |].
      cbn. intros Hcons.
      apply existsb_statsKey. rewrite <- Eu, <- Et, <- Er, <- Ec. apply Hc; assumption.
    + pose proof (find_none_existsb _ _ Hold) as Hex.
      unfold insertUserRoundStats. cbn. rewrite Hex. cbn.
      apply invariant_insert; auto. cbn. discriminate.
Qed.

Lemma preservesStats_updateStatsOnWin u t rid c ts :
  preservesStats (updateStatsOnWin u t rid c ts).
Proof.
  intros s [Hu Hc].
  unfold updateStatsOnWin, findUserRoundStats, bind, statsInvariant. cbn.
  destruct (find (statsKey u t rid c) (user_round_stats s)) as [old |] eqn:Hold.
  - destruct (find_some_holds _ _ _ Hold) as [Hkey Hoin].
    destruct (statsKey_fields _ _ _ _ _ Hkey) as (Eu & Et & Er & Ec).
    unfold updateUserRoundStats. cbn. rewrite Eu, Et, Er, Ec.
    apply (invariant_update _ u t rid c old); auto;
      [unfold keyOf; cbn; congruence |].
    cbn. intros Hcons.
    apply existsb_statsKey. rewrite <- Eu, <- Et, <- Er, <- Ec. apply Hc; assumption.
  - pose proof (find_none_existsb _ _ Hold) as Hex.
    unfold insertUserRoundStats. cbn. rewrite Hex. cbn.
    apply invariant_insert; auto. cbn. discriminate.
Qed.

Lemma keeps_urs_saveTicketPurchase r : keeps user_round_stats (saveTicketPurchase r).
Proof. unfold saveTicketPurchase. keeps_prim. Qed.

Lemma keeps_urs_getRoundPlayers c t r : keeps user_round_stats (getRoundPlayers c t r).
Proof. intros s. reflexivity. Qed.

Lemma keeps_urs_getOrCreateUsers l : keeps user_round_stats (getOrCreateUsers l).
Proof.
  induction l as [| a t IH]; cbn; [apply keeps_ret |].
  apply keeps_bind; [apply keeps_urs_getOrCreateUser | intros].
  apply keeps_bind; [exact IH | intros; apply keeps_ret].
Qed.

#[local] Hint Resolve keeps_urs_saveTicketPurchase keeps_urs_getRoundPlayers
  keeps_urs_getOrCreateUsers : keepsdb.

Ltac solve_preserves :=
  repeat first
    [ apply preservesStats_updateStatsOnPurchase
    | apply preservesStats_updateStatsOnWin
    | solve [apply preservesStats_of_keeps; solve_keeps]
    | apply preservesStats_bind; [| intros]
    | match goal with
      | |- preservesStats (match ?x with _ => _ end) => destruct x
      | |- preservesStats (if ?x then _ else _) => destruct x
      end ].

Lemma fst_catchDuplicate c s : fst (catchDuplicate c s) = fst (c s).
Proof. unfold catchDuplicate. destruct (c s) as [s' [[|] | []]]; reflexivity. Qed.

Lemma deliver_preserves d s : statsInvariant s -> statsInvariant (deliver d s).
Proof.
  assert (G : forall c : Db unit, preservesStats c ->
                statsInvariant s -> statsInvariant (fst (catchDuplicate c s))).
  { intros c Hc Hs. rewrite fst_catchDuplicate. apply Hc, Hs. }
  destruct d; cbn [deliver].
  - unfold processTicketPurchasedEvent. apply G. solve_preserves.
  - unfold processFirstTicketBonusEvent. apply G. solve_preserves.
  - unfold processWinnerPickedEvent. apply G. solve_preserves.
  - unfold processSolanaTicketPurchasedEvent. apply G. solve_preserves.
  - unfold processSolanaWinnerPickedEvent. apply G. solve_preserves.
  - unfold processAllRequestsCompletedEvent. apply G. solve_preserves.
  - unfold processSolanaPrizeClaimedEvent. apply G.
    destruct (find isPrizeClaimed events) as [[] |]; solve_preserves.
    apply preservesStats_of_keeps. intros s0.
    destruct (existsb _ _); [| reflexivity].
    destruct (find _ _); [| reflexivity].
    rewrite keeps_urs_updateLastSyncedBlock. reflexivity.
  - intros Hs. apply (preservesStats_of_keeps _ (keeps_urs_updateLastSyncedBlock _ _ _)), Hs.
  - intros _. split; [constructor | intros r []].
Qed.

Lemma reachable_statsInvariant s : reachable s -> statsInvariant s.
Proof.
  induction 1 as [| d s _ IH]; [| apply deliver_preserves, IH].
  split; [constructor | intros r []].
Qed.

(** ** The streak rule *)

Lemma mostRecentPrior_same_stats s s' u t r c p :
  user_round_stats s' = user_round_stats s ->
  mostRecentPrior s u t r c p -> mostRecentPrior s' u t r c p.
Proof. unfold mostRecentPrior. intros ->. auto. Qed.

Lemma streakRule_same_stats s s' u t r c row :
  user_round_stats s' = user_round_stats s ->
  streakRule s' u t r c row -> streakRule s u t r c row.
Proof.
  intros E [HA HB]. split.
  - intros p Hp. apply HA. apply (mostRecentPrior_same_stats s s'); assumption.
  - intros Hno. apply HB. intros p Hp. apply Hno.
    apply (mostRecentPrior_same_stats s' s); [symmetry |]; assumption.
Qed.

Lemma updateStatsOnPurchase_streak u t rid c n ts s :
  statsInvariant s ->
  exists s' row,
    updateStatsOnPurchase u t rid c n ts s = (s', inr tt) /\
    statsRow s' u t rid c = Some row /\
    streakRule s u t rid c row.
Proof.
  intros [Hu Hc].
  destruct (updateStatsOnPurchase_row u t rid c n ts s) as (s' & row & E & Hrow & _ & Hrule).
  exists s', row. split; [exact E |]. split; [exact Hrow |].
  assert (Hold : forall o, statsRow s u t rid c = Some o ->
                   urs_isConsecutive o = true ->
                   exists q, mostRecentPrior s u t rid c q /\ urs_roundId q = rid - 1).
  { intros o Ho Hcons. unfold statsRow in Ho.
    destruct (find_some_holds _ _ _ Ho) as [Hkey Hin].
    destruct (statsKey_fields _ _ _ _ _ Hkey) as (Eu & Et & Er & Ec).
    specialize (Hc o Hin Hcons). rewrite Eu, Et, Er, Ec in Hc.
    apply existsb_exists in Hc. destruct Hc as (q & Hq & Hqk).
    destruct (statsKey_fields _ _ _ _ _ Hqk) as (Qu & Qt & Qr & Qc).
    exists q. split; [| exact Qr].
    split; [exact Hq |]. split; [split; auto |]. split; [lia |].
    intros q' _ _ Hlt. lia. }
  split.
  - intros p Hp Hadj.
    destruct (previousRoundOf s u t rid c) as [p' |] eqn:Hprev.
    + pose proof (previousRoundOf_some _ _ _ _ _ _ Hprev) as Hp'.
      pose proof (mostRecentPrior_unique _ _ _ _ _ _ _ Hu Hp Hp') as <-.
      apply Z.eqb_eq in Hadj. rewrite Hadj in Hrule. exact Hrule.
    + exfalso. exact (previousRoundOf_none _ _ _ _ _ p Hprev Hp).
  - intros Hno.
    assert (Hfalse : match statsRow s u t rid c with
                     | Some old => urs_isConsecutive old
                     | None => false
                     end = false).
    { destruct (statsRow s u t rid c) as [o |] eqn:Ho; [| reflexivity].
      destruct (urs_isConsecutive o) eqn:Hcons; [| reflexivity].
      destruct (Hold o eq_refl Hcons) as (q & Hq & Hqr).
      exfalso. exact (Hno q Hq Hqr). }
    destruct (previousRoundOf s u t rid c) as [p' |] eqn:Hprev.
    + pose proof (previousRoundOf_some _ _ _ _ _ _ Hprev) as Hp'.
      specialize (Hno p' Hp'). apply Z.eqb_neq in Hno. rewrite Hno in Hrule.
      destruct Hrule as [H1 H2]. rewrite H2, Hfalse. auto.
    + destruct Hrule as [H1 H2]. rewrite H2, Hfalse. auto.
Qed.

Lemma evm_purchase_decompose
    token roundId buyer count totalAmount timestamp chainId tx blockNo name contract idx s :
  hasTicketPurchase s tx idx = false ->
  exists s2 s3,
    user_round_stats s2 = user_round_stats s /\
    updateStatsOnPurchase buyer token roundId contract count (timestamp * 1000) s2
      = (s3, inr tt) /\
    user_round_stats
      (fst (processTicketPurchasedEvent token roundId buyer count totalAmount timestamp
              chainId tx blockNo name contract idx s)) = user_round_stats s3.
Proof.
  intros Hfresh.
  unfold processTicketPurchasedEvent. rewrite fst_catchDuplicate. unfold bind.
  destruct (getOrCreateUser_spec buyer s)
    as (s' & -> & _ & _ & _ & Htp & Hurs & _).
  unfold saveTicketPurchase. cbn [tp_transactionHash tp_logIndex].
  assert (Hfresh' : hasTicketPurchase s' tx idx = false).
  { unfold hasTicketPurchase in *. rewrite Htp. exact Hfresh. }
  rewrite Hfresh'.
  set (s2 := set_ticket_purchases s' _).
  destruct (updateStatsOnPurchase_row buyer token roundId contract count
              (timestamp * 1000) s2) as (s3 & r & E3 & _).
  exists s2, s3. split; [exact Hurs |]. split; [exact E3 |].
  rewrite E3. apply keeps_urs_updateLastSyncedBlock.
Qed.

Lemma solana_purchase_decompose contract chainId sig block name idx events s
    token round_id buyer count total_amount prize_amount commission_amount timestamp :
  find isTicketPurchased events =
    Some (SolTicketPurchased token round_id buyer count total_amount prize_amount
            commission_amount timestamp) ->
  hasTicketPurchase s sig idx = false ->
  exists s2 s3,
    user_round_stats s2 = user_round_stats s /\
    updateStatsOnPurchase buyer token round_id contract count (timestamp * 1000) s2
      = (s3, inr tt) /\
    user_round_stats
      (fst (processSolanaTicketPurchasedEvent contract chainId sig block name idx events s))
      = user_round_stats s3.
Proof.
  intros Hfind Hfresh.
  destruct (solana_purchase_unfold contract chainId sig block name idx events s
              _ _ _ _ _ _ _ _ Hfind) as (tail & _ & Kurs & _ & ->).
  rewrite fst_catchDuplicate. unfold bind.
  destruct (getOrCreateUser_spec buyer s)
    as (s' & -> & _ & _ & _ & Htp & Hurs & _).
  unfold saveTicketPurchase. cbn [tp_transactionHash tp_logIndex].
  assert (Hfresh' : hasTicketPurchase s' sig idx = false).
  { unfold hasTicketPurchase in *. rewrite Htp. exact Hfresh. }
  rewrite Hfresh'.
  set (s2 := set_ticket_purchases s' _).
  destruct (updateStatsOnPurchase_row buyer token round_id contract count
              (timestamp * 1000) s2) as (s3 & r & E3 & _).
  exists s2, s3. split; [exact Hurs |]. split; [exact E3 |].
  rewrite E3. apply Kurs.
Qed.

(** C2. Whenever a ticket purchase is applied to a store the service can
    have produced, the aggregate row of the buyer for the round ends up as
    the rule says: with the most recent prior row of the same user, token
    and contract adjacent (round id one less), the row is consecutive and its
    streak is the prior streak plus one if the prior row was consecutive,
    else 1; with no adjacent prior row it is not consecutive and the streak
    is 0.  This holds for the log-based and the instruction-based handler.
    The purchase is one whose values the columns hold ([deliveryFits]), and
    so are the counters of the aggregate rows it leaves ([aggregatesFit]); a
    purchase outside these ranges is refused by the database and
    rethrown. *)
Theorem purchase_sets_streak :
  forall s, reachable s ->
  (forall token roundId buyer count totalAmount timestamp chainId tx blockNo name
          contract idx,
     hasTicketPurchase s tx idx = false ->
     deliveryFits (EvmTicketPurchased token roundId buyer count totalAmount timestamp
                     chainId tx blockNo name contract idx) = true ->
     aggregatesFit (fst (processTicketPurchasedEvent token roundId buyer count totalAmount
                           timestamp chainId tx blockNo name contract idx s)) = true ->
     exists row,
       statsRow (fst (processTicketPurchasedEvent token roundId buyer count totalAmount
                        timestamp chainId tx blockNo name contract idx s))
                buyer token roundId contract = Some row /\
       streakRule s buyer token roundId contract row) /\
  (forall contract chainId sig block name idx events
          token round_id buyer count total_amount prize_amount commission_amount timestamp,
     find isTicketPurchased events =
       Some (SolTicketPurchased token round_id buyer count total_amount prize_amount
               commission_amount timestamp) ->
     hasTicketPurchase s sig idx = false ->
     deliveryFits (SolanaTicketPurchased contract chainId sig block name idx events) = true ->
     aggregatesFit (fst (processSolanaTicketPurchasedEvent contract chainId sig block name
                           idx events s)) = true ->
     exists row,
       statsRow (fst (processSolanaTicketPurchasedEvent contract chainId sig block name
                        idx events s))
                buyer token round_id contract = Some row /\
       streakRule s buyer token round_id contract row).
Proof.
  intros s Hreach. pose proof (reachable_statsInvariant s Hreach) as Hinv.
  assert (Hshared : forall once s2 s3 u t rid c n ts,
            user_round_stats s2 = user_round_stats s ->
            updateStatsOnPurchase u t rid c n ts s2 = (s3, inr tt) ->
            user_round_stats once = user_round_stats s3 ->
            exists row, statsRow once u t rid c = Some row /\ streakRule s u t rid c row).
  { intros once s2 s3 u t rid c n ts E2 E3 Eonce.
    assert (Hinv2 : statsInvariant s2) by (unfold statsInvariant; rewrite E2; exact Hinv).
    destruct (updateStatsOnPurchase_streak u t rid c n ts s2 Hinv2)
      as (s3' & row & E3' & Hrow & Hrule).
    rewrite E3 in E3'. injection E3' as <-.
    exists row. split.
    - unfold statsRow in *. rewrite Eonce. exact Hrow.
    - apply (streakRule_same_stats s s2); assumption. }
  split.
  - intros token roundId buyer count totalAmount timestamp chainId tx blockNo name
      contract idx Hfresh _ _.
    destruct (evm_purchase_decompose token roundId buyer count totalAmount timestamp
                chainId tx blockNo name contract idx s Hfresh) as (s2 & s3 & E2 & E3 & Eo).
    eapply Hshared; eassumption.
  - intros contract chainId sig block name idx events token round_id buyer count
      total_amount prize_amount commission_amount timestamp Hfind Hfresh _ _.
    destruct (solana_purchase_decompose contract chainId sig block name idx events s
                _ _ _ _ _ _ _ _ Hfind Hfresh) as (s2 & s3 & E2 & E3 & Eo).
    eapply Hshared; eassumption.
Qed.

(** ** Chunked backfill *)

Lemma find_update_first_same {A} (p : A -> bool) (f : A -> A) l :
  (forall x, p x = true -> p (f x) = true) ->
  find p (update_first p f l) = option_map f (find p l).
Proof.
  intros H. induction l as [| y t IH]; cbn; [reflexivity |].
  destruct (p y) eqn:E; cbn; [rewrite (H _ E); reflexivity | rewrite E; exact IH].
Qed.

Lemma cursor_after_write name contract n s :
  n <> 0 -> name <> "" -> contract <> "" ->
  getLastSyncedBlock (fst (updateLastSyncedBlock name contract n s)) name contract = Some n.
Proof.
  intros Hn Hname Hc. unfold updateLastSyncedBlock.
  apply Z.eqb_neq in Hn. apply String.eqb_neq in Hname, Hc.
  rewrite Hn, Hname, Hc. cbn [orb].
  unfold getLastSyncedBlock, findSync.
  destruct (find (syncKey name contract) (blockchain_sync s)) as [r |] eqn:E; cbn.
  - rewrite find_update_first_same, E by (intros x Hx; exact Hx). cbn. rewrite Hn. reflexivity.
  - rewrite (find_app_new _ _ _ E).
    + cbn. rewrite Hn. reflexivity.
    + unfold syncKey. cbn. rewrite !String.eqb_refl. reflexivity.
Qed.

Lemma chunkLoop_correct chain chainId name contractAddress toBlock currentFrom s :
  name <> "" -> contractAddress <> "" -> 0 <= currentFrom -> 0 < toBlock ->
  let b := chunkLoop chain chainId name contractAddress toBlock currentFrom s in
  chunksFrom currentFrom toBlock (bf_chunks b) /\
  processedInOrder chain chainId name contractAddress s (bf_chunks b) /\
  bf_store b = storeAfter s (bf_chunks b) /\
  (bf_result b = true -> currentFrom <= toBlock ->
   endAfter currentFrom (bf_chunks b) = toBlock) /\
  (bf_result b = false ->
   queryFilter chain contractAddress (endAfter currentFrom (bf_chunks b) + 1)
     (Z.min (endAfter currentFrom (bf_chunks b) + maxBlockRange) toBlock) = None).
Proof.
  intros Hname Hc. cbv zeta.
  funelim (chunkLoop chain chainId name contractAddress toBlock currentFrom s);
    intros Hfrom Hto; clear Heqcall.
  - (* the loop is not entered *)
    cbn. repeat split; auto; try discriminate. intros _ Hle. contradiction.
  - (* one chunk, then the rest of the loop *)
    set (currentTo := Z.min (currentFrom + maxBlockRange - 1) toBlock) in *.
    set (s2 := fst (updateLastSyncedBlock name contractAddress currentTo
                      (processEvents chain chainId name contractAddress allEvents s))) in *.
    assert (Hcur : currentFrom <= currentTo /\ currentTo <= toBlock /\
                   currentTo - currentFrom + 1 <= maxBlockRange /\ 0 < currentTo).
    { unfold currentTo, maxBlockRange. lia. }
    destruct Hcur as (H1 & H2 & H3 & H4).
    specialize (H Hname Hc ltac:(lia) Hto).
    destruct H as (IH1 & IH2 & IH3 & IH4 & IH5).
    cbn [bf_chunks bf_store bf_result chunksFrom processedInOrder storeAfter endAfter
         chunk_from chunk_to chunk_events chunk_store].
    split; [repeat split; auto |].
    split; [split; [exact Heq | split; [reflexivity | split; [| exact IH2]]] |].
    { apply cursor_after_write; auto. lia. }
    split; [exact IH3 |].
    split.
    + intros Hres _. destruct (Z_le_dec (currentTo + 1) toBlock) as [Hle | Hgt].
      * apply IH4; assumption.
      * rewrite chunkLoop_equation_1.
        destruct (Z_le_dec (currentTo + 1) toBlock); [lia |].
        cbn. lia.
    + exact IH5.
  - (* the query of this chunk throws *)
    cbn. repeat split; auto; try discriminate. intros _.
    replace (currentFrom - 1 + 1) with currentFrom by lia.
    replace (currentFrom - 1 + maxBlockRange) with (currentFrom + maxBlockRange - 1) by lia.
    exact Heq.
Qed.


(** ** Sync cursor *)

Lemma cursor_write_skipped name contract n s :
  n = 0 \/ name = "" \/ contract = "" ->
  fst (updateLastSyncedBlock name contract n s) = s.
Proof.
  intros H. unfold updateLastSyncedBlock.
  destruct H as [-> | [-> | ->]]; cbn; rewrite ?orb_true_r; reflexivity.
Qed.

Lemma find_update_first_other {A} (p q : A -> bool) (f : A -> A) l :
  (forall x, q (f x) = q x) -> (forall x, p x = true -> q x = false) ->
  find q (update_first p f l) = find q l.
Proof.
  intros Hq Hpq. induction l as [| y t IH]; cbn; [reflexivity |].
  destruct (p y) eqn:E; cbn.
  - rewrite Hq, (Hpq _ E). reflexivity.
  - rewrite IH. reflexivity.
Qed.

Lemma find_app_other {A} (q : A -> bool) l r :
  q r = false -> find q (l ++ [r]) = find q l.
Proof.
  intros H. induction l as [| y t IH]; cbn; [rewrite H; reflexivity |].
  destruct (q y); auto.
Qed.

Lemma syncKey_other name contract name' contract' x :
  (name', contract') <> (name, contract) ->
  syncKey name contract x = true -> syncKey name' contract' x = false.
Proof.
  unfold syncKey. intros Hne H. apply andb_true_iff in H. destruct H as [H1 H2].
  apply String.eqb_eq in H1, H2. subst.
  destruct (String.eqb (bs_blockchainName x) name') eqn:E1; [| reflexivity].
  destruct (String.eqb (bs_contractAddress x) contract') eqn:E2; [| reflexivity].
  apply String.eqb_eq in E1, E2. subst. contradiction.
Qed.

Lemma cursor_write_other name contract n name' contract' s :
  (name', contract') <> (name, contract) ->
  getLastSyncedBlock (fst (updateLastSyncedBlock name contract n s)) name' contract' =
  getLastSyncedBlock s name' contract'.
Proof.
  intros Hne. unfold updateLastSyncedBlock.
  destruct (Z.eqb n 0 || String.eqb name "" || String.eqb contract ""); [reflexivity |].
  unfold getLastSyncedBlock, findSync.
  destruct (find (syncKey name contract) (blockchain_sync s)) as [r |] eqn:E; cbn.
  - rewrite (find_update_first_other (syncKey name contract) (syncKey name' contract')).
    + reflexivity.
    + intros x. reflexivity.
    + intros x. apply syncKey_other, Hne.
  - rewrite find_app_other; [reflexivity |].
    apply (syncKey_other name contract); [exact Hne |].
    unfold syncKey. cbn. rewrite !String.eqb_refl. reflexivity.
Qed.

(** C4, as the code has it.  A cursor write stores the position it is given,
    whatever is stored: a zero position or an empty chain or contract name
    makes the call return without writing; any other call leaves exactly the
    given position as the cursor of the pair and no other pair's cursor
    changes.  So the cursor does not decrease across a write exactly when the
    position passed is not below the stored one. *)
Theorem cursor_write_overwrites :
  forall name contract n s,
    (n = 0 \/ name = "" \/ contract = "" ->
     fst (updateLastSyncedBlock name contract n s) = s) /\
    (n <> 0 -> name <> "" -> contract <> "" ->
     getLastSyncedBlock (fst (updateLastSyncedBlock name contract n s)) name contract
       = Some n /\
     forall c, getLastSyncedBlock s name contract = Some c ->
       (c <= n <->
        exists c', getLastSyncedBlock (fst (updateLastSyncedBlock name contract n s))
                     name contract = Some c' /\ c <= c')) /\
    (forall name' contract', (name', contract') <> (name, contract) ->
     getLastSyncedBlock (fst (updateLastSyncedBlock name contract n s)) name' contract' =
     getLastSyncedBlock s name' contract').
Proof.
  intros name contract n s. split; [apply cursor_write_skipped |].
  split; [| intros; apply cursor_write_other; assumption].
  intros Hn Hname Hc.
  pose proof (cursor_after_write name contract n s Hn Hname Hc) as E.
  split; [exact E |].
  intros c _. rewrite E. split.
  - intros Hle. exists n. auto.
  - intros (c' & Hc' & Hle). injection Hc' as <-. exact Hle.
Qed.

(** C4, counterexample: with the cursor of ("ethereum", "0xC") at 108 after
    a live log, the handler of a log of block 103 writes 103. *)
Lemma cursor_can_decrease : ~ cursor_never_decreases.
Proof.
  intros H.
  specialize (H liveAhead lateLog "ethereum" "0xC" 108 103).
  assert (108 <= 103); [| lia].
  apply H.
  - apply reachable_deliver, reachable_empty.
  - vm_compute. reflexivity.
  - vm_compute. reflexivity.
Qed.

(** ** Round rows *)

Lemma keeps_ftb_updateLastSyncedBlock n c b :
  keeps first_ticket_bonuses (updateLastSyncedBlock n c b).
Proof. unfold updateLastSyncedBlock. keeps_prim. Qed.

Lemma bonus_adds_round
    token roundId buyer timestamp roundStartTime roundEndTime chainId tx blockNo
    name contract idx s :
  rounds (fst (processFirstTicketBonusEvent token roundId buyer timestamp roundStartTime
                 roundEndTime chainId tx blockNo name contract idx s)) =
  rounds s ++ [mkRound contract token roundId chainId (roundStartTime * 1000)
                 (roundEndTime * 1000) None None false].
Proof.
  unfold processFirstTicketBonusEvent. rewrite fst_catchDuplicate. unfold bind.
  destruct (getOrCreateUser_spec buyer s)
    as (s' & -> & _ & _ & _ & _ & _ & Hr & _).
  unfold insertRound, saveFirstTicketBonus. cbn [ftb_transactionHash ftb_logIndex].
  destruct (hasFirstTicketBonus _ tx idx); cbn [fst rounds set_rounds].
  - rewrite Hr. reflexivity.
  - rewrite keeps_rounds_updateLastSyncedBlock. cbn. rewrite Hr. reflexivity.
Qed.

Lemma bonus_leaves_key
    token roundId buyer timestamp roundStartTime roundEndTime chainId tx blockNo
    name contract idx s :
  hasFirstTicketBonus
    (fst (processFirstTicketBonusEvent token roundId buyer timestamp roundStartTime
            roundEndTime chainId tx blockNo name contract idx s)) tx idx = true.
Proof.
  unfold processFirstTicketBonusEvent. rewrite fst_catchDuplicate. unfold bind.
  destruct (getOrCreateUser_spec buyer s) as (s' & -> & _).
  unfold insertRound, saveFirstTicketBonus. cbn [ftb_transactionHash ftb_logIndex].
  set (s1 := set_rounds s' _).
  destruct (hasFirstTicketBonus s1 tx idx) eqn:E; cbn [fst]; [exact E |].
  unfold hasFirstTicketBonus. rewrite keeps_ftb_updateLastSyncedBlock. cbn.
  rewrite existsb_app. cbn. unfold sameTxLog.
  rewrite String.eqb_refl, Z.eqb_refl. cbn. apply orb_true_r.
Qed.

Lemma bonus_duplicate
    token roundId buyer timestamp roundStartTime roundEndTime chainId tx blockNo
    name contract idx s :
  hasFirstTicketBonus s tx idx = true ->
  snd (processFirstTicketBonusEvent token roundId buyer timestamp roundStartTime
         roundEndTime chainId tx blockNo name contract idx s) = DuplicateIgnored.
Proof.
  intros H. unfold processFirstTicketBonusEvent, catchDuplicate, bind.
  destruct (getOrCreateUser_spec buyer s)
    as (s' & -> & _ & _ & _ & _ & _ & _ & Hf & _).
  unfold insertRound, saveFirstTicketBonus. cbn [ftb_transactionHash ftb_logIndex].
  assert (E : hasFirstTicketBonus (set_rounds s' (rounds s' ++
                [mkRound contract token roundId chainId (roundStartTime * 1000)
                   (roundEndTime * 1000) None None false])) tx idx = true).
  { unfold hasFirstTicketBonus in *. cbn. rewrite Hf. exact H. }
  rewrite E. reflexivity.
Qed.

(** C5, what the code does.  [processFirstTicketBonusEvent] inserts the
    Round row before the keyed insert of the bonus row, and "rounds" has no
    unique constraint: the second delivery of the same event is recognised as
    a duplicate, but only after it has added a second, identical Round row. *)
Theorem first_ticket_bonus_redelivery_adds_round :
  forall token roundId buyer timestamp roundStartTime roundEndTime chainId tx blockNo
         name contract idx s,
    let apply := processFirstTicketBonusEvent token roundId buyer timestamp roundStartTime
                   roundEndTime chainId tx blockNo name contract idx in
    let row := mkRound contract token roundId chainId (roundStartTime * 1000)
                 (roundEndTime * 1000) None None false in
    snd (apply (fst (apply s))) = DuplicateIgnored /\
    rounds (fst (apply (fst (apply s)))) = rounds s ++ [row; row] /\
    (2 <= length (List.filter (roundMatches token roundId contract chainId)
                    (rounds (fst (apply (fst (apply s)))))))%nat.
Proof.
  intros token roundId buyer timestamp roundStartTime roundEndTime chainId tx blockNo
    name contract idx s apply row. subst apply.
  assert (E : rounds (fst (processFirstTicketBonusEvent token roundId buyer timestamp
                roundStartTime roundEndTime chainId tx blockNo name contract idx
                (fst (processFirstTicketBonusEvent token roundId buyer timestamp
                        roundStartTime roundEndTime chainId tx blockNo name contract idx s))))
              = rounds s ++ [row; row]).
  { rewrite !bonus_adds_round, <- app_assoc. reflexivity. }
  split; [apply bonus_duplicate, bonus_leaves_key |].
  split; [exact E |].
  rewrite E, List.filter_app, length_app. cbn.
  assert (Hm : roundMatches token roundId contract chainId row = true).
  { unfold roundMatches, row. cbn. rewrite !String.eqb_refl, !Z.eqb_refl. reflexivity. }
  rewrite Hm. cbn. lia.
Qed.

(** The instruction-based handler guards the same Round insert with the
    keyed insert of the purchase: there a second delivery adds no Round. *)
Lemma solana_redelivery_keeps_rounds contract chainId sig block name idx events s :
  let apply := processSolanaTicketPurchasedEvent contract chainId sig block name idx events in
  rounds (fst (apply (fst (apply s)))) = rounds (fst (apply s)).
Proof.
  cbv zeta.
  destruct (solana_purchase_twice contract chainId sig block name idx events s) as [-> _].
  reflexivity.
Qed.

(** ** Reconnection *)

Lemma reconnect_exhausted env name rt :
  maxReconnectAttempts <= attemptsOf rt name ->
  reconnectBlockchain env name rt = (rt, []).
Proof.
  intros H. unfold reconnectBlockchain.
  destruct (configs rt !! name); [| reflexivity].
  destruct (Z.geb (attemptsOf rt name) maxReconnectAttempts) eqn:E; [reflexivity |].
  rewrite Z.geb_leb in E. apply Z.leb_gt in E. lia.
Qed.

(** C6, as the code has it.  [forceReconnect] calls [reconnectBlockchain]
    without touching the attempt counter and returns true.  Once the counter
    has reached the maximum the call changes nothing and attempts nothing.
    While the counter is below the maximum the call starts the next attempt
    in the count (number counter + 1, waiting base delay times the
    counter).  An attempt that succeeds leaves the counter at 0.  An attempt
    that fails schedules a retry and leaves the counter at counter + 1,
    unless the counter was set back inside the attempt ([resetInside]), in
    which case it is 0 although the attempt failed. *)
Theorem forceReconnect_keeps_the_count :
  forall env name rt,
    (maxReconnectAttempts <= attemptsOf rt name ->
     forceReconnect env name rt = (rt, [], true)) /\
    (forall config,
       configs rt !! name = Some config ->
       attemptsOf rt name < maxReconnectAttempts ->
       exists rt' outcome,
         forceReconnect env name rt =
           (rt', [AttemptStarted name (attemptsOf rt name + 1);
                  Waited name (reconnectDelay * attemptsOf rt name);
                  outcome], true) /\
         (attemptSucceeds env = true ->
          outcome = Reconnected name /\ attemptsOf rt' name = 0) /\
         (attemptSucceeds env = false ->
          outcome = RetryScheduled name (reconnectDelay * (attemptsOf rt name + 1)) /\
          attemptsOf rt' name =
            if resetInside env name config then 0 else attemptsOf rt name + 1)).
Proof.
  intros env name rt. unfold forceReconnect. split.
  - intros H. rewrite (reconnect_exhausted env name rt H). reflexivity.
  - intros config Hc Hlt. unfold reconnectBlockchain. rewrite Hc.
    destruct (Z.geb (attemptsOf rt name) maxReconnectAttempts) eqn:E.
    { rewrite Z.geb_leb in E. apply Z.leb_le in E. lia. }
    unfold addBlockchain, attemptSucceeds, resetInside, polled.
    destruct env as [ct se so lt]. cbn [env_createThrows env_socketEvents env_socketOpens
                                         env_listenThrows].
    destruct (isSolana name), (isSocket (cfg_rpcUrl config)), ct, se, so, lt;
      cbn; eexists _, _; (split; [reflexivity |]);
      (split; intros Hs; try discriminate Hs; (split; [reflexivity |]));
      unfold attemptsOf at 1; cbn; rewrite lookup_insert_eq; reflexivity.
Qed.

(** C6, counterexample: on a chain whose counter stands at 5 a forced
    reconnect starts no attempt at all. *)
Lemma forceReconnect_does_not_restart : ~ forceReconnect_restarts.
Proof.
  intros H.
  destruct (H nodeDown "ethereum" wsConfig (exhausted "ethereum" wsConfig))
    as (rest & Hrest).
  - vm_compute. reflexivity.
  - vm_compute in Hrest. discriminate Hrest.
Qed.

Lemma not_elem_of_removed (X : gset string) (n : string) : n ∉ X ∖ {[n]}.
Proof.
  intros H. apply elem_of_difference in H. destruct H as [_ H].
  apply H, elem_of_singleton. reflexivity.
Qed.

Lemma quiet_failure env name config rt :
  isSolana name = false -> isSocket (cfg_rpcUrl config) = true ->
  failsQuietly env = true ->
  configs rt !! name = Some config ->
  attemptsOf rt name < maxReconnectAttempts ->
  exists rt',
    reconnectBlockchain env name rt = (rt', failedAttempts name (attemptsOf rt name) 1) /\
    configs rt' !! name = Some config /\
    attemptsOf rt' name = attemptsOf rt name + 1 /\
    (name ∉ healthCheckTimers rt') /\
    (name ∉ socketHandlers rt') /\
    reconnectTimeouts rt' =
      reconnectTimeouts rt ++ [(name, reconnectDelay * (attemptsOf rt name + 1))].
Proof.
  intros Hsol Hws Hq Hc Hlt. unfold reconnectBlockchain. rewrite Hc.
  destruct (Z.geb (attemptsOf rt name) maxReconnectAttempts) eqn:E.
  { rewrite Z.geb_leb in E. apply Z.leb_le in E. lia. }
  unfold addBlockchain. rewrite Hsol, Hws.
  destruct env as [ct se so lt]. unfold failsQuietly in Hq. cbn in Hq |- *.
  destruct ct; cbn in Hq |- *.
  - eexists. split; [reflexivity |]. cbn.
    repeat split; try apply not_elem_of_removed.
    + apply lookup_insert_eq.
    + unfold attemptsOf at 1. cbn. rewrite lookup_insert_eq. reflexivity.
  - destruct lt, se; try discriminate Hq. cbn.
    eexists. split; [reflexivity |]. cbn.
    repeat split; try apply not_elem_of_removed.
    + apply lookup_insert_eq.
    + unfold attemptsOf at 1. cbn. rewrite lookup_insert_eq. reflexivity.
Qed.

Lemma removeTimeout_filter (p : string * Z -> bool) entry l :
  p entry = true ->
  List.filter p (removeTimeout entry l) = removeTimeout entry (List.filter p l).
Proof.
  intros Hp. induction l as [| x t IH]; cbn; [reflexivity |].
  destruct (String.eqb (fst x) (fst entry) && Z.eqb (snd x) (snd entry)) eqn:E.
  - apply andb_true_iff in E. destruct E as [E1 E2].
    apply String.eqb_eq in E1. apply Z.eqb_eq in E2.
    assert (x = entry) by (destruct x, entry; cbn in *; congruence). subst x.
    rewrite Hp. cbn. rewrite String.eqb_refl, Z.eqb_refl. reflexivity.
  - cbn. destruct (p x); cbn; [rewrite E, IH |]; auto.
Qed.

Lemma find_of_filter {A} (p : A -> bool) l x rest :
  List.filter p l = x :: rest -> find p l = Some x.
Proof.
  induction l as [| y t IH]; cbn; [discriminate |].
  destruct (p y); [intros H; injection H as -> _; reflexivity | exact IH].
Qed.

Lemma fireRetries_quiet name config envs :
  isSolana name = false -> isSocket (cfg_rpcUrl config) = true ->
  forall rt,
    forallb failsQuietly envs = true ->
    configs rt !! name = Some config ->
    attemptsOf rt name + Z.of_nat (length envs) <= maxReconnectAttempts ->
    pendingFor name rt = [(name, reconnectDelay * attemptsOf rt name)] ->
    (name ∉ healthCheckTimers rt) -> (name ∉ socketHandlers rt) ->
    exists rt',
      fireRetries envs name rt = (rt', failedAttempts name (attemptsOf rt name) (length envs)) /\
      configs rt' !! name = Some config /\
      attemptsOf rt' name = attemptsOf rt name + Z.of_nat (length envs) /\
      pendingFor name rt' = [(name, reconnectDelay * attemptsOf rt' name)] /\
      (name ∉ healthCheckTimers rt') /\ (name ∉ socketHandlers rt').
Proof.
  intros Hsol Hws. induction envs as [| env rest IH]; intros rt Hq Hc Hk Hp Ht Hh.
  - exists rt. cbn. rewrite Z.add_0_r. repeat split; auto.
  - cbn [forallb] in Hq. apply andb_true_iff in Hq. destruct Hq as [Hq Hqs].
    cbn [length] in Hk. rewrite Nat2Z.inj_succ in Hk.
    cbn [fireRetries]. unfold pendingFor in Hp. rewrite (find_of_filter _ _ _ _ Hp).
    unfold reconnectTimeoutFires. cbn [fst].
    set (rt0 := set_reconnectTimeouts rt _).
    assert (Ha0 : attemptsOf rt0 name = attemptsOf rt name) by reflexivity.
    destruct (quiet_failure env name config rt0 Hsol Hws Hq Hc ltac:(rewrite Ha0; lia))
      as (rt1 & E1 & Hc1 & Ha1 & Ht1 & Hh1 & Hp1).
    rewrite E1.
    assert (Hpend : pendingFor name rt1 = [(name, reconnectDelay * attemptsOf rt1 name)]).
    { unfold pendingFor. rewrite Hp1, List.filter_app. unfold rt0.
      cbn [reconnectTimeouts set_reconnectTimeouts].
      rewrite removeTimeout_filter by (cbn; apply String.eqb_refl).
      rewrite Hp. cbn. rewrite !String.eqb_refl, Z.eqb_refl. cbn.
      rewrite Ha1. reflexivity. }
    destruct (IH rt1 Hqs Hc1 ltac:(rewrite Ha1, Ha0; lia) Hpend Ht1 Hh1)
      as (rt2 & E2 & Hc2 & Ha2 & Hp2 & Ht2 & Hh2).
    rewrite E2. exists rt2.
    split; [| repeat split; auto].
    + rewrite Ha1, Ha0. reflexivity.
    + rewrite Ha2, Ha1, Ha0. cbn [length]. lia.
Qed.

Lemma attemptsStarted_app name e1 e2 :
  attemptsStarted name (e1 ++ e2) = attemptsStarted name e1 ++ attemptsStarted name e2.
Proof. unfold attemptsStarted. apply flat_map_app. Qed.

(** What a reconnection of one chain leaves untouched on another. *)
Lemma reconnect_other env n name rt :
  n <> name ->
  attemptsOf (fst (reconnectBlockchain env n rt)) name = attemptsOf rt name /\
  (name ∈ healthCheckTimers (fst (reconnectBlockchain env n rt)) ->
   name ∈ healthCheckTimers rt) /\
  (name ∈ socketHandlers (fst (reconnectBlockchain env n rt)) ->
   name ∈ socketHandlers rt) /\
  attemptsStarted name (snd (reconnectBlockchain env n rt)) = [].
Proof.
  intros Hne.
  assert (Heqb : String.eqb n name = false) by (apply String.eqb_neq; exact Hne).
  unfold reconnectBlockchain.
  destruct (configs rt !! n) as [config |]; [| cbn; auto].
  destruct (Z.geb (attemptsOf rt n) maxReconnectAttempts); [cbn; auto |].
  unfold addBlockchain, onSocketOpen, startHealthCheck, cleanupBlockchain.
  destruct env as [ct se so lt].
  destruct (isSolana n), (isSocket (cfg_rpcUrl config)), ct, se, so, lt;
    cbn; rewrite ?Heqb; unfold attemptsOf; cbn;
    rewrite ?lookup_insert_ne by exact Hne;
    (split; [reflexivity |]);
    (split; [| split; [| reflexivity]]);
    rewrite ?elem_of_union, ?elem_of_difference, ?elem_of_singleton;
    intuition congruence.
Qed.

Lemma autoStep_givenUp name rt e rt' :
  givenUp name rt -> autoStep rt e rt' ->
  givenUp name rt' /\ attemptsStarted name e = [].
Proof.
  intros (Ha & Ht & Hh) Hstep.
  destruct Hstep as [env isHealthy n rt Hin | env entry rt Hin | n rt Hin | n rt Hin].
  - (* a health timer fires: it belongs to another chain *)
    assert (Hne : n <> name) by (intros ->; contradiction).
    unfold healthCheckTick. destruct isHealthy.
    + cbn. split; [| reflexivity]. unfold givenUp, attemptsOf in *. cbn.
      rewrite lookup_insert_ne by exact Hne. auto.
    + set (rt0 := set_connectionStates rt _).
      destruct (reconnect_other env n name rt0 Hne) as (H1 & H2 & H3 & H4).
      split; [| exact H4]. unfold givenUp. rewrite H1.
      split; [exact Ha |]. split; intros Hx; [apply Ht, H2, Hx | apply Hh, H3, Hx].
  - (* a retry timer fires *)
    unfold reconnectTimeoutFires. set (rt0 := set_reconnectTimeouts rt _).
    destruct (String.eqb_spec (fst entry) name) as [-> | Hne].
    + rewrite (reconnect_exhausted env name rt0) by exact Ha.
      cbn. unfold givenUp. auto.
    + destruct (reconnect_other env (fst entry) name rt0 Hne) as (H1 & H2 & H3 & H4).
      split; [| exact H4]. unfold givenUp. rewrite H1.
      split; [exact Ha |]. split; intros Hx; [apply Ht, H2, Hx | apply Hh, H3, Hx].
  - (* a socket opens: it belongs to another chain *)
    assert (Hne : n <> name) by (intros ->; contradiction).
    split; [| reflexivity]. unfold givenUp, onSocketOpen, attemptsOf in *. cbn.
    rewrite lookup_insert_ne by exact Hne. auto.
  - split; [| reflexivity]. unfold givenUp, onSocketDown, attemptsOf in *. cbn. auto.
Qed.

Lemma autoRun_givenUp name rt later rt' :
  givenUp name rt -> autoRun rt later rt' ->
  givenUp name rt' /\ attemptsStarted name later = [].
Proof.
  intros Hg Hrun. induction Hrun as [rt | rt rt1 rt2 e e' Hstep Hrun IH].
  - auto.
  - destruct (autoStep_givenUp name rt e rt1 Hg Hstep) as [Hg1 He].
    destruct (IH Hg1) as [Hg2 He'].
    split; [exact Hg2 |]. rewrite attemptsStarted_app, He, He'. reflexivity.
Qed.

(** C7, as the code has it, for a WebSocket chain whose failed attempts
    leave the attempt counter alone.  The health check finds the chain
    unhealthy and the retry timers fire in turn; with five failing attempts,
    attempt k (k = 1..5) waits base delay times (k - 1) before it recreates
    the connection, that is 0, 5, 10, 15 and 20 seconds, and after it has
    failed the next invocation is scheduled base delay times k later, that is
    5, 10, 15, 20 and 25 seconds.  After the fifth failure the counter stands
    at the maximum and the chain has neither a health timer nor a socket
    handler; whatever timers of this or other chains fire afterwards, no
    attempt for the chain is started any more. *)
Theorem reconnect_bound_as_built :
  forall name config rt envs,
    isSolana name = false -> isSocket (cfg_rpcUrl config) = true ->
    configs rt !! name = Some config ->
    attemptsOf rt name = 0 -> pendingFor name rt = [] ->
    length envs = 5%nat -> forallb failsQuietly envs = true ->
    exists rt5,
      unhealthyRun envs name rt = (rt5, failedAttempts name 0 5) /\
      attemptsStarted name (failedAttempts name 0 5) = [1; 2; 3; 4; 5] /\
      waits (failedAttempts name 0 5) = [0; 5000; 10000; 15000; 20000] /\
      retriesScheduled (failedAttempts name 0 5) = [5000; 10000; 15000; 20000; 25000] /\
      givenUp name rt5 /\
      forall later rt', autoRun rt5 later rt' ->
        attemptsStarted name later = [] /\ givenUp name rt'.
Proof.
  intros name config rt envs Hsol Hws Hc Ha Hp Hlen Hq.
  destruct envs as [| env rest]; [discriminate Hlen |].
  cbn [length] in Hlen. injection Hlen as Hlen.
  cbn [forallb] in Hq. apply andb_true_iff in Hq. destruct Hq as [Hq Hqs].
  unfold unhealthyRun, healthCheckTick.
  set (rt0 := set_connectionStates rt _).
  assert (Ha0 : attemptsOf rt0 name = 0) by exact Ha.
  destruct (quiet_failure env name config rt0 Hsol Hws Hq Hc
              ltac:(rewrite Ha0; unfold maxReconnectAttempts; lia))
    as (rt1 & E1 & Hc1 & Ha1 & Ht1 & Hh1 & Hp1).
  rewrite E1, Ha0 in *.
  assert (Hpend : pendingFor name rt1 = [(name, reconnectDelay * attemptsOf rt1 name)]).
  { unfold pendingFor in *. rewrite Hp1, List.filter_app. unfold rt0.
    cbn [reconnectTimeouts set_connectionStates]. rewrite Hp. cbn.
    rewrite String.eqb_refl, Ha1. reflexivity. }
  destruct (fireRetries_quiet name config rest Hsol Hws rt1 Hqs Hc1
              ltac:(rewrite Ha1, Hlen; unfold maxReconnectAttempts; lia) Hpend Ht1 Hh1)
    as (rt5 & E5 & Hc5 & Ha5 & Hp5 & Ht5 & Hh5).
  rewrite E5, Ha1, Hlen. exists rt5.
  assert (Hg : givenUp name rt5).
  { unfold givenUp. rewrite Ha5, Ha1, Hlen. unfold maxReconnectAttempts.
    split; [cbn; lia | auto]. }
  split; [reflexivity |].
  split; [cbn; rewrite String.eqb_refl; reflexivity |].
  split; [reflexivity |]. split; [reflexivity |]. split; [exact Hg |].
  intros later rt' Hrun.
  destruct (autoRun_givenUp name rt5 later rt' Hg Hrun). auto.
Qed.

(** C7, counterexample: on a WebSocket chain whose node is down the five
    attempts wait 0, 5, 10, 15 and 20 seconds, not 5 to 25. *)
Lemma reconnect_delays_differ : ~ reconnect_bound_claim.
Proof.
  intros H.
  specialize (H "ethereum" wsConfig [nodeDown; nodeDown; nodeDown; nodeDown; nodeDown]
                eq_refl eq_refl).
  destruct (unhealthyRun _ _ _) as [rt' effects] eqn:E.
  destruct H as [Hw _].
  assert (Heff : waits effects = [0; 5000; 10000; 15000; 20000]).
  { replace effects with (snd (unhealthyRun [nodeDown; nodeDown; nodeDown; nodeDown; nodeDown]
                                 "ethereum" (connected "ethereum" wsConfig)))
      by (rewrite E; reflexivity).
    vm_compute. reflexivity. }
  rewrite Heff in Hw. discriminate Hw.
Qed.

(** On a chain with an HTTP provider (and on Solana) [addBlockchain] sets
    the attempt counter back to 0 inside every attempt, so a node that stays
    down is retried without bound: every attempt is "attempt 1". *)
Lemma http_chain_never_gives_up :
  attemptsStarted "ethereum"
    (snd (unhealthyRun [nodeDown; nodeDown; nodeDown; nodeDown; nodeDown; nodeDown; nodeDown]
            "ethereum" (connected "ethereum" httpConfig))) = [1; 1; 1; 1; 1; 1; 1].
Proof. vm_compute. reflexivity. Qed.

(** ** Order of application on the instruction-based source *)

Lemma firstn_add {A} (n k : nat) (l : list A) :
  firstn (n + k) l = firstn n l ++ firstn k (skipn n l).
Proof.
  revert l. induction n as [| n IH]; intros l; [reflexivity |].
  destruct l as [| x t]; cbn.
  - destruct k; reflexivity.
  - rewrite IH. reflexivity.
Qed.

(** What the pagination loop collects: the in-range signatures of a prefix
    of the history, in the order of the history. *)
Lemma collectSignatures_prefix pageThrows fromBlock toBlock pageIndex older allSignatures all :
  collectSignatures pageThrows fromBlock toBlock pageIndex older allSignatures
    = Collected all ->
  exists k,
    all = allSignatures ++
          map signature (List.filter (inRange fromBlock toBlock) (firstn k older)).
Proof.
  funelim (collectSignatures pageThrows fromBlock toBlock pageIndex older allSignatures);
    intros Hres; clear Heqcall.
  - discriminate Hres.
  - injection Hres as <-. exists 0%nat. cbn. rewrite app_nil_r. reflexivity.
  - destruct (Z.ltb (slot first) fromBlock).
    { injection Hres as <-. exists 0%nat. cbn. rewrite app_nil_r. reflexivity. }
    destruct (Z.ltb _ fromBlock).
    { injection Hres as <-. exists pageLimit. reflexivity. }
    destruct (Nat.ltb _ pageLimit).
    { injection Hres as <-. exists pageLimit. reflexivity. }
    destruct (H _ Hres) as (k & ->).
    exists (pageLimit + k)%nat.
    rewrite firstn_add, List.filter_app, map_app, app_assoc. reflexivity.
Qed.

Lemma newestFirst_firstn k l : newestFirst l -> newestFirst (firstn k l).
Proof.
  revert l. induction k as [| k IH]; intros [| x t]; cbn; auto.
  intros [Hx Ht]. split; [| auto].
  apply List.Forall_forall. intros y Hy. rewrite List.Forall_forall in Hx. apply Hx.
  revert Hy. clear. revert t. induction k as [| k IH]; intros [| z t]; cbn; try tauto.
  intros [-> | Hy]; auto.
Qed.

Lemma newestFirst_filter p l : newestFirst l -> newestFirst (List.filter p l).
Proof.
  induction l as [| x t IH]; cbn; [auto |].
  intros [Hx Ht]. destruct (p x); cbn; [| auto].
  split; [| auto]. apply List.Forall_forall. intros y Hy. apply filter_In in Hy.
  rewrite List.Forall_forall in Hx. apply Hx. tauto.
Qed.

Lemma oldestFirst_snoc l x :
  oldestFirst l -> Forall (fun y => slot y <= slot x) l -> oldestFirst (l ++ [x]).
Proof.
  induction l as [| y t IH]; cbn; [auto |].
  intros [Hy Ht] Hall. inversion Hall as [| ? ? Hyx Hall']; subst.
  split; [| auto]. apply List.Forall_app. split; [exact Hy | constructor; auto].
Qed.

Lemma newestFirst_rev l : newestFirst l -> oldestFirst (rev l).
Proof.
  induction l as [| x t IH]; cbn; [auto |].
  intros [Hx Ht]. apply oldestFirst_snoc; [auto |].
  apply List.Forall_forall. intros y Hy. rewrite List.Forall_forall in Hx. apply Hx.
  apply List.in_rev. exact Hy.
Qed.

(** C8. A successful backfill from the instruction-based source applies the
    fetched signatures in the reverse of the order in which the history API
    returned them: what it fetched is the in-range part of a prefix of the
    newest-first history, and what it applies, one transaction after the
    other on the same store, is that list reversed, so oldest first.  In the
    example the transaction that opens round 7 (and carries the first-ticket
    bonus) is applied before the later purchase although the API lists it
    last, and the Round row collects the amounts of both purchases; applied
    in the order of the API the later purchase would find no Round and its
    amounts would be lost. *)
Theorem solana_backfill_applies_oldest_first :
  (forall chain name fromBlock toBlock isHistorical s,
     let b := fetchSolanaTransactions chain name fromBlock toBlock isHistorical s in
     sb_result b = true ->
     exists (k : nat),
       let fetched := List.filter (inRange fromBlock toBlock) (firstn k (sol_history chain)) in
       sb_applied b = map signature (rev fetched) /\
       sb_store b =
         fst (updateLastSyncedBlock name (sol_programId chain) toBlock
                (fold_left (fun st sig => processSignature chain name isHistorical sig st)
                           (map signature (rev fetched)) s)) /\
       (newestFirst (sol_history chain) -> oldestFirst (rev fetched))) /\
  (let b := fetchSolanaTransactions demoSolana "solana" 0 100 true emptyStore in
   sb_applied b = ["sigA"; "sigB"] /\
   roundAmounts (sb_store b) = [(7, Some 135, Some 15)] /\
   roundAmounts (fold_left (fun st sig => processSignature demoSolana "solana" true sig st)
                   ["sigB"; "sigA"] emptyStore) = [(7, Some 90, Some 10)]).
Proof.
  split.
  - intros chain name fromBlock toBlock isHistorical s b Hres. subst b.
    unfold fetchSolanaTransactions in *.
    destruct (collectSignatures (sol_pageThrows chain) fromBlock toBlock 0
                (sol_history chain) []) as [| all] eqn:E; [discriminate Hres |].
    destruct (collectSignatures_prefix _ _ _ _ _ _ _ E) as (k & ->).
    exists k. cbn [sb_applied sb_store app]. rewrite map_rev.
    split; [reflexivity |]. split; [reflexivity |].
    intros Hnew. apply newestFirst_rev, newestFirst_filter, newestFirst_firstn, Hnew.
  - vm_compute. repeat split; reflexivity.
Qed.

(** ** Health probe *)

Lemma find_target (contract : string) instances :
  In contract instances ->
  find (fun target => String.eqb target contract) instances = Some contract.
Proof.
  induction instances as [| x t IH]; cbn; [tauto |].
  destruct (String.eqb_spec x contract) as [-> | Hne]; [reflexivity |].
  intros [-> | Hin]; [contradiction | auto].
Qed.

(** C9, as the code has it.  On an EVM chain with a WebSocket provider the
    probe compares (height - cursor) with the threshold for the first
    configured contract.  When the lag exceeds the threshold it runs the
    backfill of [cursor + 1, height] for that contract and reports what the
    backfill returned: healthy when it succeeded, unhealthy when it failed.
    Otherwise it reports healthy and starts no backfill.  With threshold 5
    and cursor 100 this is a backfill of exactly [101, 107] at height 107 and
    none at height 104. *)
Theorem health_probe_catches_up :
  forall chain solana rt name config contract cursor height s,
    providers rt !! name = Some WebSocketProvider ->
    configs rt !! name = Some config ->
    (exists others, cfg_contractAddresses config = contract :: others) ->
    contracts rt !! name = Some (cfg_contractAddresses config) ->
    getLastSyncedBlock s name contract = Some cursor ->
    let p := checkConnectionHealth chain solana (Some height) rt name s in
    let b := fetchHistoricalEvents chain (Some (cfg_chainId config)) name contract
               (cursor + 1) height s in
    (height - cursor > syncThresholdBlocks rt ->
     probe_backfill p = Some (contract, cursor + 1, height) /\
     probe_healthy p = bf_result b /\ probe_store p = bf_store b) /\
    (height - cursor <= syncThresholdBlocks rt ->
     probe_backfill p = None /\ probe_healthy p = true /\ probe_store p = s).
Proof.
  intros chain solana rt name config contract cursor height s Hp Hc (others & Ha) Hi Hl p b.
  subst p b. unfold checkConnectionHealth. rewrite Hp, Hc, Ha, Hl, Hi, Ha.
  rewrite (find_target contract (contract :: others)) by (left; reflexivity).
  split; intros Hlag.
  - destruct (Z.gtb (height - cursor) (syncThresholdBlocks rt)) eqn:E.
    + cbn. auto.
    + rewrite Z.gtb_ltb in E. apply Z.ltb_ge in E. lia.
  - destruct (Z.gtb (height - cursor) (syncThresholdBlocks rt)) eqn:E.
    + rewrite Z.gtb_ltb in E. apply Z.ltb_lt in E. lia.
    + cbn. auto.
Qed.

(** C9, counterexample: the node answers the catch-up queries, the
    backfill of [101, 107] succeeds and the probe reports healthy. *)
Lemma lagging_probe_reports_healthy : ~ health_probe_claim.
Proof.
  intros H.
  destruct (H quietChain demoSolana (connected "ethereum" wsConfig) "ethereum" wsConfig
              "0xC" cursorAt100) as [[Hbad _] _].
  - repeat split; try (vm_compute; reflexivity).
    + left. vm_compute. reflexivity.
    + exists []. reflexivity.
  - reflexivity.
  - vm_compute in Hbad. discriminate Hbad.
Qed.

(** On a chain with an HTTP provider the probe asks for the block number
    and nothing else: however far the cursor lags, it reports healthy and
    starts no backfill. *)
Lemma http_probe_skips_lag_check chain solana rt name height s :
  providers rt !! name = Some JsonRpcProvider ->
  checkConnectionHealth chain solana (Some height) rt name s = mkProbe true s None.
Proof. intros Hp. unfold checkConnectionHealth. rewrite Hp. reflexivity. Qed.

(** C10. The probe of an EVM chain looks at the first configured contract
    address only: a backfill it starts is for that contract, from the
    position after that contract's cursor, and whatever is written to the
    cursor of any other contract of the chain leaves the probe's decision
    and the range of its backfill as they were. *)
Theorem health_probe_checks_first_contract_only :
  forall chain solana height rt name config first others s,
    providers rt !! name <> Some Connection ->
    configs rt !! name = Some config ->
    cfg_contractAddresses config = first :: others ->
    (forall contract fromBlock toBlock,
       probe_backfill (checkConnectionHealth chain solana height rt name s)
         = Some (contract, fromBlock, toBlock) ->
       contract = first /\
       getLastSyncedBlock s name first = Some (fromBlock - 1) /\
       height = Some toBlock) /\
    (forall other position,
       other <> first ->
       probe_backfill
         (checkConnectionHealth chain solana height rt name
            (fst (updateLastSyncedBlock name other position s))) =
       probe_backfill (checkConnectionHealth chain solana height rt name s)).
Proof.
  intros chain solana height rt name config first others s Hp Hc Ha.
  assert (Hshape : forall st,
            probe_backfill (checkConnectionHealth chain solana height rt name st) =
            match providers rt !! name, height, getLastSyncedBlock st name first with
            | Some WebSocketProvider, Some blockNumber, Some lastSyncedBlock =>
                if Z.gtb (blockNumber - lastSyncedBlock) (syncThresholdBlocks rt) then
                  match contracts rt !! name with
                  | Some instances =>
                      match find (fun target => String.eqb target first) instances with
                      | Some contract => Some (contract, lastSyncedBlock + 1, blockNumber)
                      | None => None
                      end
                  | None => None
                  end
                else None
            | _, _, _ => None
            end).
  { intros st. unfold checkConnectionHealth. rewrite Hc, Ha.
    destruct (providers rt !! name) as [[] |]; try reflexivity; try contradiction.
    - destruct height as [blockNumber |]; [| reflexivity].
      destruct (getLastSyncedBlock st name first); [| reflexivity].
      destruct (Z.gtb _ _); [| reflexivity].
      destruct (contracts rt !! name) as [instances |]; [| reflexivity].
      destruct (find _ instances); reflexivity.
    - destruct height; reflexivity. }
  split.
  - intros contract fromBlock toBlock. rewrite Hshape.
    destruct (providers rt !! name) as [[] |]; try discriminate.
    destruct height as [blockNumber |]; [| discriminate].
    destruct (getLastSyncedBlock s name first) as [last |]; [| discriminate].
    destruct (Z.gtb _ _); [| discriminate].
    destruct (contracts rt !! name) as [instances |]; [| discriminate].
    destruct (find _ instances) as [c |] eqn:Ef; [| discriminate].
    intros H. injection H as -> <- ->.
    destruct (find_some_holds _ _ _ Ef) as [Heq _]. apply String.eqb_eq in Heq.
    repeat split; auto. f_equal. lia.
  - intros other position Hne. rewrite !Hshape.
    rewrite cursor_write_other; [reflexivity |].
    intros H. injection H as H. congruence.
Qed.

(** ** The scenarios of the specification, evaluated *)

Example streak_example :
  streakOf afterRound5 5 = Some (false, 0) /\
  streakOf afterRound6 6 = Some (true, 1) /\
  streakOf afterRound8 8 = Some (false, 0).
Proof. vm_compute. repeat split; reflexivity. Qed.

Lemma ticket_purchase_redelivery_witness :
  deliveryFits (EvmTicketPurchased "0xT" 1 "0xB" 3 300 1700000000 1 "0xA" 50
                  "ethereum" "0xC" 0) = true /\
  aggregatesFit (fst (processTicketPurchasedEvent "0xT" 1 "0xB" 3 300 1700000000 1 "0xA" 50
                        "ethereum" "0xC" 0 emptyStore)) = true /\
  hasTicketPurchase emptyStore "0xA" 0 = false /\
  (let apply := processTicketPurchasedEvent "0xT" 1 "0xB" 3 300 1700000000 1 "0xA" 50
                  "ethereum" "0xC" 0 in
   let once := fst (apply emptyStore) in
   let twice := fst (apply once) in
   length (ticketPurchaseRows once "0xA" 0) = 1%nat /\
   length (ticketPurchaseRows twice "0xA" 0) = 1%nat /\
   ticketCountOf twice "0xB" "0xT" 1 "0xC" = ticketCountOf emptyStore "0xB" "0xT" 1 "0xC" + 3).
Proof.
  split; [reflexivity |]. split; [reflexivity |]. split; [reflexivity |].
  exact (proj2 (proj1 ticket_purchase_redelivery_is_noop "0xT" 1 "0xB" 3 300 1700000000 1
                  "0xA" 50 "ethereum" "0xC" 0 emptyStore eq_refl eq_refl) eq_refl).
Defined.

Lemma purchase_sets_streak_witness :
  reachable afterRound5 /\
  hasTicketPurchase afterRound5 "0xA6" 0 = false /\
  deliveryFits (EvmTicketPurchased "0xT" 6 "0xB" 1 10 1700000006 1 "0xA6" 60
                  "ethereum" "0xC" 0) = true /\
  aggregatesFit (fst (processTicketPurchasedEvent "0xT" 6 "0xB" 1 10 1700000006 1 "0xA6" 60
                        "ethereum" "0xC" 0 afterRound5)) = true /\
  exists row,
    statsRow (fst (processTicketPurchasedEvent "0xT" 6 "0xB" 1 10 1700000006 1 "0xA6" 60
                     "ethereum" "0xC" 0 afterRound5)) "0xB" "0xT" 6 "0xC" = Some row /\
    streakRule afterRound5 "0xB" "0xT" 6 "0xC" row.
Proof.
  assert (Hreach : reachable afterRound5) by apply reachable_deliver, reachable_empty.
  split; [exact Hreach |]. split; [reflexivity |].
  split; [reflexivity |]. split; [reflexivity |].
  exact (proj1 (purchase_sets_streak afterRound5 Hreach) "0xT" 6 "0xB" 1 10 1700000006 1
           "0xA6" 60 "ethereum" "0xC" 0 eq_refl eq_refl eq_refl).
Defined.


Lemma cursor_write_overwrites_witness :
  107 <> 0 /\ "ethereum" <> "" /\ "0xC" <> "" /\
  getLastSyncedBlock cursorAt100 "ethereum" "0xC" = Some 100 /\
  getLastSyncedBlock (fst (updateLastSyncedBlock "ethereum" "0xC" 107 cursorAt100))
    "ethereum" "0xC" = Some 107.
Proof.
  assert (H1 : 107 <> 0) by discriminate.
  assert (H2 : "ethereum" <> "") by discriminate.
  assert (H3 : "0xC" <> "") by discriminate.
  repeat (split; [assumption |]). split; [reflexivity |].
  exact (proj1 (proj1 (proj2 (cursor_write_overwrites "ethereum" "0xC" 107 cursorAt100))
                  H1 H2 H3)).
Defined.

Lemma forceReconnect_keeps_the_count_witness :
  (maxReconnectAttempts <= attemptsOf (exhausted "ethereum" wsConfig) "ethereum" /\
   forceReconnect nodeDown "ethereum" (exhausted "ethereum" wsConfig) =
     (exhausted "ethereum" wsConfig, [], true)) /\
  (configs (connected "ethereum" wsConfig) !! "ethereum" = Some wsConfig /\
   attemptsOf (connected "ethereum" wsConfig) "ethereum" < maxReconnectAttempts /\
   exists rt' outcome,
     forceReconnect nodeDown "ethereum" (connected "ethereum" wsConfig) =
       (rt', [AttemptStarted "ethereum"
                (attemptsOf (connected "ethereum" wsConfig) "ethereum" + 1);
              Waited "ethereum"
                (reconnectDelay * attemptsOf (connected "ethereum" wsConfig) "ethereum");
              outcome], true) /\
     (attemptSucceeds nodeDown = true ->
      outcome = Reconnected "ethereum" /\ attemptsOf rt' "ethereum" = 0) /\
     (attemptSucceeds nodeDown = false ->
      outcome = RetryScheduled "ethereum"
                  (reconnectDelay *
                   (attemptsOf (connected "ethereum" wsConfig) "ethereum" + 1)) /\
      attemptsOf rt' "ethereum" =
        if resetInside nodeDown "ethereum" wsConfig then 0
        else attemptsOf (connected "ethereum" wsConfig) "ethereum" + 1)).
Proof.
  assert (H : maxReconnectAttempts <= attemptsOf (exhausted "ethereum" wsConfig) "ethereum").
  { vm_compute. discriminate. }
  assert (Hc : configs (connected "ethereum" wsConfig) !! "ethereum" = Some wsConfig).
  { vm_compute. reflexivity. }
  assert (Hlt : attemptsOf (connected "ethereum" wsConfig) "ethereum" < maxReconnectAttempts).
  { vm_compute. reflexivity. }
  split.
  - split; [exact H |].
    exact (proj1 (forceReconnect_keeps_the_count nodeDown "ethereum"
                    (exhausted "ethereum" wsConfig)) H).
  - split; [exact Hc |]. split; [exact Hlt |].
    exact (proj2 (forceReconnect_keeps_the_count nodeDown "ethereum"
                    (connected "ethereum" wsConfig)) wsConfig Hc Hlt).
Defined.

Lemma reconnect_bound_as_built_witness :
  exists rt5,
    unhealthyRun [nodeDown; nodeDown; nodeDown; nodeDown; nodeDown] "ethereum"
      (connected "ethereum" wsConfig) = (rt5, failedAttempts "ethereum" 0 5) /\
    attemptsStarted "ethereum" (failedAttempts "ethereum" 0 5) = [1; 2; 3; 4; 5] /\
    waits (failedAttempts "ethereum" 0 5) = [0; 5000; 10000; 15000; 20000] /\
    retriesScheduled (failedAttempts "ethereum" 0 5) = [5000; 10000; 15000; 20000; 25000] /\
    givenUp "ethereum" rt5 /\
    forall later rt', autoRun rt5 later rt' ->
      attemptsStarted "ethereum" later = [] /\ givenUp "ethereum" rt'.
Proof.
  apply (reconnect_bound_as_built "ethereum" wsConfig (connected "ethereum" wsConfig)
           [nodeDown; nodeDown; nodeDown; nodeDown; nodeDown]);
    vm_compute; reflexivity.
Defined.

Lemma solana_backfill_witness :
  sb_result (fetchSolanaTransactions demoSolana "solana" 0 100 true emptyStore) = true /\
  exists k : nat,
    let fetched := List.filter (inRange 0 100) (firstn k (sol_history demoSolana)) in
    sb_applied (fetchSolanaTransactions demoSolana "solana" 0 100 true emptyStore)
      = map signature (rev fetched) /\
    sb_store (fetchSolanaTransactions demoSolana "solana" 0 100 true emptyStore) =
      fst (updateLastSyncedBlock "solana" (sol_programId demoSolana) 100
             (fold_left (fun st sig => processSignature demoSolana "solana" true sig st)
                        (map signature (rev fetched)) emptyStore)) /\
    (newestFirst (sol_history demoSolana) -> oldestFirst (rev fetched)).
Proof.
  split; [reflexivity |].
  exact (proj1 solana_backfill_applies_oldest_first demoSolana "solana" 0 100 true
           emptyStore eq_refl).
Defined.

Lemma health_probe_catches_up_witness :
  (let p := checkConnectionHealth quietChain demoSolana (Some 107)
              (connected "ethereum" wsConfig) "ethereum" cursorAt100 in
   probe_backfill p = Some ("0xC", 101, 107) /\
   probe_healthy p =
     bf_result (fetchHistoricalEvents quietChain (Some (cfg_chainId wsConfig)) "ethereum"
                  "0xC" 101 107 cursorAt100)) /\
  (let p := checkConnectionHealth quietChain demoSolana (Some 104)
              (connected "ethereum" wsConfig) "ethereum" cursorAt100 in
   probe_backfill p = None /\ probe_healthy p = true).
Proof.
  assert (Hp : providers (connected "ethereum" wsConfig) !! "ethereum"
               = Some WebSocketProvider) by (vm_compute; reflexivity).
  assert (Hc : configs (connected "ethereum" wsConfig) !! "ethereum" = Some wsConfig)
    by (vm_compute; reflexivity).
  assert (Ha : exists others, cfg_contractAddresses wsConfig = "0xC" :: others)
    by (exists []; reflexivity).
  assert (Hi : contracts (connected "ethereum" wsConfig) !! "ethereum"
               = Some (cfg_contractAddresses wsConfig)) by (vm_compute; reflexivity).
  assert (Hl : getLastSyncedBlock cursorAt100 "ethereum" "0xC" = Some 100)
    by reflexivity.
  split.
  - destruct (proj1 (health_probe_catches_up quietChain demoSolana
                       (connected "ethereum" wsConfig) "ethereum" wsConfig "0xC" 100 107
                       cursorAt100 Hp Hc Ha Hi Hl) ltac:(vm_compute; reflexivity))
      as (H1 & H2 & _).
    split; [exact H1 | exact H2].
  - destruct (proj2 (health_probe_catches_up quietChain demoSolana
                       (connected "ethereum" wsConfig) "ethereum" wsConfig "0xC" 100 104
                       cursorAt100 Hp Hc Ha Hi Hl) ltac:(vm_compute; discriminate))
      as (H1 & H2 & _).
    split; [exact H1 | exact H2].
Defined.

Lemma health_probe_first_contract_witness :
  getLastSyncedBlock
    (fst (updateLastSyncedBlock "ethereum" "0xD" 1 cursorAt100)) "ethereum" "0xD" = Some 1 /\
  probe_backfill
    (checkConnectionHealth quietChain demoSolana (Some 104)
       (connected "ethereum" twoContracts) "ethereum"
       (fst (updateLastSyncedBlock "ethereum" "0xD" 1 cursorAt100))) =
  probe_backfill
    (checkConnectionHealth quietChain demoSolana (Some 104)
       (connected "ethereum" twoContracts) "ethereum" cursorAt100).
Proof.
  split; [reflexivity |].
  refine (proj2 (health_probe_checks_first_contract_only quietChain demoSolana (Some 104)
                   (connected "ethereum" twoContracts) "ethereum" twoContracts "0xC" ["0xD"]
                   cursorAt100 _ _ _) "0xD" 1 _).
  - vm_compute. discriminate.
  - vm_compute. reflexivity.
  - reflexivity.
  - discriminate.
Defined.

(** * Further properties of the code *)

(** ** Retry with backoff *)

Lemma retryLoop_spec {A : Type} (operation : Z -> Attempt A) maxRetries baseDelay attempt :
  attempt <= maxRetries ->
  let r := retryLoop operation maxRetries baseDelay attempt in
  let last := attempt + Z.of_nat (retry_calls r) - 1 in
  attempt <= last <= maxRetries /\
  retry_delays r =
    map (fun i => baseDelay * 2 ^ (attempt - 1 + Z.of_nat i))
        (seq 0 (retry_calls r - 1)) /\
  (forall k, attempt <= k < last -> operation k = RateLimited) /\
  match operation last with
  | Returns a => retry_result r = Returned a
  | Fails => retry_result r = ThrewOther
  | RateLimited => retry_result r = ThrewRateLimit /\ last = maxRetries
  end.
Proof.
  cbv zeta.
  funelim (retryLoop operation maxRetries baseDelay attempt); intros Hle; clear Heqcall.
  - lia.
  - cbn. replace (attempt + Z.of_nat 1 - 1) with attempt by lia. rewrite Heq.
    repeat split; try lia.
  - destruct (Z.eqb attempt maxRetries) eqn:E.
    + apply Z.eqb_eq in E. cbn. replace (attempt + Z.of_nat 1 - 1) with attempt by lia. rewrite Heq.
      repeat split; try lia.
    + apply Z.eqb_neq in E.
      destruct (H ltac:(lia)) as ((H1 & H2) & H3 & H4 & H5).
      set (rest := retryLoop operation maxRetries baseDelay (attempt + 1)) in *.
      cbn [retry_calls retry_delays retry_result].
      replace (attempt + Z.of_nat (S (retry_calls rest)) - 1)
        with (attempt + 1 + Z.of_nat (retry_calls rest) - 1) by lia.
      split; [lia |]. split; [| split; [| exact H5]].
      * destruct (retry_calls rest) as [| n]; [lia |].
        replace (S (S n) - 1)%nat with (S n) by lia.
        replace (S n - 1)%nat with n in H3 by lia.
        cbn [seq map]. f_equal.
        { f_equal. f_equal. lia. }
        rewrite H3, <- seq_shift, map_map. apply map_ext. intros i. f_equal. f_equal. lia.
      * intros k Hk. destruct (Z.eq_dec k attempt) as [-> | Hne]; [exact Heq |].
        apply H4. lia.
  - cbn. replace (attempt + Z.of_nat 1 - 1) with attempt by lia. rewrite Heq.
    repeat split; try lia.
Qed.

(** X1. [retryWithBackoff] with at least one try allowed calls the operation
    between 1 and [maxRetries] times; every call before the last one hit the
    rate limit and was followed by a wait of [baseDelay * 2^(attempt - 1)];
    the last call decides the result: its value, its error at once when it is
    not a rate-limit error, or the rate-limit error when that was try number
    [maxRetries].  'Max retries exceeded' is raised only when [maxRetries]
    is below 1, and then the operation is not called at all. *)
Theorem retryWithBackoff_bounded :
  forall (A : Type) (operation : Z -> Attempt A) maxRetries baseDelay,
    (1 <= maxRetries ->
     let r := retryWithBackoff operation maxRetries baseDelay in
     let calls := Z.of_nat (retry_calls r) in
     1 <= calls <= maxRetries /\
     retry_delays r =
       map (fun i => baseDelay * 2 ^ Z.of_nat i) (seq 0 (retry_calls r - 1)) /\
     (forall k, 1 <= k < calls -> operation k = RateLimited) /\
     match operation calls with
     | Returns a => retry_result r = Returned a
     | Fails => retry_result r = ThrewOther
     | RateLimited => retry_result r = ThrewRateLimit /\ calls = maxRetries
     end) /\
    (maxRetries < 1 ->
     retryWithBackoff operation maxRetries baseDelay = mkRetryRun ThrewMaxRetries 0 []).
Proof.
  intros A operation maxRetries baseDelay. split.
  - intros Hle. cbv zeta. unfold retryWithBackoff.
    destruct (retryLoop_spec operation maxRetries baseDelay 1 Hle) as (H1 & H2 & H3 & H4).
    cbv zeta in *.
    replace (1 + Z.of_nat (retry_calls (retryLoop operation maxRetries baseDelay 1)) - 1)
      with (Z.of_nat (retry_calls (retryLoop operation maxRetries baseDelay 1))) in * by lia.
    split; [lia |]. split; [| split; [exact H3 | exact H4]].
    rewrite H2. apply map_ext. intros i. f_equal.
  - intros Hlt. unfold retryWithBackoff. rewrite retryLoop_equation_1.
    destruct (Z_le_dec 1 maxRetries); [lia | reflexivity].
Qed.

(** ** Deployment block *)

Lemma half_between a b : a <= b -> a <= (a + b) / 2 <= b.
Proof.
  intros H.
  pose proof (Z.mul_div_le (a + b) 2 ltac:(lia)).
  pose proof (Z.mul_succ_div_gt (a + b) 2 ltac:(lia)). lia.
Qed.

Lemma deploymentSearch_spec codeAt startBlock endBlock d :
  startBlock <= d <= endBlock + 1 ->
  (forall b, startBlock <= b <= endBlock -> codeAt b = (d <=? b)) ->
  deploymentSearch codeAt startBlock endBlock = d.
Proof.
  funelim (deploymentSearch codeAt startBlock endBlock); intros Hd Hcode; clear Heqcall.
  - pose proof (half_between startBlock endBlock l) as Hmid.
    rewrite (Hcode _ Hmid).
    destruct (Z.leb d ((startBlock + endBlock) / 2)) eqn:E.
    + apply Z.leb_le in E. apply H; [lia |]. intros b Hb. apply Hcode. lia.
    + apply Z.leb_gt in E. apply H0; [lia |]. intros b Hb. apply Hcode. lia.
  - lia.
Qed.

Lemma deploymentSearch_range codeAt startBlock endBlock :
  startBlock <= endBlock + 1 ->
  startBlock <= deploymentSearch codeAt startBlock endBlock <= endBlock + 1.
Proof.
  funelim (deploymentSearch codeAt startBlock endBlock); intros Hle; clear Heqcall.
  - pose proof (half_between startBlock endBlock l) as Hmid.
    destruct (codeAt ((startBlock + endBlock) / 2)).
    + specialize (H ltac:(lia)). lia.
    + specialize (H0 ltac:(lia)). lia.
  - lia.
Qed.

(** X2. [getDeploymentBlock] answers 0 for an address without code at the
    latest block.  Otherwise, when the contract has code from block [d] on
    and none before (as a deployed contract has), the binary search returns
    exactly [d]; whatever the node answers, the result lies between 0 and
    one past the latest block. *)
Theorem getDeploymentBlock_finds_first_block_with_code :
  forall codeAt blockNumber,
    getDeploymentBlock false codeAt blockNumber = 0 /\
    (0 <= blockNumber -> 0 <= getDeploymentBlock true codeAt blockNumber <= blockNumber + 1) /\
    (forall d, 0 <= d <= blockNumber + 1 ->
               (forall b, 0 <= b <= blockNumber -> codeAt b = (d <=? b)) ->
               getDeploymentBlock true codeAt blockNumber = d).
Proof.
  intros codeAt blockNumber. unfold getDeploymentBlock. cbn [negb].
  split; [reflexivity |]. split.
  - intros H. apply deploymentSearch_range. lia.
  - intros d Hd Hcode. apply deploymentSearch_spec; assumption.
Qed.


(** ** Where a backfill leaves the cursor *)

Lemma processed_cursor chain chainId name contractAddress cs :
  forall s start,
    cs <> [] ->
    processedInOrder chain chainId name contractAddress s cs ->
    getLastSyncedBlock (storeAfter s cs) name contractAddress = Some (endAfter start cs).
Proof.
  induction cs as [| c rest IH]; intros s start Hne Hp; [contradiction |].
  cbn in Hp |- *. destruct Hp as (_ & _ & Hcur & Hrest).
  destruct rest as [| c' rest'].
  - cbn. rewrite Hcur. f_equal. lia.
  - apply IH; [discriminate | exact Hrest].
Qed.

Lemma chunkLoop_failure chain chainId name contractAddress toBlock currentFrom s :
  let b := chunkLoop chain chainId name contractAddress toBlock currentFrom s in
  currentFrom - 1 <= endAfter currentFrom (bf_chunks b) /\
  (bf_result b = false -> endAfter currentFrom (bf_chunks b) < toBlock).
Proof.
  cbv zeta.
  funelim (chunkLoop chain chainId name contractAddress toBlock currentFrom s);
    clear Heqcall.
  - cbn. split; [lia | discriminate].
  - cbn [bf_chunks bf_result endAfter chunk_to].
    destruct H as [H1 H2]. split; [| exact H2].
    unfold maxBlockRange in *. lia.
  - cbn. split; lia.
Qed.

Lemma chunkLoop_count chain chainId name contractAddress toBlock currentFrom s :
  currentFrom <= toBlock + 1 ->
  let b := chunkLoop chain chainId name contractAddress toBlock currentFrom s in
  bf_result b = true ->
  Z.of_nat (length (bf_chunks b)) = (toBlock - currentFrom + maxBlockRange) / maxBlockRange.
Proof.
  cbv zeta.
  funelim (chunkLoop chain chainId name contractAddress toBlock currentFrom s);
    intros Hle Hres; clear Heqcall.
  - cbn. symmetry. apply Z.div_small. unfold maxBlockRange. lia.
  - cbn [bf_chunks bf_result length] in *.
    rewrite Nat2Z.inj_succ, H; [| unfold maxBlockRange; lia | exact Hres].
    unfold maxBlockRange.
    destruct (Z_le_dec (currentFrom + 10000 - 1) toBlock) as [Hfull | Hlast].
    + rewrite Z.min_l by lia.
      replace (toBlock - currentFrom + 10000) with (toBlock - (currentFrom + 10000 - 1 + 1) + 10000 + 1 * 10000) by lia.
      rewrite Z.div_add by lia. lia.
    + rewrite Z.min_r by lia.
      replace (toBlock - (toBlock + 1) + 10000) with 9999 by lia.
      replace (toBlock - currentFrom + 10000) with ((toBlock - currentFrom) + 1 * 10000) by lia.
      rewrite Z.div_add by lia. rewrite (Z.div_small (toBlock - currentFrom)) by lia.
      reflexivity.
  - discriminate Hres.
Qed.

(** X3. Where a backfill of an EVM contract leaves the stored cursor.  When
    it returns true the cursor reads as the last block of the range.  When it
    returns false, either no chunk was completed and the store is untouched,
    or the store is the one the last completed chunk left: its cursor reads
    as that chunk's end, which lies inside the range and before its last
    block, so a later backfill from cursor + 1 resumes at the chunk that
    failed. *)
Theorem backfill_cursor_on_success_and_failure :
  forall chain chainId name contractAddress fromBlock toBlock s,
    name <> "" -> contractAddress <> "" -> 0 <= fromBlock -> 0 < toBlock ->
    let b := fetchHistoricalEvents chain chainId name contractAddress fromBlock toBlock s in
    (bf_result b = true ->
     getLastSyncedBlock (bf_store b) name contractAddress = Some toBlock) /\
    (bf_result b = false ->
     (bf_chunks b = [] /\ bf_store b = s) \/
     (bf_chunks b <> [] /\
      fromBlock <= endAfter fromBlock (bf_chunks b) < toBlock /\
      getLastSyncedBlock (bf_store b) name contractAddress =
        Some (endAfter fromBlock (bf_chunks b)))).
Proof.
  intros chain chainId name contractAddress fromBlock toBlock s Hname Hc Hfrom Hto.
  cbv zeta. unfold fetchHistoricalEvents.
  destruct (Z.leb (toBlock - fromBlock + 1) maxBlockRange) eqn:E.
  - destruct (queryFilter chain contractAddress fromBlock toBlock) as [allEvents |].
    + cbn. split; [| discriminate]. intros _. apply cursor_after_write; auto. lia.
    + cbn. split; [discriminate |]. intros _. left. auto.
  - apply Z.leb_gt in E.
    destruct (chunkLoop_correct chain chainId name contractAddress toBlock fromBlock s
                Hname Hc Hfrom Hto) as (H1 & H2 & H3 & H4 & _).
    destruct (chunkLoop_failure chain chainId name contractAddress toBlock fromBlock s)
      as (H5 & H6).
    set (b := chunkLoop chain chainId name contractAddress toBlock fromBlock s) in *.
    split.
    + intros Hres. specialize (H4 Hres ltac:(unfold maxBlockRange in E; lia)).
      rewrite H3, <- H4. apply (processed_cursor chain chainId); [| exact H2].
      intros Hnil. rewrite Hnil in H4. cbn in H4. unfold maxBlockRange in E. lia.
    + intros Hres. specialize (H6 Hres).
      destruct (bf_chunks b) as [| c rest] eqn:Hchunks; [left | right].
      * split; [reflexivity |]. rewrite H3. reflexivity.
      * split; [discriminate |]. split.
        -- split; [| exact H6]. cbn in H1 |- *. destruct H1 as (Hc1 & Hc2 & _ & _ & Hrest).
           clear - Hc1 Hc2 Hrest.
           assert (G : forall cs start, chunksFrom start toBlock cs ->
                         start - 1 <= endAfter start cs).
           { induction cs as [| x t IH]; intros start Hx; cbn in *; [lia |].
             destruct Hx as (? & ? & ? & ? & Ht). specialize (IH _ Ht). lia. }
           specialize (G _ _ Hrest). lia.
        -- rewrite H3. apply (processed_cursor chain chainId); [discriminate | exact H2].
Qed.

(** X4. A chunked backfill that returns true has run exactly the number of
    chunks its log lines announce, [Math.ceil(totalBlocks / maxBlockRange)]. *)
Theorem backfill_runs_the_announced_number_of_chunks :
  forall chain chainId name contractAddress fromBlock toBlock s,
    toBlock - fromBlock + 1 > maxBlockRange ->
    let b := fetchHistoricalEvents chain chainId name contractAddress fromBlock toBlock s in
    bf_result b = true ->
    Z.of_nat (length (bf_chunks b)) = totalChunks fromBlock toBlock.
Proof.
  intros chain chainId name contractAddress fromBlock toBlock s Hspan. cbv zeta.
  unfold fetchHistoricalEvents, totalChunks.
  destruct (Z.leb (toBlock - fromBlock + 1) maxBlockRange) eqn:E.
  { apply Z.leb_le in E. lia. }
  intros Hres.
  rewrite (chunkLoop_count chain chainId name contractAddress toBlock fromBlock s)
    by (try exact Hres; unfold maxBlockRange in Hspan; lia).
  f_equal. lia.
Qed.

(** ** Completeness of the instruction-based backfill *)

Lemma filter_inRange_below fromBlock toBlock l :
  Forall (fun y => slot y < fromBlock) l ->
  List.filter (inRange fromBlock toBlock) l = [].
Proof.
  induction l as [| x t IH]; intros H; [reflexivity |].
  inversion H as [| ? ? Hx Ht]; subst. cbn.
  unfold inRange at 1.
  destruct (Z.leb fromBlock (slot x)) eqn:E; [apply Z.leb_le in E; lia |].
  cbn. apply IH, Ht.
Qed.

Lemma newestFirst_app l1 l2 :
  newestFirst (l1 ++ l2) ->
  newestFirst l2 /\
  forall x y, In x l1 -> In y l2 -> slot y <= slot x.
Proof.
  induction l1 as [| a t IH]; cbn; intros H.
  - split; [exact H | intros x y []].
  - destruct H as [Ha Ht]. destruct (IH Ht) as [H2 Hxy]. split; [exact H2 |].
    intros x y [<- | Hx] Hy.
    + rewrite List.Forall_forall in Ha. apply Ha. apply in_or_app. right. exact Hy.
    + apply Hxy; assumption.
Qed.

Lemma last_in {A} (l : list A) (d : A) : l <> [] -> In (List.last l d) l.
Proof.
  induction l as [| x t IH]; intros Hne; [contradiction |].
  destruct t as [| y t']; [left; reflexivity |].
  right. apply IH. discriminate.
Qed.

Lemma collectSignatures_complete pageThrows fromBlock toBlock pageIndex older allSignatures all :
  newestFirst older ->
  collectSignatures pageThrows fromBlock toBlock pageIndex older allSignatures
    = Collected all ->
  all = allSignatures ++ map signature (List.filter (inRange fromBlock toBlock) older).
Proof.
  funelim (collectSignatures pageThrows fromBlock toBlock pageIndex older allSignatures);
    intros Hsorted Hres; clear Heqcall.
  - discriminate Hres.
  - injection Hres as <-. cbn. rewrite app_nil_r. reflexivity.
  - set (older := first :: more) in *.
    assert (Hsplit : older = firstn pageLimit older ++ skipn pageLimit older)
      by (symmetry; apply firstn_skipn).
    assert (Hsorted' := Hsorted). rewrite Hsplit in Hsorted'.
    apply newestFirst_app in Hsorted'. destruct Hsorted' as [Hrest Hcross].
    assert (Hlast : In (List.last (firstn pageLimit older) first) (firstn pageLimit older)).
    { apply last_in. unfold older, pageLimit. cbn. discriminate. }
    assert (Hlen : length (firstn pageLimit older) = Nat.min pageLimit (length older))
      by apply length_firstn.
    remember (firstn pageLimit older) as page eqn:Hpage.
    remember (skipn pageLimit older) as rest eqn:Hrst.
    destruct (Z.ltb (slot first) fromBlock) eqn:E1.
    { injection Hres as <-. apply Z.ltb_lt in E1.
      rewrite filter_inRange_below; [cbn; rewrite app_nil_r; reflexivity |].
      unfold older. destruct Hsorted as [Hfirst _].
      constructor; [exact E1 |].
      apply List.Forall_forall. intros y Hy. rewrite List.Forall_forall in Hfirst.
      specialize (Hfirst y Hy). lia. }
    destruct (Z.ltb (slot (List.last page first)) fromBlock) eqn:E2.
    { injection Hres as <-. apply Z.ltb_lt in E2.
      f_equal. f_equal.
      rewrite Hsplit, List.filter_app.
      rewrite (filter_inRange_below fromBlock toBlock rest).
      - rewrite app_nil_r. reflexivity.
      - apply List.Forall_forall. intros y Hy.
        specialize (Hcross _ _ Hlast Hy). lia. }
    destruct (Nat.ltb (length page) pageLimit) eqn:E3.
    { injection Hres as <-. apply Nat.ltb_lt in E3.
      assert (Hall : page = older).
      { rewrite Hpage. apply firstn_all2. lia. }
      rewrite Hall. reflexivity. }
    rewrite (H _ Hrest Hres).
    rewrite <- app_assoc, <- map_app, <- List.filter_app, <- Hsplit. reflexivity.
Qed.

(** X5. On a history that the node lists newest first, a successful backfill
    from the instruction-based source handles every signature of the history
    whose slot lies in [fromBlock, toBlock]: none is skipped, none is handled
    twice, and they are handled in the reverse of the listed order.  A
    backfill whose paging throws handles nothing and leaves the store as it
    was. *)
Theorem solana_backfill_is_complete :
  forall chain name fromBlock toBlock isHistorical s,
    newestFirst (sol_history chain) ->
    let b := fetchSolanaTransactions chain name fromBlock toBlock isHistorical s in
    (sb_result b = true ->
     sb_applied b =
       rev (map signature (List.filter (inRange fromBlock toBlock) (sol_history chain)))) /\
    (sb_result b = false -> sb_store b = s /\ sb_applied b = []).
Proof.
  intros chain name fromBlock toBlock isHistorical s Hsorted. cbv zeta.
  unfold fetchSolanaTransactions.
  destruct (collectSignatures (sol_pageThrows chain) fromBlock toBlock 0
              (sol_history chain) []) as [| all] eqn:E; cbn.
  - split; [discriminate | auto].
  - split; [| discriminate]. intros _.
    rewrite (collectSignatures_complete _ _ _ _ _ _ _ Hsorted E). reflexivity.
Qed.

Lemma fold_left_id {A B} (f : A -> B -> A) (l : list B) (a : A) :
  (forall x y, f x y = x) -> fold_left f l a = a.
Proof.
  intros H. revert a. induction l as [| y t IH]; intros a; cbn; [reflexivity |].
  rewrite H. apply IH.
Qed.

(** X6. A backfill from the instruction-based source that returns true has
    set the cursor of the program to [toBlock], whatever became of the single
    transactions: when the node fails to deliver every one of them, nothing
    is applied and the cursor is moved past them all the same. *)
Theorem solana_backfill_moves_cursor_past_unread_transactions :
  forall chain name fromBlock toBlock isHistorical s,
    name <> "" -> sol_programId chain <> "" -> toBlock <> 0 ->
    let b := fetchSolanaTransactions chain name fromBlock toBlock isHistorical s in
    sb_result b = true ->
    getLastSyncedBlock (sb_store b) name (sol_programId chain) = Some toBlock /\
    ((forall sig, getTransaction chain sig = ReadThrows) ->
     sb_store b = fst (updateLastSyncedBlock name (sol_programId chain) toBlock s)).
Proof.
  intros chain name fromBlock toBlock isHistorical s Hname Hpid Hto. cbv zeta.
  unfold fetchSolanaTransactions.
  destruct (collectSignatures (sol_pageThrows chain) fromBlock toBlock 0
              (sol_history chain) []) as [| all]; cbn; [discriminate |].
  intros _. split.
  - apply cursor_after_write; assumption.
  - intros Hdown. rewrite fold_left_id; [reflexivity |].
    intros st sig. unfold processSignature. rewrite Hdown. reflexivity.
Qed.

(** ** Which table a primitive writes *)

Section Frame.
Context {X : Type} (f : Store -> X).

Lemma frame_getOrCreateUser a :
  (forall s v, f (set_users s v) = f s) -> keeps f (getOrCreateUser a).
Proof.
  intros H s. unfold getOrCreateUser. cbv zeta.
  destruct (existsb (String.eqb a) (users s)) eqn:E.
  - rewrite E. reflexivity.
  - match goal with |- context [if ?b then _ else _] => destruct b end; cbn; apply H.
Qed.

Lemma frame_getOrCreateUsers l :
  (forall s v, f (set_users s v) = f s) -> keeps f (getOrCreateUsers l).
Proof.
  intros H. induction l as [| a t IH]; cbn; [apply keeps_ret |].
  apply keeps_bind; [apply frame_getOrCreateUser, H | intros].
  apply keeps_bind; [exact IH | intros; apply keeps_ret].
Qed.

Lemma frame_saveTicketPurchase r :
  (forall s v, f (set_ticket_purchases s v) = f s) -> keeps f (saveTicketPurchase r).
Proof. intros H s. unfold saveTicketPurchase. destruct (hasTicketPurchase _ _ _); cbn; auto. Qed.

Lemma frame_saveFirstTicketBonus r :
  (forall s v, f (set_first_ticket_bonuses s v) = f s) -> keeps f (saveFirstTicketBonus r).
Proof. intros H s. unfold saveFirstTicketBonus. destruct (hasFirstTicketBonus _ _ _); cbn; auto. Qed.

Lemma frame_saveWinEvent r :
  (forall s v, f (set_win_events s v) = f s) -> keeps f (saveWinEvent r).
Proof. intros H s. unfold saveWinEvent. destruct (hasWinEvent _ _ _); cbn; auto. Qed.

Lemma frame_insertRound r :
  (forall s v, f (set_rounds s v) = f s) -> keeps f (insertRound r).
Proof. intros H s. cbn. apply H. Qed.

Lemma frame_updateRound t r c ch g :
  (forall s v, f (set_rounds s v) = f s) -> keeps f (updateRound t r c ch g).
Proof. intros H s. cbn. apply H. Qed.

Lemma frame_findRound t r c ch : keeps f (findRound t r c ch).
Proof. intros s. reflexivity. Qed.

Lemma frame_getRoundPlayers c t r : keeps f (getRoundPlayers c t r).
Proof. intros s. reflexivity. Qed.

Lemma frame_findUserRoundStats u t r c : keeps f (findUserRoundStats u t r c).
Proof. intros s. reflexivity. Qed.

Lemma frame_findPreviousRound u t r c : keeps f (findPreviousRound u t r c).
Proof. intros s. reflexivity. Qed.

Lemma frame_insertUserRoundStats r :
  (forall s v, f (set_user_round_stats s v) = f s) -> keeps f (insertUserRoundStats r).
Proof. intros H s. unfold insertUserRoundStats. destruct (existsb _ _); cbn; auto. Qed.

Lemma frame_updateUserRoundStats r :
  (forall s v, f (set_user_round_stats s v) = f s) -> keeps f (updateUserRoundStats r).
Proof. intros H s. cbn. apply H. Qed.

Lemma frame_updateStatsOnPurchase u t r c n ts :
  (forall s v, f (set_user_round_stats s v) = f s) ->
  keeps f (updateStatsOnPurchase u t r c n ts).
Proof.
  intros H. unfold updateStatsOnPurchase.
  apply keeps_bind; [apply frame_findUserRoundStats | intros o].
  apply keeps_bind; [apply frame_findPreviousRound | intros p].
  destruct o; [apply frame_updateUserRoundStats | apply frame_insertUserRoundStats]; exact H.
Qed.

Lemma frame_updateStatsOnWin u t r c ts :
  (forall s v, f (set_user_round_stats s v) = f s) ->
  keeps f (updateStatsOnWin u t r c ts).
Proof.
  intros H. unfold updateStatsOnWin.
  apply keeps_bind; [apply frame_findUserRoundStats | intros o].
  destruct o; [apply frame_updateUserRoundStats | apply frame_insertUserRoundStats]; exact H.
Qed.

Lemma frame_updateLastSyncedBlock n c b :
  (forall s v, f (set_blockchain_sync s v) = f s) -> keeps f (updateLastSyncedBlock n c b).
Proof.
  intros H s. unfold updateLastSyncedBlock.
  destruct (_ || _ || _); [reflexivity |].
  destruct (findSync s n c); cbn; apply H.
Qed.

End Frame.

Ltac frame_side := intros; reflexivity.

(** Splits a composed computation and settles each primitive by the table
    it writes. *)
Ltac solve_frame :=
  repeat first
    [ apply keeps_ret
    | apply keeps_throw
    | apply frame_findRound
    | apply frame_getRoundPlayers
    | apply frame_findUserRoundStats
    | apply frame_findPreviousRound
    | apply frame_getOrCreateUser; frame_side
    | apply frame_getOrCreateUsers; frame_side
    | apply frame_saveTicketPurchase; frame_side
    | apply frame_saveFirstTicketBonus; frame_side
    | apply frame_saveWinEvent; frame_side
    | apply frame_insertRound; frame_side
    | apply frame_updateRound; frame_side
    | apply frame_insertUserRoundStats; frame_side
    | apply frame_updateUserRoundStats; frame_side
    | apply frame_updateStatsOnPurchase; frame_side
    | apply frame_updateStatsOnWin; frame_side
    | apply frame_updateLastSyncedBlock; frame_side
    | apply keeps_bind; [| intros]
    | match goal with
      | |- keeps _ (match ?x with _ => _ end) => destruct x
      | |- keeps _ (if ?x then _ else _) => destruct x
      end ].

(** ** Properties kept by every handler *)

Lemma preserves_ret {A} I (a : A) : preserves I (ret a).
Proof. intros s H. exact H. Qed.

Lemma preserves_throw {A} I e : preserves I (@throw A e).
Proof. intros s H. exact H. Qed.

Lemma preserves_bind {A B} I (c : Db A) (k : A -> Db B) :
  preserves I c -> (forall a, preserves I (k a)) -> preserves I (bind c k).
Proof.
  intros Hc Hk s Hs. unfold bind. specialize (Hc s Hs).
  destruct (c s) as [s' [e | a]]; cbn in *; [exact Hc | apply Hk, Hc].
Qed.

Lemma bind_assoc {A B C} (c : Db A) (k : A -> Db B) (h : B -> Db C) s :
  bind (bind c k) h s = bind c (fun a => bind (k a) h) s.
Proof.
  unfold bind. destruct (c s) as [s1 [e | a]]; [reflexivity |]. reflexivity.
Qed.

Lemma preserves_ext {A} I (c c' : Db A) :
  (forall s, c s = c' s) -> preserves I c -> preserves I c'.
Proof. intros E H s Hs. rewrite <- E. apply H, Hs. Qed.

(** A property that the store has when empty and that the writing steps of
    the handlers keep holds in every reachable store.  The ticket purchase
    row and the aggregate update that follows it count as one step. *)
Section Invariant.
Variable I : Store -> Prop.
Hypothesis I_empty : I emptyStore.
Hypothesis I_user : forall a, preserves I (getOrCreateUser a).
Hypothesis I_purchase : forall r ts,
  preserves I (saveTicketPurchase r ;;;
               updateStatsOnPurchase (tp_buyer r) (tp_token r) (tp_roundId r)
                 (tp_contractAddress r) (tp_count r) ts).
Hypothesis I_win : forall u t r c ts, preserves I (updateStatsOnWin u t r c ts).
Hypothesis I_bonus : forall r, preserves I (saveFirstTicketBonus r).
Hypothesis I_winEvent : forall r, preserves I (saveWinEvent r).
Hypothesis I_rounds : forall s v, I s -> I (set_rounds s v).
Hypothesis I_sync : forall s v, I s -> I (set_blockchain_sync s v).

Lemma inv_getOrCreateUsers l : preserves I (getOrCreateUsers l).
Proof.
  induction l as [| a t IH]; cbn; [apply preserves_ret |].
  apply preserves_bind; [apply I_user | intros].
  apply preserves_bind; [exact IH | intros; apply preserves_ret].
Qed.

Lemma inv_insertRound r : preserves I (insertRound r).
Proof. intros s H. cbn. apply I_rounds, H. Qed.

Lemma inv_updateRound t r c ch g : preserves I (updateRound t r c ch g).
Proof. intros s H. cbn. apply I_rounds, H. Qed.

Lemma inv_read {A} (q : Store -> A) : preserves I (fun s => (s, inr (q s))).
Proof. intros s H. exact H. Qed.

Lemma inv_updateLastSyncedBlock n c b : preserves I (updateLastSyncedBlock n c b).
Proof.
  intros s H. unfold updateLastSyncedBlock.
  destruct (_ || _ || _); [exact H |].
  destruct (findSync s n c); cbn; apply I_sync, H.
Qed.

Lemma inv_purchase_then {A} r ts (tail : Db A) :
  preserves I tail ->
  preserves I (saveTicketPurchase r ;;;
               updateStatsOnPurchase (tp_buyer r) (tp_token r) (tp_roundId r)
                 (tp_contractAddress r) (tp_count r) ts ;;;
               tail).
Proof.
  intros Ht.
  apply (preserves_ext I
           (bind (saveTicketPurchase r ;;;
                  updateStatsOnPurchase (tp_buyer r) (tp_token r) (tp_roundId r)
                    (tp_contractAddress r) (tp_count r) ts) (fun _ => tail))).
  - intros s. apply bind_assoc.
  - apply preserves_bind; [apply I_purchase | intros; exact Ht].
Qed.

Ltac solve_invariant :=
  repeat first
    [ apply preserves_ret
    | apply preserves_throw
    | apply I_user
    | apply inv_getOrCreateUsers
    | apply I_win
    | apply I_bonus
    | apply I_winEvent
    | apply inv_insertRound
    | apply inv_updateRound
    | apply inv_updateLastSyncedBlock
    | apply (inv_read (fun s => find _ (rounds s)))
    | apply (inv_read (fun s => map urs_user _))
    | apply preserves_bind; [| intros]
    | match goal with
      | |- preserves _ (match ?x with _ => _ end) => destruct x
      | |- preserves _ (if ?x then _ else _) => destruct x
      end ].

Lemma deliver_invariant d s : I s -> I (deliver d s).
Proof.
  assert (G : forall c : Db unit, preserves I c -> I s -> I (fst (catchDuplicate c s))).
  { intros c Hc Hs. rewrite fst_catchDuplicate. apply Hc, Hs. }
  destruct d; cbn [deliver].
  - unfold processTicketPurchasedEvent. apply G.
    apply preserves_bind; [apply I_user | intros user].
    apply (inv_purchase_then
             (mkTicketPurchase user token roundId chainId contract count totalAmount
                (timestamp * 1000) tx idx)).
    apply inv_updateLastSyncedBlock.
  - unfold processFirstTicketBonusEvent. apply G. solve_invariant.
  - unfold processWinnerPickedEvent. apply G. solve_invariant.
  - unfold processSolanaTicketPurchasedEvent. apply G.
    destruct (find isTicketPurchased events) as [[] |]; try apply preserves_ret.
    apply preserves_bind; [apply I_user | intros user].
    apply (inv_purchase_then
             (mkTicketPurchase user token round_id chainId contract count total_amount
                (timestamp * 1000) sig idx)).
    solve_invariant.
  - unfold processSolanaWinnerPickedEvent. apply G. solve_invariant.
  - unfold processAllRequestsCompletedEvent. apply G. solve_invariant.
  - unfold processSolanaPrizeClaimedEvent. apply G.
    destruct (find isPrizeClaimed events) as [[] |]; try apply preserves_ret.
    intros s0 H0.
    destruct (existsb _ _); [| exact H0].
    destruct (find _ _); [| exact H0].
    apply inv_updateLastSyncedBlock, I_rounds, H0.
  - apply inv_updateLastSyncedBlock.
  - intros _. exact I_empty.
Qed.

Lemma reachable_invariant s : reachable s -> I s.
Proof. induction 1 as [| d s _ IH]; [exact I_empty | apply deliver_invariant, IH]. Qed.

End Invariant.

(** ** Writing the aggregate row of one key *)

Lemma find_update_first_disjoint {A} (p q : A -> bool) (f : A -> A) l :
  (forall x, p x = true -> q x = false /\ q (f x) = false) ->
  find q (update_first p f l) = find q l.
Proof.
  intros H. induction l as [| y t IH]; cbn; [reflexivity |].
  destruct (p y) eqn:E; cbn.
  - destruct (H _ E) as [-> ->]. reflexivity.
  - rewrite IH. reflexivity.
Qed.

Lemma statsKey_other u t r c u' t' r' c' x :
  (u', t', r', c') <> (u, t, r, c) ->
  keyOf x = (u, t, r, c) -> statsKey u' t' r' c' x = false.
Proof.
  intros Hne Hk. destruct (statsKey u' t' r' c' x) eqn:E; [| reflexivity].
  apply statsKey_iff in E. congruence.
Qed.

(** Both aggregate updates end by saving one row under the key they looked
    up: it becomes the row of that key, every other key keeps its row and
    no other table changes. *)
Lemma stats_write u t r c row s :
  keyOf row = (u, t, r, c) ->
  exists s',
    match find (statsKey u t r c) (user_round_stats s) with
    | None => insertUserRoundStats row
    | Some _ => updateUserRoundStats row
    end s = (s', inr tt) /\
    statsRow s' u t r c = Some row /\
    (forall u' t' r' c', (u', t', r', c') <> (u, t, r, c) ->
       statsRow s' u' t' r' c' = statsRow s u' t' r' c') /\
    (exists v, s' = set_user_round_stats s v).
Proof.
  intros Hk.
  assert (Hrow : statsKey u t r c row = true) by (apply statsKey_iff, Hk).
  assert (Hfields : urs_user row = u /\ urs_token row = t /\ urs_roundId row = r /\
                    urs_contractAddress row = c).
  { unfold keyOf in Hk. injection Hk as -> -> -> ->. auto. }
  destruct Hfields as (Eu & Et & Er & Ec).
  destruct (find (statsKey u t r c) (user_round_stats s)) as [old |] eqn:Hold.
  - unfold updateUserRoundStats. rewrite Eu, Et, Er, Ec.
    eexists. split; [reflexivity |]. unfold statsRow. cbn. split; [| split; [| eauto]].
    + apply (find_update_first (statsKey u t r c) (fun _ => row) _ old);
        [exact Hold | exact Hrow].
    + intros u' t' r' c' Hne. apply find_update_first_disjoint.
      intros x Hx. apply statsKey_iff in Hx.
      split; apply (statsKey_other u t r c); assumption.
  - unfold insertUserRoundStats. rewrite Eu, Et, Er, Ec.
    rewrite (find_none_existsb _ _ Hold).
    eexists. split; [reflexivity |]. unfold statsRow. cbn. split; [| split; [| eauto]].
    + apply find_app_new; [exact Hold | exact Hrow].
    + intros u' t' r' c' Hne. apply find_app_other.
      apply (statsKey_other u t r c); assumption.
Qed.

Lemma updateStatsOnPurchase_writes u t r c n ts s :
  exists s' row,
    updateStatsOnPurchase u t r c n ts s = (s', inr tt) /\
    statsRow s' u t r c = Some row /\
    urs_ticketCount row = ticketCountOf s u t r c + n /\
    urs_totalWins row =
      match statsRow s u t r c with
      | Some old => urs_totalWins old
      | None => match previousRoundOf s u t r c with
                | Some p => urs_totalWins p
                | None => 0
                end
      end /\
    (forall u' t' r' c', (u', t', r', c') <> (u, t, r, c) ->
       statsRow s' u' t' r' c' = statsRow s u' t' r' c') /\
    (exists v, s' = set_user_round_stats s v).
Proof.
  unfold updateStatsOnPurchase, findUserRoundStats, findPreviousRound, bind.
  cbn. fold (previousRoundOf s u t r c). unfold ticketCountOf, statsRow.
  destruct (find (statsKey u t r c) (user_round_stats s)) as [old |] eqn:Hold.
  - destruct (find_some_holds _ _ _ Hold) as [Hkey _].
    apply statsKey_iff in Hkey. unfold keyOf in Hkey. injection Hkey as Eu Et Er Ec.
    match goal with
    | |- exists s' row, updateUserRoundStats ?x s = _ /\ _ =>
        destruct (stats_write u t r c x s) as (s' & E & H1 & H2 & H3)
    end.
    { destruct (previousRoundOf s u t r c) as [p |];
        [destruct (Z.eqb (urs_roundId p) (r - 1)) |]; unfold keyOf; cbn; congruence. }
    rewrite Hold in E. rewrite E. eexists _, _. split; [reflexivity |].
    split; [exact H1 |]. split; [| split; [| split; [exact H2 | exact H3]]].
    + destruct (previousRoundOf s u t r c) as [p |];
        [destruct (Z.eqb (urs_roundId p) (r - 1)) |]; reflexivity.
    + destruct (previousRoundOf s u t r c) as [p |];
        [destruct (Z.eqb (urs_roundId p) (r - 1)) |]; reflexivity.
  - match goal with
    | |- exists s' row, insertUserRoundStats ?x s = _ /\ _ =>
        destruct (stats_write u t r c x s) as (s' & E & H1 & H2 & H3)
    end.
    { destruct (previousRoundOf s u t r c) as [p |];
        [destruct (Z.eqb (urs_roundId p) (r - 1)) |]; reflexivity. }
    rewrite Hold in E. rewrite E. eexists _, _. split; [reflexivity |].
    split; [exact H1 |]. split; [| split; [| split; [exact H2 | exact H3]]].
    + destruct (previousRoundOf s u t r c) as [p |];
        [destruct (Z.eqb (urs_roundId p) (r - 1)) |]; reflexivity.
    + destruct (previousRoundOf s u t r c) as [p |];
        [destruct (Z.eqb (urs_roundId p) (r - 1)) |]; reflexivity.
Qed.

Lemma updateStatsOnWin_writes u t r c ts s :
  exists s' row,
    updateStatsOnWin u t r c ts s = (s', inr tt) /\
    statsRow s' u t r c = Some row /\
    urs_ticketCount row = ticketCountOf s u t r c /\
    urs_totalWins row = totalWinsOf s u t r c + 1 /\
    (forall u' t' r' c', (u', t', r', c') <> (u, t, r, c) ->
       statsRow s' u' t' r' c' = statsRow s u' t' r' c') /\
    (exists v, s' = set_user_round_stats s v).
Proof.
  unfold updateStatsOnWin, findUserRoundStats, bind.
  cbn. unfold ticketCountOf, totalWinsOf, statsRow.
  destruct (find (statsKey u t r c) (user_round_stats s)) as [old |] eqn:Hold.
  - destruct (find_some_holds _ _ _ Hold) as [Hkey _].
    apply statsKey_iff in Hkey. unfold keyOf in Hkey. injection Hkey as Eu Et Er Ec.
    match goal with
    | |- exists s' row, updateUserRoundStats ?x s = _ /\ _ =>
        destruct (stats_write u t r c x s) as (s' & E & H1 & H2 & H3)
    end.
    { unfold keyOf; cbn; congruence. }
    rewrite Hold in E. rewrite E. eexists _, _. split; [reflexivity |].
    split; [exact H1 |]. cbn. auto.
  - match goal with
    | |- exists s' row, insertUserRoundStats ?x s = _ /\ _ =>
        destruct (stats_write u t r c x s) as (s' & E & H1 & H2 & H3)
    end.
    { reflexivity. }
    rewrite Hold in E. rewrite E. eexists _, _. split; [reflexivity |].
    split; [exact H1 |]. cbn. auto.
Qed.

(** ** Tickets bought and tickets counted *)

Lemma sumCounts_app l1 l2 : sumCounts (l1 ++ l2) = sumCounts l1 + sumCounts l2.
Proof.
  unfold sumCounts. induction l1 as [| x t IH]; cbn; [reflexivity | rewrite IH; lia].
Qed.

Lemma purchaseOf_iff u t r c p :
  purchaseOf u t r c p = true <->
  (tp_buyer p, tp_token p, tp_roundId p, tp_contractAddress p) = (u, t, r, c).
Proof.
  unfold purchaseOf. rewrite !andb_true_iff, !String.eqb_eq, Z.eqb_eq.
  split; [intros [[[-> ->] ->] ->]; reflexivity | intros H; injection H as -> -> -> ->; auto].
Qed.

Lemma consistent_of_keeps {A} (c : Db A) :
  keeps ticket_purchases c -> keeps user_round_stats c -> preserves ticketsConsistent c.
Proof.
  intros K1 K2 s H u t r c0.
  unfold ticketCountOf, statsRow, purchasedTickets. rewrite K1, K2. apply H.
Qed.

Lemma consistent_purchase r ts :
  preserves ticketsConsistent
    (saveTicketPurchase r ;;;
     updateStatsOnPurchase (tp_buyer r) (tp_token r) (tp_roundId r)
       (tp_contractAddress r) (tp_count r) ts).
Proof.
  intros s H. unfold bind, saveTicketPurchase.
  destruct (hasTicketPurchase s (tp_transactionHash r) (tp_logIndex r)); [exact H |].
  set (s1 := set_ticket_purchases s (ticket_purchases s ++ [r])).
  destruct (updateStatsOnPurchase_writes (tp_buyer r) (tp_token r) (tp_roundId r)
              (tp_contractAddress r) (tp_count r) ts s1)
    as (s2 & row & E & Hrow & Hcnt & _ & Hother & (v & Hv)).
  rewrite E. cbn [fst].
  intros u t rid c.
  assert (Htp : ticket_purchases s2 = ticket_purchases s ++ [r]) by (rewrite Hv; reflexivity).
  unfold purchasedTickets. rewrite Htp, List.filter_app, sumCounts_app.
  fold (purchasedTickets s u t rid c). rewrite <- H.
  cbn [List.filter]. destruct (purchaseOf u t rid c r) eqn:Ep.
  - apply purchaseOf_iff in Ep. injection Ep as <- <- <- <-.
    unfold ticketCountOf at 1. rewrite Hrow, Hcnt. cbn. 
    change (ticketCountOf s1 (tp_buyer r) (tp_token r) (tp_roundId r) (tp_contractAddress r))
      with (ticketCountOf s (tp_buyer r) (tp_token r) (tp_roundId r) (tp_contractAddress r)).
    lia.
  - unfold ticketCountOf. rewrite Hother.
    + change (statsRow s1 u t rid c) with (statsRow s u t rid c). cbn. lia.
    + intros Heq. injection Heq as -> -> -> ->.
      assert (purchaseOf (tp_buyer r) (tp_token r) (tp_roundId r) (tp_contractAddress r) r
              = true) by (apply purchaseOf_iff; reflexivity).
      congruence.
Qed.

Lemma consistent_win u t r c ts : preserves ticketsConsistent (updateStatsOnWin u t r c ts).
Proof.
  intros s H.
  destruct (updateStatsOnWin_writes u t r c ts s)
    as (s2 & row & E & Hrow & Hcnt & _ & Hother & (v & Hv)).
  rewrite E. cbn [fst]. intros u' t' r' c'.
  assert (Htp : ticket_purchases s2 = ticket_purchases s) by (rewrite Hv; reflexivity).
  unfold purchasedTickets. rewrite Htp. fold (purchasedTickets s u' t' r' c'). rewrite <- H.
  destruct (statsKey u' t' r' c' row) eqn:Ek.
  - apply statsKey_iff in Ek.
    assert (Hk : keyOf row = (u, t, r, c)).
    { unfold statsRow in Hrow. destruct (find_some_holds _ _ _ Hrow) as [Hk _].
      apply statsKey_iff, Hk. }
    rewrite Hk in Ek. injection Ek as <- <- <- <-.
    unfold ticketCountOf at 1. rewrite Hrow. exact Hcnt.
  - unfold ticketCountOf. rewrite Hother; [reflexivity |].
    intros Heq. injection Heq as -> -> -> ->.
    unfold statsRow in Hrow. destruct (find_some_holds _ _ _ Hrow) as [Hk _]. congruence.
Qed.

Lemma reachableInRange_reachable s : reachableInRange s -> reachable s.
Proof.
  induction 1 as [| d s _ IH _ _]; [apply reachable_empty | apply reachable_deliver, IH].
Qed.

(** X8. In every store produced by deliveries that are handled one after
    the other and within the column ranges ([reachableInRange]), the
    [ticketCount] of an aggregate row is the sum of the counts of the stored
    ticket purchases of its (user, token, round, contract), and a key
    without an aggregate row has no purchase.  Handlers that interleave, or
    a count that the integer column refuses, can leave a purchase stored
    and not counted. *)
Theorem reachable_ticket_counts_match_purchases :
  forall s, reachableInRange s -> ticketsConsistent s.
Proof.
  intros s Hin. apply reachableInRange_reachable in Hin. revert s Hin.
  apply reachable_invariant.
  - intros u t r c. reflexivity.
  - intros a. apply consistent_of_keeps; solve_frame.
  - apply consistent_purchase.
  - apply consistent_win.
  - intros r. apply consistent_of_keeps; solve_frame.
  - intros r. apply consistent_of_keeps; solve_frame.
  - intros s v H. exact H.
  - intros s v H. exact H.
Qed.

(** ** Re-delivery of a WinnerPicked event *)

Lemma getOrCreateUsers_returns l s :
  exists s' us,
    getOrCreateUsers l s = (s', inr us) /\
    user_round_stats s' = user_round_stats s /\
    win_events s' = win_events s.
Proof.
  revert s. induction l as [| a t IH]; intros s; cbn.
  - eexists _, _. split; [reflexivity | auto].
  - unfold bind.
    destruct (getOrCreateUser_spec a s) as (s1 & -> & _ & _ & _ & _ & Hurs & _ & _ & _ & Hwe).
    destruct (IH s1) as (s2 & us & -> & Hurs2 & Hwe2).
    eexists _, _. split; [reflexivity |]. cbn. split; congruence.
Qed.

Lemma win_block_counts (tail : string -> Db unit) w t r c ts s :
  (forall u, keeps user_round_stats (tail u)) ->
  totalWinsOf (fst (catchDuplicate (user <-- getOrCreateUser w ;;
                                    updateStatsOnWin user t r c ts ;;; tail user) s)) w t r c =
  totalWinsOf s w t r c + 1.
Proof.
  intros K. rewrite fst_catchDuplicate. unfold bind.
  destruct (getOrCreateUser_spec w s) as (s1 & -> & _ & _ & _ & _ & Hurs & _).
  destruct (updateStatsOnWin_writes w t r c ts s1) as (s2 & row & -> & Hrow & _ & Hw & _).
  unfold totalWinsOf at 1. unfold statsRow. rewrite K. fold (statsRow s2 w t r c).
  rewrite Hrow, Hw. unfold totalWinsOf, statsRow. rewrite Hurs. reflexivity.
Qed.

Lemma win_block_duplicate (players : Db (list string)) (mk : string -> list string -> WinEvent)
    tx idx n cn b w t r c ts s :
  keeps win_events players -> keeps user_round_stats players ->
  (forall s0, exists s1 us, players s0 = (s1, inr us)) ->
  (forall u us, we_transactionHash (mk u us) = tx /\ we_logIndex (mk u us) = idx) ->
  hasWinEvent s tx idx = true ->
  let run := catchDuplicate (user <-- getOrCreateUser w ;;
                             updateStatsOnWin user t r c ts ;;;
                             playerEntities <-- players ;;
                             saveWinEvent (mk user playerEntities) ;;;
                             updateLastSyncedBlock n cn b) s in
  snd run = DuplicateIgnored /\ win_events (fst run) = win_events s.
Proof.
  intros Kwe Kurs Hret Hmk Hdup. cbv zeta. unfold catchDuplicate, bind.
  destruct (getOrCreateUser_spec w s) as (s1 & -> & _ & _ & _ & _ & _ & _ & _ & _ & Hwe1).
  destruct (updateStatsOnWin_writes w t r c ts s1) as (s2 & row & -> & _ & _ & _ & _ & (v & Hv)).
  pose proof (Kwe s2) as Hwe3.
  destruct (Hret s2) as (s3 & us & E3). rewrite E3 in Hwe3 |- *. cbn [fst] in Hwe3.
  unfold saveWinEvent. destruct (Hmk w us) as [-> ->].
  assert (Hdup3 : hasWinEvent s3 tx idx = true).
  { unfold hasWinEvent in *. rewrite Hwe3, Hv. cbn. rewrite Hwe1. exact Hdup. }
  rewrite Hdup3. cbn. split; [reflexivity |].
  rewrite Hwe3, Hv. cbn. exact Hwe1.
Qed.

(** X9. A WinnerPicked event adds 1 to the winner's [totalWins] for the
    round every time it is delivered: both handlers update the aggregate row
    before they insert the keyed win event, so a re-delivery is recognised
    as a duplicate (no second win event is stored) only after the win has
    been counted again.  The event is one whose values the columns hold
    ([deliveryFits]), and so are the counters of the aggregate rows after
    the delivery ([aggregatesFit]); outside these ranges the database
    refuses the query or the write and nothing is counted. *)
Theorem winner_picked_redelivery_counts_the_win_again :
  (forall rr token roundId timestamp chainId tx blockNo name contract idx s,
     let run := processWinnerPickedEvent (ReadValue rr) token roundId timestamp chainId
                  tx blockNo name contract idx s in
     deliveryFits (EvmWinnerPicked (ReadValue rr) token roundId timestamp chainId tx blockNo
                     name contract idx) = true ->
     aggregatesFit (fst run) = true ->
     totalWinsOf (fst run) (winnerAddress rr) token roundId contract =
       totalWinsOf s (winnerAddress rr) token roundId contract + 1 /\
     (hasWinEvent s tx idx = true ->
      snd run = DuplicateIgnored /\ win_events (fst run) = win_events s)) /\
  (forall contract winnerPubkey chainId sig block name idx events s
          token round round_id purchaseIndex ticketIndex prize timestamp winner,
     find isWinnerPicked events =
       Some (SolWinnerPicked token round round_id purchaseIndex ticketIndex prize
               timestamp) ->
     winnerPubkey round purchaseIndex = Some winner ->
     let run := processSolanaWinnerPickedEvent contract winnerPubkey chainId sig block
                  name idx events s in
     deliveryFits (SolanaWinnerPicked contract winnerPubkey chainId sig block name idx
                     events) = true ->
     aggregatesFit (fst run) = true ->
     totalWinsOf (fst run) winner token round_id contract =
       totalWinsOf s winner token round_id contract + 1 /\
     (hasWinEvent s sig idx = true ->
      snd run = DuplicateIgnored /\ win_events (fst run) = win_events s)).
Proof.
  split.
  - intros rr token roundId timestamp chainId tx blockNo name contract idx s. cbv zeta.
    intros _ _. unfold processWinnerPickedEvent. split.
    + apply (win_block_counts
               (fun winner =>
                  playerEntities <-- getOrCreateUsers (roundPlayers rr) ;;
                  saveWinEvent
                    (mkWinEvent winner token roundId chainId contract (prizeAmount rr)
                       playerEntities (winnerTicket rr) (timestamp * 1000) tx idx) ;;;
                  updateLastSyncedBlock name contract blockNo)).
      intros u. solve_frame.
    + intros Hdup.
      apply (win_block_duplicate (getOrCreateUsers (roundPlayers rr))
               (fun user playerEntities =>
                  mkWinEvent user token roundId chainId contract (prizeAmount rr)
                    playerEntities (winnerTicket rr) (timestamp * 1000) tx idx)
               tx idx); auto.
      * solve_frame.
      * solve_frame.
      * intros s0. destruct (getOrCreateUsers_returns (roundPlayers rr) s0)
          as (s1 & us & E & _). eauto.
  - intros contract winnerPubkey chainId sig block name idx events s
      token round round_id purchaseIndex ticketIndex prize timestamp winner Hfind Hwin.
    cbv zeta. intros _ _. unfold processSolanaWinnerPickedEvent. rewrite Hfind, Hwin. split.
    + apply (win_block_counts
               (fun user =>
                  playerEntities <-- getRoundPlayers contract token round_id ;;
                  saveWinEvent
                    (mkWinEvent user token round_id chainId contract prize
                       playerEntities ticketIndex (timestamp * 1000) sig idx) ;;;
                  updateLastSyncedBlock name contract block)).
      intros u. solve_frame.
    + intros Hdup.
      apply (win_block_duplicate (getRoundPlayers contract token round_id)
               (fun user playerEntities =>
                  mkWinEvent user token round_id chainId contract prize
                    playerEntities ticketIndex (timestamp * 1000) sig idx)
               sig idx); auto.
      * solve_frame.
      * solve_frame.
      * intros s0. eexists _, _. reflexivity.
Qed.

(** ** Streak flag and streak length *)

Lemma stats_write_rows u t r c row s x :
  In x (user_round_stats
          (fst (match find (statsKey u t r c) (user_round_stats s) with
                | None => insertUserRoundStats row
                | Some _ => updateUserRoundStats row
                end s))) ->
  In x (user_round_stats s) \/ x = row.
Proof.
  destruct (find (statsKey u t r c) (user_round_stats s)) as [old |] eqn:Hold.
  - unfold updateUserRoundStats. cbn. intros H. apply in_update_first in H.
    destruct H as [H | (x0 & _ & ->)]; auto.
  - unfold insertUserRoundStats. destruct (existsb _ _); cbn; [auto |].
    intros H. apply in_app_or in H. destruct H as [H | [<- | []]]; auto.
Qed.

Lemma stats_write_row u t r c row s x :
  keyOf row = (u, t, r, c) ->
  In x (user_round_stats
          (fst (match find (statsKey u t r c) (user_round_stats s) with
                | None => insertUserRoundStats row
                | Some _ => updateUserRoundStats row
                end s))) ->
  In x (user_round_stats s) \/
  statsRow (fst (match find (statsKey u t r c) (user_round_stats s) with
                 | None => insertUserRoundStats row
                 | Some _ => updateUserRoundStats row
                 end s)) u t r c = Some x.
Proof.
  intros Hk H. destruct (stats_write u t r c row s Hk) as (s' & E & Hrow & _).
  destruct (stats_write_rows u t r c row s x H) as [Hin | ->]; [left; exact Hin | right].
  rewrite E. exact Hrow.
Qed.

Lemma updateStatsOnPurchase_rows u t r c n ts s x :
  In x (user_round_stats (fst (updateStatsOnPurchase u t r c n ts s))) ->
  In x (user_round_stats s) \/
  statsRow (fst (updateStatsOnPurchase u t r c n ts s)) u t r c = Some x.
Proof.
  unfold updateStatsOnPurchase, findUserRoundStats, findPreviousRound, bind. cbn.
  destruct (find (statsKey u t r c) (user_round_stats s)) as [old |] eqn:Hold.
  - destruct (find_some_holds _ _ _ Hold) as [Hkey _].
    apply statsKey_iff in Hkey. unfold keyOf in Hkey. injection Hkey as Eu Et Er Ec.
    match goal with
    | |- context [updateUserRoundStats ?y s] =>
        pose proof (stats_write_row u t r c y s x) as W
    end.
    rewrite Hold in W. apply W.
    destruct (maxByRoundId None _) as [p |];
      [destruct (Z.eqb (urs_roundId p) (r - 1)) |]; unfold keyOf; cbn; congruence.
  - match goal with
    | |- context [insertUserRoundStats ?y s] =>
        pose proof (stats_write_row u t r c y s x) as W
    end.
    rewrite Hold in W. apply W.
    destruct (maxByRoundId None _) as [p |];
      [destruct (Z.eqb (urs_roundId p) (r - 1)) |]; reflexivity.
Qed.

Lemma updateStatsOnWin_rows u t r c ts s x :
  In x (user_round_stats (fst (updateStatsOnWin u t r c ts s))) ->
  In x (user_round_stats s) \/
  (statsRow s u t r c = None /\ urs_isConsecutive x = false /\ urs_consecutiveRounds x = 0) \/
  (exists old, In old (user_round_stats s) /\
               urs_isConsecutive x = urs_isConsecutive old /\
               urs_consecutiveRounds x = urs_consecutiveRounds old).
Proof.
  unfold updateStatsOnWin, findUserRoundStats, bind, statsRow. cbn.
  destruct (find (statsKey u t r c) (user_round_stats s)) as [old |] eqn:Hold.
  - destruct (find_some_holds _ _ _ Hold) as [_ Hin].
    unfold updateUserRoundStats. cbn. intros H. apply in_update_first in H.
    destruct H as [H | (x0 & _ & ->)]; [auto |].
    right. right. exists old. cbn. auto.
  - unfold insertUserRoundStats. destruct (existsb _ _); cbn; [auto |].
    intros H. apply in_app_or in H. destruct H as [H | [<- | []]]; auto.
Qed.

Lemma flagAgrees_purchase u t r c n ts :
  preserves streaksWellFormed (updateStatsOnPurchase u t r c n ts).
Proof.
  intros s [Hinv Hflags]. split; [apply preservesStats_updateStatsOnPurchase, Hinv |].
  intros x Hx. apply updateStatsOnPurchase_rows in Hx.
  destruct Hx as [Hx | Hx]; [apply Hflags, Hx |].
  destruct (updateStatsOnPurchase_streak u t r c n ts s Hinv) as (s' & row & E & Hrow & HA & HB).
  rewrite E in Hx. cbn [fst] in Hx. rewrite Hrow in Hx. injection Hx as <-.
  unfold flagAgrees.
  destruct (previousRoundOf s u t r c) as [p |] eqn:Hprev.
  - pose proof (previousRoundOf_some _ _ _ _ _ _ Hprev) as Hp.
    destruct (Z.eq_dec (urs_roundId p) (r - 1)) as [Hadj | Hfar].
    + destruct (HA p Hp Hadj) as [-> ->].
      assert (Hfp : flagAgrees p) by (apply Hflags; apply Hp).
      unfold flagAgrees in Hfp. destruct (urs_isConsecutive p); lia.
    + destruct HB as [-> ->]; [| reflexivity].
      intros q Hq. destruct Hinv as [Hu _].
      rewrite (mostRecentPrior_unique _ _ _ _ _ _ _ Hu Hq Hp). exact Hfar.
  - destruct HB as [-> ->]; [| reflexivity].
    intros q Hq. exfalso. exact (previousRoundOf_none _ _ _ _ _ q Hprev Hq).
Qed.

Lemma flagAgrees_win u t r c ts : preserves streaksWellFormed (updateStatsOnWin u t r c ts).
Proof.
  intros s [Hinv Hflags]. split; [apply preservesStats_updateStatsOnWin, Hinv |].
  intros x Hx. apply updateStatsOnWin_rows in Hx.
  destruct Hx as [Hx | [(_ & H1 & H2) | (old & Hold & H1 & H2)]].
  - apply Hflags, Hx.
  - unfold flagAgrees. rewrite H1, H2. reflexivity.
  - specialize (Hflags old Hold). unfold flagAgrees in *. rewrite H1, H2. exact Hflags.
Qed.

Lemma streaks_of_keeps {A} (c : Db A) :
  keeps user_round_stats c -> preserves streaksWellFormed c.
Proof.
  intros K s [H1 H2]. split.
  - unfold statsInvariant in *. rewrite K. exact H1.
  - intros r Hr. rewrite K in Hr. apply H2, Hr.
Qed.

(** X10. In every store that the handlers, the cursor writes and the purge
    can produce, the streak flag and the streak length of an aggregate row
    agree: a row marked consecutive has [consecutiveRounds] at least 1 and a
    row not marked has [consecutiveRounds] 0, so the length is never
    negative. *)
Theorem reachable_streak_flag_matches_length :
  forall s r, reachable s -> In r (user_round_stats s) ->
    0 <= urs_consecutiveRounds r /\
    (urs_isConsecutive r = true <-> 1 <= urs_consecutiveRounds r).
Proof.
  intros s r Hreach Hin.
  assert (Hwf : streaksWellFormed s).
  { clear Hin. revert s Hreach. apply reachable_invariant.
    - split; [split; [constructor | intros x []] | intros x []].
    - intros a. apply streaks_of_keeps. solve_frame.
    - intros p ts. apply preserves_bind;
        [apply streaks_of_keeps; solve_frame | intros; apply flagAgrees_purchase].
    - apply flagAgrees_win.
    - intros p. apply streaks_of_keeps. solve_frame.
    - intros p. apply streaks_of_keeps. solve_frame.
    - intros s v H. exact H.
    - intros s v H. exact H. }
  destruct Hwf as [_ Hflags]. specialize (Hflags r Hin). unfold flagAgrees in Hflags.
  destruct (urs_isConsecutive r); split; try lia; split; intros; try lia; try discriminate;
    reflexivity.
Qed.

(** ** Round totals *)

Lemma update_first_absent {A} (p : A -> bool) f (l : list A) :
  find p l = None -> update_first p f l = l.
Proof.
  induction l as [| x t IH]; cbn; [reflexivity |].
  destruct (p x); [discriminate |]. intros H. rewrite IH by exact H. reflexivity.
Qed.

Lemma existsb_find {A} (p : A -> bool) (l : list A) :
  existsb p l = match find p l with Some _ => true | None => false end.
Proof. induction l as [| x t IH]; cbn; [reflexivity |]. destruct (p x); auto. Qed.

(** X11. Round totals are accumulated on the instruction-based source only.
    The log-based purchase handler never changes the rounds table.  The
    first delivery of a Solana purchase whose logs carry no first-ticket
    bonus adds its prize and commission amounts to the totals of the round
    row when there is one, and leaves the rounds table as it is when there is
    none: the purchase is stored and counted, its amounts are not.  The
    Solana purchase is one whose values the columns hold ([deliveryFits]),
    and so are the counters of the aggregate rows it leaves
    ([aggregatesFit]); outside these ranges the database refuses the write
    and nothing is stored. *)
Theorem round_totals_accumulate_on_solana_only :
  (forall token roundId buyer count totalAmount timestamp chainId tx blockNo name contract
          idx s,
     rounds (fst (processTicketPurchasedEvent token roundId buyer count totalAmount
                    timestamp chainId tx blockNo name contract idx s)) = rounds s) /\
  (forall contract chainId sig block name idx events s
          token round_id buyer count total_amount prize_amount commission_amount timestamp,
     find isTicketPurchased events =
       Some (SolTicketPurchased token round_id buyer count total_amount prize_amount
               commission_amount timestamp) ->
     find isFirstTicketBonusAwarded events = None ->
     hasTicketPurchase s sig idx = false ->
     let after := fst (processSolanaTicketPurchasedEvent contract chainId sig block name
                         idx events s) in
     deliveryFits (SolanaTicketPurchased contract chainId sig block name idx events) = true ->
     aggregatesFit after = true ->
     (hasRound s token round_id contract chainId = true ->
      prizeOf after token round_id contract chainId =
        prizeOf s token round_id contract chainId + prize_amount /\
      commissionOf after token round_id contract chainId =
        commissionOf s token round_id contract chainId + commission_amount /\
      length (rounds after) = length (rounds s)) /\
     (hasRound s token round_id contract chainId = false ->
      rounds after = rounds s /\
      length (ticketPurchaseRows after sig idx) = 1%nat)).
Proof.
  split.
  - intros. unfold processTicketPurchasedEvent. rewrite fst_catchDuplicate.
    assert (K : keeps rounds
                  (user <-- getOrCreateUser buyer ;;
                   saveTicketPurchase
                     (mkTicketPurchase user token roundId chainId contract count totalAmount
                        (timestamp * 1000) tx idx) ;;;
                   updateStatsOnPurchase user token roundId contract count (timestamp * 1000) ;;;
                   updateLastSyncedBlock name contract blockNo)) by solve_frame.
    apply K.
  - intros contract chainId sig block name idx events s
      token round_id buyer count total_amount prize_amount commission_amount timestamp
      Hfind Hbonus Hfresh. cbv zeta. intros _ _.
    unfold processSolanaTicketPurchasedEvent. rewrite Hfind, Hbonus, fst_catchDuplicate.
    unfold bind.
    destruct (getOrCreateUser_spec buyer s)
      as (s1 & -> & _ & _ & _ & Htp & _ & Hrounds & _).
    unfold saveTicketPurchase. cbn [tp_transactionHash tp_logIndex].
    assert (Hfresh1 : hasTicketPurchase s1 sig idx = false).
    { unfold hasTicketPurchase in *. rewrite Htp. exact Hfresh. }
    rewrite Hfresh1.
    set (row := mkTicketPurchase _ _ _ _ _ _ _ _ _ _).
    set (s2 := set_ticket_purchases s1 (ticket_purchases s1 ++ [row])).
    destruct (updateStatsOnPurchase_writes buyer token round_id contract count
                (timestamp * 1000) s2) as (s3 & r & -> & _ & _ & _ & _ & (v & Hv)).
    cbn [ret]. unfold findRound.
    assert (Hr3 : rounds s3 = rounds s) by (rewrite Hv; cbn; exact Hrounds).
    assert (Htp3 : ticket_purchases s3 = ticket_purchases s ++ [row])
      by (rewrite Hv; cbn; rewrite Htp; reflexivity).
    unfold hasRound. rewrite existsb_find. rewrite Hr3.
    destruct (find (roundMatches token round_id contract chainId) (rounds s)) as [old |] eqn:Hold.
    + split; [intros _ | discriminate].
      unfold updateRound.
      set (s4 := set_rounds s3 _).
      pose proof (keeps_rounds_updateLastSyncedBlock name contract block s4) as K.
      unfold prizeOf, commissionOf. rewrite K. unfold s4. cbn [rounds set_rounds].
      rewrite Hr3, find_update_first_same, Hold.
      * cbn. split; [reflexivity | split; [reflexivity |]].
        clear. induction (rounds s) as [| x t IH]; cbn; [reflexivity |].
        destruct (roundMatches _ _ _ _ x); cbn; congruence.
      * intros x Hx. exact Hx.
    + split; [discriminate | intros _].
      pose proof (keeps_rounds_updateLastSyncedBlock name contract block s3) as K.
      pose proof (keeps_tp_updateLastSyncedBlock name contract block s3) as K2.
      cbn [ret]. split; [rewrite K; exact Hr3 |].
      unfold ticketPurchaseRows. rewrite K2, Htp3.
      change sig with (tp_transactionHash row). change idx with (tp_logIndex row).
      rewrite ticketPurchaseRows_fresh; [reflexivity | exact Hfresh].
Qed.

(** ** Reconnection: success, polled chains, shutdown *)

Lemma status_lookup rt name config :
  configs rt !! name = Some config ->
  getConnectionStatus rt !! name =
    Some (match connectionStates rt !! name with Some b => b | None => false end,
          attemptsOf rt name).
Proof.
  intros H. unfold getConnectionStatus. rewrite map_lookup_imap, H. reflexivity.
Qed.

Lemma reconnect_success env name config rt :
  configs rt !! name = Some config ->
  attemptsOf rt name < maxReconnectAttempts ->
  attemptSucceeds env = true ->
  exists rt',
    reconnectBlockchain env name rt =
      (rt', [AttemptStarted name (attemptsOf rt name + 1);
             Waited name (reconnectDelay * attemptsOf rt name);
             Reconnected name]) /\
    configs rt' !! name = Some config /\
    attemptsOf rt' name = 0 /\
    connectionStates rt' !! name = Some true /\
    name ∈ healthCheckTimers rt' /\
    reconnectTimeouts rt' = reconnectTimeouts rt.
Proof.
  intros Hc Hlt Hok. unfold reconnectBlockchain. rewrite Hc.
  destruct (Z.geb (attemptsOf rt name) maxReconnectAttempts) eqn:E.
  { rewrite Z.geb_leb in E. apply Z.leb_le in E. lia. }
  unfold addBlockchain, attemptSucceeds in *.
  destruct env as [ct se so lt]. cbn in Hok |- *.
  destruct ct; [discriminate |]. destruct lt; [discriminate |].
  destruct (isSolana name), (isSocket (cfg_rpcUrl config)), se, so; cbn;
    (eexists; split; [reflexivity |]); unfold attemptsOf; cbn;
    rewrite ?lookup_insert_eq;
    (repeat split; try reflexivity);
    apply elem_of_union; right; apply elem_of_singleton; reflexivity.
Qed.

(** X12. An attempt of [reconnectBlockchain] on which nothing throws leaves
    the chain connected with its attempt counter back at 0 and its health
    timer running, and schedules no retry; attempt number k + 1 has waited
    k times the base delay before it rebuilt the connection.  The status
    query then reports the chain as connected with 0 attempts. *)
Theorem successful_reconnect_resets_the_count :
  forall env name config rt,
    configs rt !! name = Some config ->
    attemptsOf rt name < maxReconnectAttempts ->
    attemptSucceeds env = true ->
    exists rt',
      reconnectBlockchain env name rt =
        (rt', [AttemptStarted name (attemptsOf rt name + 1);
               Waited name (reconnectDelay * attemptsOf rt name);
               Reconnected name]) /\
      configs rt' !! name = Some config /\
      attemptsOf rt' name = 0 /\
      getConnectionStatus rt' !! name = Some (true, 0) /\
      name ∈ healthCheckTimers rt' /\
      reconnectTimeouts rt' = reconnectTimeouts rt.
Proof.
  intros env name config rt Hc Hlt Hok.
  destruct (reconnect_success env name config rt Hc Hlt Hok)
    as (rt' & E & Hc' & Ha & Hconn & Ht & Hp).
  exists rt'. repeat (split; [assumption |]).
  split; [| auto]. rewrite (status_lookup rt' name config Hc'), Hconn, Ha. reflexivity.
Qed.

Lemma polled_failure env name config rt :
  polled name config = true -> listenFails env = true ->
  configs rt !! name = Some config ->
  attemptsOf rt name = 0 ->
  exists rt',
    reconnectBlockchain env name rt = (rt', failedAttempts name 0 1) /\
    configs rt' !! name = Some config /\
    attemptsOf rt' name = 0 /\
    connectionStates rt' !! name = Some false /\
    reconnectTimeouts rt' = reconnectTimeouts rt ++ [(name, reconnectDelay * (0 + 1))].
Proof.
  intros Hp Hf Hc Ha. unfold reconnectBlockchain. rewrite Hc, Ha.
  change (Z.geb 0 maxReconnectAttempts) with false. cbv iota.
  unfold addBlockchain, listenFails, polled in *.
  destruct env as [ct se so lt]. cbn in Hf |- *.
  destruct ct; [discriminate |]. destruct lt; [| discriminate].
  destruct (isSolana name) eqn:Hsol; cbn in Hp |- *.
  - eexists. split; [reflexivity |]. unfold attemptsOf. cbn.
    rewrite !lookup_insert_eq. auto.
  - apply negb_true_iff in Hp. rewrite Hp. cbn.
    eexists. split; [reflexivity |]. unfold attemptsOf. cbn.
    rewrite !lookup_insert_eq. auto.
Qed.

Lemma flat_map_const_length {A B} (l : list A) (e : list B) (f : list B -> list Z) (v : Z) :
  f [] = [] -> (forall x y, f (x ++ y) = f x ++ f y) -> f e = [v] ->
  f (flat_map (fun _ => e) l) = repeat v (length l).
Proof.
  intros Hnil Happ He. induction l as [| x t IH]; cbn; [exact Hnil |].
  rewrite Happ, He, IH. reflexivity.
Qed.

Lemma fireRetries_polled name config envs :
  polled name config = true ->
  forall rt,
    forallb listenFails envs = true ->
    configs rt !! name = Some config ->
    attemptsOf rt name = 0 ->
    connectionStates rt !! name = Some false ->
    pendingFor name rt = [(name, reconnectDelay * (0 + 1))] ->
    exists rt',
      fireRetries envs name rt = (rt', flat_map (fun _ => failedAttempts name 0 1) envs) /\
      configs rt' !! name = Some config /\
      attemptsOf rt' name = 0 /\
      connectionStates rt' !! name = Some false /\
      pendingFor name rt' = [(name, reconnectDelay * (0 + 1))].
Proof.
  intros Hpol. induction envs as [| env rest IH]; intros rt Hq Hc Ha Hs Hp.
  - exists rt. cbn. auto.
  - cbn [forallb] in Hq. apply andb_true_iff in Hq. destruct Hq as [Hq Hqs].
    cbn [fireRetries]. unfold pendingFor in Hp. rewrite (find_of_filter _ _ _ _ Hp).
    unfold reconnectTimeoutFires. cbn [fst].
    set (rt0 := set_reconnectTimeouts rt _).
    destruct (polled_failure env name config rt0 Hpol Hq Hc Ha)
      as (rt1 & E1 & Hc1 & Ha1 & Hs1 & Hp1).
    rewrite E1.
    assert (Hpend : pendingFor name rt1 = [(name, reconnectDelay * (0 + 1))]).
    { unfold pendingFor. rewrite Hp1, List.filter_app. unfold rt0.
      cbn [reconnectTimeouts set_reconnectTimeouts].
      rewrite removeTimeout_filter by (cbn; apply String.eqb_refl).
      rewrite Hp. cbn. rewrite !String.eqb_refl. reflexivity. }
    destruct (IH rt1 Hqs Hc1 Ha1 Hs1 Hpend) as (rt2 & E2 & Hc2 & Ha2 & Hs2 & Hp2).
    rewrite E2. exists rt2. cbn [flat_map]. auto.
Qed.

(** X13. On a chain without socket (Solana, or an EVM chain with an HTTP
    URL) [addBlockchain] sets the attempt counter back to 0 inside every
    attempt.  When the provider can be built and the listener set-up keeps
    throwing, every attempt is therefore "attempt 1", waits 0 ms, and
    schedules the next one 5 s later: however many attempts have failed, the
    counter stands at 0 and a retry is pending, so the bound of five
    attempts is never reached, and the status query reports the chain as
    disconnected with 0 attempts. *)
Theorem polled_chain_is_retried_without_bound :
  forall name config rt envs,
    polled name config = true ->
    configs rt !! name = Some config ->
    attemptsOf rt name = 0 -> pendingFor name rt = [] ->
    envs <> [] -> forallb listenFails envs = true ->
    exists rt' effects,
      unhealthyRun envs name rt = (rt', effects) /\
      attemptsStarted name effects = repeat 1 (length envs) /\
      waits effects = repeat 0 (length envs) /\
      retriesScheduled effects = repeat reconnectDelay (length envs) /\
      getConnectionStatus rt' !! name = Some (false, 0) /\
      pendingFor name rt' = [(name, reconnectDelay)].
Proof.
  intros name config rt envs Hpol Hc Ha Hp Hne Hq.
  destruct envs as [| env rest]; [contradiction |].
  cbn [forallb] in Hq. apply andb_true_iff in Hq. destruct Hq as [Hq Hqs].
  unfold unhealthyRun, healthCheckTick.
  set (rt0 := set_connectionStates rt _).
  destruct (polled_failure env name config rt0 Hpol Hq Hc Ha)
    as (rt1 & E1 & Hc1 & Ha1 & Hs1 & Hp1).
  rewrite E1.
  assert (Hpend : pendingFor name rt1 = [(name, reconnectDelay * (0 + 1))]).
  { unfold pendingFor in *. rewrite Hp1, List.filter_app. unfold rt0.
    cbn [reconnectTimeouts set_connectionStates]. rewrite Hp. cbn.
    rewrite String.eqb_refl. reflexivity. }
  destruct (fireRetries_polled name config rest Hpol rt1 Hqs Hc1 Ha1 Hs1 Hpend)
    as (rt2 & E2 & Hc2 & Ha2 & Hs2 & Hp2).
  rewrite E2. eexists _, _. split; [reflexivity |].
  change (failedAttempts name 0 1 ++ flat_map (fun _ => failedAttempts name 0 1) rest)
    with (flat_map (fun _ : ConnectEnv => failedAttempts name 0 1) (env :: rest)).
  split; [| split; [| split; [| split; [| exact Hp2]]]].
  4: { rewrite (status_lookup rt2 name config Hc2), Hs2, Ha2. reflexivity. }
  - apply flat_map_const_length; [reflexivity | apply attemptsStarted_app |].
    cbn. rewrite String.eqb_refl. reflexivity.
  - apply flat_map_const_length; [reflexivity | | reflexivity].
    intros x y. unfold waits. apply flat_map_app.
  - apply flat_map_const_length; [reflexivity | | reflexivity].
    intros x y. unfold retriesScheduled. apply flat_map_app.
Qed.

(** ** Shutdown *)

Lemma foldr_cleanupBlockchain l rt0 :
  let rt' := foldr cleanupBlockchain rt0 l in
  (forall name, name ∈ healthCheckTimers rt' ->
                name ∈ healthCheckTimers rt0 /\ ~ In name l) /\
  (forall name, name ∈ socketHandlers rt' ->
                name ∈ socketHandlers rt0 /\ ~ In name l) /\
  reconnectTimeouts rt' = reconnectTimeouts rt0 /\
  configs rt' = configs rt0 /\
  reconnectAttempts rt' = reconnectAttempts rt0.
Proof.
  induction l as [| n t IH]; cbn.
  - repeat split; auto.
  - destruct IH as (H1 & H2 & H3 & H4 & H5).
    unfold cleanupBlockchain at 1 2 3 4 5. cbn.
    split; [| split; [| auto]].
    + intros name Hin. apply elem_of_difference in Hin. destruct Hin as [Hin Hne].
      destruct (H1 name Hin) as [Ha Hb]. split; [exact Ha |].
      intros [-> | Hl]; [apply Hne, elem_of_singleton; reflexivity | contradiction].
    + intros name Hin. apply elem_of_difference in Hin. destruct Hin as [Hin Hne].
      destruct (H2 name Hin) as [Ha Hb]. split; [exact Ha |].
      intros [-> | Hl]; [apply Hne, elem_of_singleton; reflexivity | contradiction].
Qed.

Lemma in_config_keys (m : gmap string BlockchainConfig) name config :
  m !! name = Some config -> In name (map fst (map_to_list m)).
Proof.
  intros H. apply in_map_iff. exists (name, config). split; [reflexivity |].
  apply list_elem_of_In, elem_of_map_to_list, H.
Qed.

(** X14. [cleanup] stops every health timer and removes the socket handlers
    of every configured chain, but it leaves the pending retry timeouts of
    [reconnectBlockchain] in place: a retry that was scheduled before the
    shutdown still runs afterwards, and when its attempt succeeds the chain
    is connected again with a new health timer. *)
Theorem cleanup_leaves_retry_timeouts_pending :
  forall rt,
    (forall name, name ∉ healthCheckTimers (cleanup rt)) /\
    (forall name config, configs rt !! name = Some config ->
                         name ∉ socketHandlers (cleanup rt)) /\
    reconnectTimeouts (cleanup rt) = reconnectTimeouts rt /\
    (forall env entry config,
       In entry (reconnectTimeouts rt) ->
       configs rt !! fst entry = Some config ->
       attemptsOf rt (fst entry) < maxReconnectAttempts ->
       attemptSucceeds env = true ->
       let rt' := fst (reconnectTimeoutFires env entry (cleanup rt)) in
       fst entry ∈ healthCheckTimers rt' /\
       connectionStates rt' !! fst entry = Some true).
Proof.
  intros rt. unfold cleanup.
  destruct (foldr_cleanupBlockchain (map fst (map_to_list (configs rt)))
              (stopHealthChecks rt)) as (H1 & H2 & H3 & H4 & H5).
  set (rt1 := foldr cleanupBlockchain (stopHealthChecks rt) _) in *.
  split; [| split; [| split; [exact H3 |]]].
  - intros name Hin. destruct (H1 name Hin) as [Hempty _].
    cbn in Hempty. apply not_elem_of_empty in Hempty. exact Hempty.
  - intros name config Hc Hin. destruct (H2 name Hin) as [_ Hnot].
    apply Hnot. apply (in_config_keys _ _ config). exact Hc.
  - intros env entry config Hin Hc Hlt Hok. cbv zeta.
    unfold reconnectTimeoutFires.
    set (rt2 := set_reconnectTimeouts rt1 _).
    assert (Hc2 : configs rt2 !! fst entry = Some config).
    { unfold rt2. cbn. rewrite H4. exact Hc. }
    assert (Ha2 : attemptsOf rt2 (fst entry) = attemptsOf rt (fst entry)).
    { unfold attemptsOf, rt2. cbn. rewrite H5. reflexivity. }
    destruct (reconnect_success env (fst entry) config rt2 Hc2 ltac:(rewrite Ha2; exact Hlt) Hok)
      as (rt3 & E & _ & _ & Hconn & Htimer & _).
    rewrite E. cbn [fst]. auto.
Qed.

(** ** What the health probe writes and when it reports unhealthy *)

(** X15. The health probe writes to the database only through the catch-up
    backfill it starts: a probe that starts none leaves the store as it was.
    When it starts one, the chain has a stored cursor, the backfill runs from
    cursor + 1 to the height just read, and the lag exceeds the threshold:
    [syncThresholdBlocks] on a WebSocket chain, ten times that on Solana. *)
Theorem probe_writes_only_through_its_backfill :
  forall chain solana height rt name s,
    let p := checkConnectionHealth chain solana height rt name s in
    (probe_backfill p = None -> probe_store p = s) /\
    (forall c fromBlock toBlock,
       probe_backfill p = Some (c, fromBlock, toBlock) ->
       exists cursor,
         getLastSyncedBlock s name c = Some cursor /\
         fromBlock = cursor + 1 /\
         height = Some toBlock /\
         ((providers rt !! name = Some WebSocketProvider /\
           syncThresholdBlocks rt < toBlock - cursor) \/
          (providers rt !! name = Some Connection /\
           syncThresholdBlocks rt * 10 < toBlock - cursor))).
Proof.
  intros chain solana height rt name s. cbv zeta.
  unfold checkConnectionHealth, checkSolanaConnectionHealth.
  destruct (providers rt !! name) as [[| |] |] eqn:Hp.
  - (* WebSocket provider *)
    destruct height as [blockNumber |]; [| cbn; split; [reflexivity | discriminate]].
    destruct (configs rt !! name) as [config |]; [| cbn; split; [reflexivity | discriminate]].
    destruct (cfg_contractAddresses config) as [| contractAddress others];
      [cbn; split; [reflexivity | discriminate] |].
    destruct (getLastSyncedBlock s name contractAddress) as [last |] eqn:Hlast;
      [| cbn; split; [reflexivity | discriminate]].
    destruct (Z.gtb (blockNumber - last) (syncThresholdBlocks rt)) eqn:Hlag;
      [| cbn; split; [reflexivity | discriminate]].
    destruct (contracts rt !! name) as [instances |];
      [| cbn; split; [reflexivity | discriminate]].
    destruct (find (fun target => String.eqb target contractAddress) instances)
      as [contract |] eqn:Hfind; [| cbn; split; [reflexivity | discriminate]].
    cbn. split; [discriminate |].
    intros c fromBlock toBlock H. injection H as <- <- <-.
    destruct (find_some_holds _ _ _ Hfind) as [Heq _]. apply String.eqb_eq in Heq. subst contract.
    exists last. repeat split; auto. left. split; [reflexivity |].
    rewrite Z.gtb_ltb in Hlag. apply Z.ltb_lt in Hlag. exact Hlag.
  - (* HTTP provider *)
    destruct height; cbn; split; try reflexivity; discriminate.
  - (* Solana connection *)
    destruct height as [currentBlock |]; [| cbn; split; [reflexivity | discriminate]].
    destruct (configs rt !! name) as [config |]; [| cbn; split; [reflexivity | discriminate]].
    destruct (cfg_programId config) as [configured |];
      [| cbn; split; [reflexivity | discriminate]].
    destruct (String.eqb configured ""); [cbn; split; [reflexivity | discriminate] |].
    destruct (getLastSyncedBlock s name (sol_programId solana)) as [last |] eqn:Hlast;
      [| cbn; split; [reflexivity | discriminate]].
    destruct (Z.gtb (currentBlock - last) (syncThresholdBlocks rt * 10)) eqn:Hlag;
      [| cbn; split; [reflexivity | discriminate]].
    cbn. split; [discriminate |].
    intros c fromBlock toBlock H. injection H as <- <- <-.
    exists last. repeat split; auto. right. split; [reflexivity |].
    rewrite Z.gtb_ltb in Hlag. apply Z.ltb_lt in Hlag. exact Hlag.
  - cbn. split; [reflexivity | discriminate].
Qed.

(** X16. When the probe reports unhealthy.  A chain without a provider and
    a chain whose height read throws are reported unhealthy and nothing is
    written.  On Solana a height read that answers always leads to the
    report "healthy", also when the catch-up backfill it started has
    failed. *)
Theorem probe_health_report :
  forall chain solana height rt name s,
    let p := checkConnectionHealth chain solana height rt name s in
    (providers rt !! name = None \/ height = None -> p = mkProbe false s None) /\
    (providers rt !! name = Some Connection -> height <> None -> probe_healthy p = true).
Proof.
  intros chain solana height rt name s. cbv zeta.
  unfold checkConnectionHealth, checkSolanaConnectionHealth.
  split.
  - intros [Hp | Hh].
    + rewrite Hp. reflexivity.
    + rewrite Hh. destruct (providers rt !! name) as [[| |] |]; reflexivity.
  - intros Hp Hh. rewrite Hp. destruct height as [currentBlock |]; [| contradiction].
    destruct (configs rt !! name) as [config |]; [| reflexivity].
    destruct (cfg_programId config) as [configured |]; [| reflexivity].
    destruct (String.eqb configured ""); [reflexivity |].
    destruct (getLastSyncedBlock s name (sol_programId solana)); [| reflexivity].
    destruct (Z.gtb _ _); reflexivity.
Qed.

(** ** Listener set-up *)

Lemma cursor_other_keeps name contract n name' contract' :
  (name', contract') <> (name, contract) ->
  keeps (fun s => getLastSyncedBlock s name' contract')
        (updateLastSyncedBlock name contract n).
Proof. intros Hne s. apply cursor_write_other, Hne. Qed.

Lemma processEvent_other_cursor chain chainId event name contract contract' s :
  contract' <> contract ->
  getLastSyncedBlock (fst (processEvent chain chainId event name contract s)) name contract' =
  getLastSyncedBlock s name contract'.
Proof.
  intros Hne.
  assert (Hpair : (name, contract') <> (name, contract)) by congruence.
  unfold processEvent. destruct chainId as [chainId |]; [| reflexivity].
  destruct (args event).
  - unfold processWinnerPickedEvent. rewrite fst_catchDuplicate.
    match goal with
    | |- getLastSyncedBlock (fst (?c s)) _ _ = _ =>
        assert (K : keeps (fun s => getLastSyncedBlock s name contract') c)
    end.
    { solve_frame; apply cursor_other_keeps, Hpair. }
    apply K.
  - unfold processTicketPurchasedEvent. rewrite fst_catchDuplicate.
    match goal with
    | |- getLastSyncedBlock (fst (?c s)) _ _ = _ =>
        assert (K : keeps (fun s => getLastSyncedBlock s name contract') c)
    end.
    { solve_frame; apply cursor_other_keeps, Hpair. }
    apply K.
  - unfold processFirstTicketBonusEvent. rewrite fst_catchDuplicate.
    match goal with
    | |- getLastSyncedBlock (fst (?c s)) _ _ = _ =>
        assert (K : keeps (fun s => getLastSyncedBlock s name contract') c)
    end.
    { solve_frame; apply cursor_other_keeps, Hpair. }
    apply K.
  - reflexivity.
Qed.

Lemma processEvents_other_cursor chain chainId name contract contract' allEvents s :
  contract' <> contract ->
  getLastSyncedBlock (processEvents chain chainId name contract allEvents s) name contract' =
  getLastSyncedBlock s name contract'.
Proof.
  intros Hne. revert s. induction allEvents as [| [event |] rest IH]; intros s; cbn.
  - reflexivity.
  - rewrite IH. apply processEvent_other_cursor, Hne.
  - apply IH.
Qed.

Lemma chunkLoop_other_cursor chain chainId name contractAddress toBlock currentFrom s
    contract' :
  contract' <> contractAddress ->
  getLastSyncedBlock
    (bf_store (chunkLoop chain chainId name contractAddress toBlock currentFrom s))
    name contract' =
  getLastSyncedBlock s name contract'.
Proof.
  intros Hne.
  funelim (chunkLoop chain chainId name contractAddress toBlock currentFrom s);
    clear Heqcall.
  - reflexivity.
  - cbn [bf_store]. rewrite H by exact Hne.
    rewrite cursor_write_other by congruence.
    apply processEvents_other_cursor, Hne.
  - reflexivity.
Qed.

Lemma fetch_other_cursor chain chainId name contract fromBlock toBlock s contract' :
  contract' <> contract ->
  getLastSyncedBlock
    (bf_store (fetchHistoricalEvents chain chainId name contract fromBlock toBlock s))
    name contract' =
  getLastSyncedBlock s name contract'.
Proof.
  intros Hne. unfold fetchHistoricalEvents.
  destruct (Z.leb _ _); [| apply chunkLoop_other_cursor, Hne].
  destruct (queryFilter chain contract fromBlock toBlock); [| reflexivity].
  cbn [bf_store]. rewrite cursor_write_other by congruence.
  apply processEvents_other_cursor, Hne.
Qed.

Lemma chunkLoop_answered chain chainId name contractAddress toBlock currentFrom s :
  (forall f t, queryFilter chain contractAddress f t <> None) ->
  name <> "" -> contractAddress <> "" -> toBlock <> 0 -> currentFrom <= toBlock ->
  let b := chunkLoop chain chainId name contractAddress toBlock currentFrom s in
  bf_result b = true /\
  getLastSyncedBlock (bf_store b) name contractAddress = Some toBlock.
Proof.
  intros Hq Hname Hc Hto. cbv zeta.
  funelim (chunkLoop chain chainId name contractAddress toBlock currentFrom s);
    intros Hle; clear Heqcall.
  - contradiction.
  - cbn [bf_result bf_store].
    set (currentTo := Z.min (currentFrom + maxBlockRange - 1) toBlock) in *.
    destruct (Z_le_dec (currentTo + 1) toBlock) as [Hmore | Hdone].
    + apply H; assumption.
    + assert (Heq' : currentTo = toBlock).
      { unfold currentTo, maxBlockRange in *. lia. }
      rewrite chunkLoop_equation_1.
      destruct (Z_le_dec (currentTo + 1) toBlock); [contradiction |].
      cbn. split; [reflexivity |]. rewrite Heq'. apply cursor_after_write; assumption.
  - exfalso. exact (Hq _ _ Heq).
Qed.

Lemma fetch_answered chain chainId name contract fromBlock toBlock s :
  (forall f t, queryFilter chain contract f t <> None) ->
  name <> "" -> contract <> "" -> toBlock <> 0 ->
  let b := fetchHistoricalEvents chain chainId name contract fromBlock toBlock s in
  bf_result b = true /\ getLastSyncedBlock (bf_store b) name contract = Some toBlock.
Proof.
  intros Hq Hname Hc Hto. cbv zeta. unfold fetchHistoricalEvents.
  destruct (Z.leb (toBlock - fromBlock + 1) maxBlockRange) eqn:E.
  - destruct (queryFilter chain contract fromBlock toBlock) eqn:Eq;
      [| exfalso; exact (Hq _ _ Eq)].
    cbn. split; [reflexivity |]. apply cursor_after_write; assumption.
  - apply Z.leb_gt in E. apply chunkLoop_answered; auto.
    unfold maxBlockRange in E. lia.
Qed.

Lemma listenContracts_catches_up chain chainId deploymentBlock name currentBlock contracts :
  name <> "" -> 0 < currentBlock ->
  (forall c f t, queryFilter chain c f t <> None) ->
  (forall c, In c contracts -> c <> "" /\ deploymentBlock c <> None) ->
  forall s,
  exists s',
    listenContracts chain chainId deploymentBlock name currentBlock contracts s
      = ListenDone s' /\
    (forall c, caughtUp s name c currentBlock -> caughtUp s' name c currentBlock) /\
    (forall c, In c contracts -> caughtUp s' name c currentBlock).
Proof.
  intros Hname Hcur Hq. induction contracts as [| c rest IH]; intros Hcs s.
  - exists s. cbn. split; [reflexivity |]. split; [auto | intros c []].
  - destruct (Hcs c (or_introl eq_refl)) as [Hc Hdep].
    assert (Hrest : forall c0, In c0 rest -> c0 <> "" /\ deploymentBlock c0 <> None)
      by (intros c0 H0; apply Hcs; right; exact H0).
    assert (Hstep : forall fromBlock,
              let s1 := bf_store (fetchHistoricalEvents chain chainId name c fromBlock
                                    currentBlock s) in
              caughtUp s1 name c currentBlock /\
              (forall c0, c0 <> c -> caughtUp s name c0 currentBlock ->
                          caughtUp s1 name c0 currentBlock)).
    { intros fromBlock. cbv zeta. split.
      - destruct (fetch_answered chain chainId name c fromBlock currentBlock s
                    (Hq c) Hname Hc ltac:(lia)) as [_ Hk].
        exists currentBlock. split; [exact Hk | lia].
      - intros c0 Hne (k & Hk & Hle). exists k. split; [| exact Hle].
        rewrite fetch_other_cursor by exact Hne. exact Hk. }
    assert (Hfinish : forall s1,
              caughtUp s1 name c currentBlock ->
              (forall c0, c0 <> c -> caughtUp s name c0 currentBlock ->
                          caughtUp s1 name c0 currentBlock) ->
              exists s',
                listenContracts chain chainId deploymentBlock name currentBlock rest s1
                  = ListenDone s' /\
                (forall c0, caughtUp s name c0 currentBlock ->
                            caughtUp s' name c0 currentBlock) /\
                (forall c0, In c0 (c :: rest) -> caughtUp s' name c0 currentBlock)).
    { intros s1 Hown Hothers.
      destruct (IH Hrest s1) as (s' & E & Hkeep & Hall).
      exists s'. split; [exact E |]. split.
      - intros c0 H0. apply Hkeep.
        destruct (String.eqb_spec c0 c) as [-> | Hne]; [exact Hown | apply Hothers; auto].
      - intros c0 [<- | H0]; [apply Hkeep, Hown | apply Hall, H0]. }
    cbn [listenContracts].
    destruct (getLastSyncedBlock s name c) as [last |] eqn:Hlast.
    + destruct (Z.ltb last currentBlock) eqn:Hlt.
      * destruct (Hstep (last + 1)) as [H1 H2]. apply Hfinish; assumption.
      * apply Z.ltb_ge in Hlt. apply Hfinish; [| auto].
        exists last. auto.
    + destruct (deploymentBlock c) as [fromBlock |]; [| contradiction].
      destruct (Hstep fromBlock) as [H1 H2]. apply Hfinish; assumption.
Qed.

Lemma collectSignatures_answered pageThrows fromBlock toBlock pageIndex older allSignatures :
  (forall n, pageThrows n = false) ->
  collectSignatures pageThrows fromBlock toBlock pageIndex older allSignatures
    <> PagingThrew.
Proof.
  intros Hq.
  funelim (collectSignatures pageThrows fromBlock toBlock pageIndex older allSignatures);
    clear Heqcall.
  - rewrite Hq in Heq. discriminate.
  - discriminate.
  - destruct (Z.ltb _ _); [discriminate |].
    destruct (Z.ltb _ _); [discriminate |].
    destruct (Nat.ltb _ _); [discriminate |]. exact (H Hq).
Qed.

(** X17. The listener set-up brings the cursors up to the height it read at
    its start.  On an EVM chain whose node answers every log query and
    deployment-block search, the set-up returns and every configured
    contract then has a cursor at that height or beyond: a contract without
    cursor is backfilled from its deployment block, a contract that lags from
    cursor + 1, and a contract that is ahead is left alone.  On Solana the
    same holds for the program's cursor when no page request throws. *)
Theorem listener_setup_catches_up :
  (forall chain chainId deploymentBlock name contracts currentBlock s,
     name <> "" -> 0 < currentBlock ->
     (forall c f t, queryFilter chain c f t <> None) ->
     (forall c, In c contracts -> c <> "" /\ deploymentBlock c <> None) ->
     exists s',
       listenToEthereumEvents chain chainId deploymentBlock name (Some contracts)
         (Some currentBlock) s = ListenDone s' /\
       forall c, In c contracts -> caughtUp s' name c currentBlock) /\
  (forall chain name currentBlock s,
     name <> "" -> sol_programId chain <> "" -> 0 < currentBlock ->
     (forall n, sol_pageThrows chain n = false) ->
     exists s',
       listenToSolanaEvents chain name (Some currentBlock) s = ListenDone s' /\
       caughtUp s' name (sol_programId chain) currentBlock).
Proof.
  split.
  - intros chain chainId deploymentBlock name contracts currentBlock s Hname Hcur Hq Hcs.
    cbn [listenToEthereumEvents].
    destruct (listenContracts_catches_up chain chainId deploymentBlock name currentBlock
                contracts Hname Hcur Hq Hcs s) as (s' & E & _ & Hall).
    exists s'. auto.
  - intros chain name currentBlock s Hname Hpid Hcur Hq.
    assert (Hfetch : forall fromBlock isHistorical,
              caughtUp (sb_store (fetchSolanaTransactions chain name fromBlock currentBlock
                                    isHistorical s)) name (sol_programId chain) currentBlock).
    { intros fromBlock isHistorical. unfold fetchSolanaTransactions.
      destruct (collectSignatures (sol_pageThrows chain) fromBlock currentBlock 0
                  (sol_history chain) []) as [| all] eqn:E.
      - exfalso. exact (collectSignatures_answered _ _ _ _ _ _ Hq E).
      - cbn [sb_store]. exists currentBlock. split; [| lia].
        apply cursor_after_write; auto. lia. }
    unfold listenToSolanaEvents. cbv zeta.
    destruct (getLastSyncedBlock s name (sol_programId chain)) as [last |] eqn:Hlast.
    + destruct (Z.ltb last currentBlock) eqn:Hlt.
      * eexists. split; [reflexivity | apply Hfetch].
      * apply Z.ltb_ge in Hlt. eexists. split; [reflexivity |]. exists last. auto.
    + eexists. split; [reflexivity | apply Hfetch].
Qed.

(** ** Win notifications *)

Lemma lost_of_players event winner user players :
  length (lostNotifications user
            (map (fun player => mkNotification player event false false)
                 (List.filter (fun player => negb (String.eqb player winner)) players))) =
  if String.eqb user winner then 0%nat else count_occ string_dec players user.
Proof.
  unfold lostNotifications. induction players as [| p t IH]; cbn.
  - destruct (String.eqb user winner); reflexivity.
  - destruct (String.eqb_spec p winner) as [-> | Hpw]; cbn.
    + rewrite IH. destruct (String.eqb_spec user winner) as [-> | Huw]; [reflexivity |].
      destruct (string_dec winner user); [congruence | reflexivity].
    + destruct (String.eqb_spec p user) as [-> | Hpu]; cbn.
      * rewrite IH. destruct (String.eqb_spec user winner); [contradiction |].
        destruct (string_dec user user); [reflexivity | contradiction].
      * rewrite IH. destruct (String.eqb user winner); [reflexivity |].
        destruct (string_dec p user); [contradiction | reflexivity].
Qed.

(** X18. [createWinNotifications] writes exactly one winner notification,
    for the winner of the event; a player other than the winner gets one
    "lost" notification for each time they are listed among the players, the
    winner gets none even when listed; every notification is unread and
    refers to the event. *)
Theorem win_notifications_one_winner :
  forall winEvent,
    let ns := createWinNotifications winEvent in
    let event := (we_transactionHash winEvent, we_logIndex winEvent) in
    List.filter n_isWinner ns = [mkNotification (we_winner winEvent) event true false] /\
    (forall user,
       length (lostNotifications user ns) =
       if String.eqb user (we_winner winEvent) then 0%nat
       else count_occ string_dec (we_players winEvent) user) /\
    Forall (fun n => n_isRead n = false /\ n_winEvent n = event) ns.
Proof.
  intros winEvent. cbv zeta. unfold createWinNotifications.
  split; [| split].
  - cbn. f_equal.
    induction (List.filter _ (we_players winEvent)) as [| p t IH]; cbn; auto.
  - intros user. unfold lostNotifications at 1. cbn [List.filter n_isWinner negb andb].
    apply lost_of_players.
  - constructor; [cbn; auto |].
    apply List.Forall_forall. intros n Hn. apply in_map_iff in Hn.
    destruct Hn as (p & <- & _). cbn. auto.
Qed.

(** ** Which event an instruction applies *)

Lemma solana_purchase_appends contract chainId sig block name idx events s
    token round_id buyer count total_amount prize_amount commission_amount timestamp :
  find isTicketPurchased events =
    Some (SolTicketPurchased token round_id buyer count total_amount prize_amount
            commission_amount timestamp) ->
  hasTicketPurchase s sig idx = false ->
  let once := fst (processSolanaTicketPurchasedEvent contract chainId sig block name
                     idx events s) in
  ticket_purchases once =
    ticket_purchases s ++
    [mkTicketPurchase buyer token round_id chainId contract count total_amount
       (timestamp * 1000) sig idx] /\
  ticketCountOf once buyer token round_id contract =
    ticketCountOf s buyer token round_id contract + count.
Proof.
  intros Hfind Hfresh. cbv zeta.
  split; [| apply (solana_purchase_first_delivery contract chainId sig block name idx events s
                     token round_id buyer count total_amount prize_amount commission_amount
                     timestamp Hfind Hfresh)].
  destruct (solana_purchase_unfold contract chainId sig block name idx events s
              _ _ _ _ _ _ _ _ Hfind) as (tail & Ktp & _ & _ & ->).
  rewrite fst_catchDuplicate. unfold bind.
  destruct (getOrCreateUser_spec buyer s) as (s' & -> & _ & _ & _ & Htp & _).
  unfold saveTicketPurchase. cbn [tp_transactionHash tp_logIndex].
  assert (Hfresh' : hasTicketPurchase s' sig idx = false).
  { unfold hasTicketPurchase in *. rewrite Htp. exact Hfresh. }
  rewrite Hfresh'.
  set (s2 := set_ticket_purchases s' _).
  pose proof (keeps_tp_updateStatsOnPurchase buyer token round_id contract count
                (timestamp * 1000) s2) as K3.
  destruct (updateStatsOnPurchase_row buyer token round_id contract count
              (timestamp * 1000) s2) as (s3 & r & E3 & _).
  rewrite E3 in K3 |- *. cbn [fst] in K3.
  rewrite Ktp, K3. unfold s2. cbn. rewrite Htp. reflexivity.
Qed.

Lemma hasTicketPurchase_app s tx idx l :
  ticket_purchases s = l ->
  hasTicketPurchase s tx idx =
    existsb (fun r => sameTxLog tx idx (tp_transactionHash r) (tp_logIndex r)) l.
Proof. intros <-. reflexivity. Qed.

(** X19. Every [buy_tickets_sol] instruction of a transaction applies the
    first TicketPurchased event of the transaction's logs, under its own
    instruction index.  A transaction with two such top-level instructions
    therefore stores that first purchase twice, as log index 0 and 1, and
    counts its tickets twice; a TicketPurchased event that follows it in the
    logs is not applied.  The values of the transaction are ones the columns
    hold ([deliveryFits]), and so are the counters of the aggregate rows
    after each of the two instructions ([aggregatesFit]); outside these
    ranges the database refuses the write. *)
Theorem two_purchase_instructions_apply_the_first_event_twice :
  forall chain name sig block isHistorical s instruction events
         token round_id buyer count total_amount prize_amount commission_amount timestamp,
    sol_hasIdl chain = true ->
    ix_isProgram instruction = true ->
    ix_decoded instruction = ReadValue buy_tickets_sol ->
    find isTicketPurchased events =
      Some (SolTicketPurchased token round_id buyer count total_amount prize_amount
              commission_amount timestamp) ->
    hasTicketPurchase s sig 0 = false -> hasTicketPurchase s sig 1 = false ->
    let tx := mkSolanaTx block [instruction; instruction] (MetaOk [] events) in
    let once := fst (processSolanaTicketPurchasedEvent (sol_programId chain)
                       (sol_chainId chain) sig block name 0 events s) in
    let after := processSolanaTransactionData chain name tx sig block isHistorical s in
    let row := mkTicketPurchase buyer token round_id (sol_chainId chain)
                 (sol_programId chain) count total_amount (timestamp * 1000) sig in
    deliveryFits (SolanaTicketPurchased (sol_programId chain) (sol_chainId chain) sig block
                    name 0 events) = true ->
    aggregatesFit once = true -> aggregatesFit after = true ->
    ticket_purchases after = ticket_purchases s ++ [row 0; row 1] /\
    ticketCountOf after buyer token round_id (sol_programId chain) =
      ticketCountOf s buyer token round_id (sol_programId chain) + 2 * count.
Proof.
  intros chain name sig block isHistorical s instruction events
    token round_id buyer count total_amount prize_amount commission_amount timestamp
    Hidl Hprog Hdec Hfind H0 H1. cbv zeta. intros _ _ _.
  unfold processSolanaTransactionData. cbn [tx_meta tx_instructions processInnerSets
    processTopLevel]. rewrite Hprog.
  unfold decodeSolanaInstruction. rewrite Hidl, Hdec.
  destruct (solana_purchase_appends (sol_programId chain) (sol_chainId chain) sig block name
              0 events s _ _ _ _ _ _ _ _ Hfind H0) as [Htp1 Hc1].
  set (s1 := fst (processSolanaTicketPurchasedEvent (sol_programId chain) (sol_chainId chain)
                    sig block name 0 events s)) in *.
  assert (H1' : hasTicketPurchase s1 sig (0 + 1) = false).
  { rewrite (hasTicketPurchase_app s1 sig (0 + 1) _ Htp1), existsb_app.
    unfold hasTicketPurchase in H1. change (0 + 1) with 1. rewrite H1. cbn.
    unfold sameTxLog. cbn. rewrite andb_false_r. reflexivity. }
  destruct (solana_purchase_appends (sol_programId chain) (sol_chainId chain) sig block name
              (0 + 1) events s1 _ _ _ _ _ _ _ _ Hfind H1') as [Htp2 Hc2].
  split.
  - rewrite Htp2, Htp1, <- app_assoc. reflexivity.
  - rewrite Hc2, Hc1. lia.
Qed.

(** ** The players of a round *)

Lemma NoDup_players (l : list UserRoundStats) t r c :
  uniqueStats l ->
  List.NoDup (map urs_user
                (List.filter (fun x => Z.eqb (urs_roundId x) r &&
                                       String.eqb (urs_contractAddress x) c &&
                                       String.eqb (urs_token x) t) l)).
Proof.
  unfold uniqueStats. induction l as [| x rest IH]; cbn; intros Hnd; [constructor |].
  inversion Hnd as [| ? ? Hx Hrest]; subst.
  destruct (Z.eqb (urs_roundId x) r && String.eqb (urs_contractAddress x) c &&
            String.eqb (urs_token x) t) eqn:E; cbn; [| auto].
  constructor; [| auto].
  intros Hin. apply in_map_iff in Hin. destruct Hin as (y & Hu & Hy).
  apply filter_In in Hy. destruct Hy as [Hy Ey].
  apply andb_true_iff in E, Ey. destruct E as [E E3], Ey as [Ey Ey3].
  apply andb_true_iff in E, Ey. destruct E as [E1 E2], Ey as [Ey1 Ey2].
  apply Z.eqb_eq in E1, Ey1. apply String.eqb_eq in E2, E3, Ey2, Ey3.
  apply Hx. apply in_map_iff. exists y. split; [| exact Hy].
  unfold keyOf. congruence.
Qed.

(** X20. On every store that the handlers can produce, [getRoundPlayers]
    lists each player of the round once, and a user is listed exactly when
    they have an aggregate row for the round. *)
Theorem round_players_are_listed_once :
  forall s contractAddress tokenAddress roundId,
    reachable s ->
    List.NoDup (roundPlayersOf s contractAddress tokenAddress roundId) /\
    forall user,
      In user (roundPlayersOf s contractAddress tokenAddress roundId) <->
      statsRow s user tokenAddress roundId contractAddress <> None.
Proof.
  intros s c t r Hreach. unfold roundPlayersOf, getRoundPlayers. cbn [snd].
  destruct (reachable_statsInvariant s Hreach) as [Hu _].
  split; [apply NoDup_players, Hu |].
  intros user. unfold statsRow. rewrite in_map_iff. split.
  - intros (x & Hx & Hin). apply filter_In in Hin. destruct Hin as [Hin E].
    apply andb_true_iff in E. destruct E as [E E3].
    apply andb_true_iff in E. destruct E as [E1 E2].
    apply Z.eqb_eq in E1. apply String.eqb_eq in E2, E3.
    intros Hnone.
    assert (Hex : existsb (statsKey user t r c) (user_round_stats s) = true).
    { apply existsb_exists. exists x. split; [exact Hin |].
      apply statsKey_iff. unfold keyOf. congruence. }
    rewrite existsb_find, Hnone in Hex. discriminate.
  - intros Hsome.
    destruct (find (statsKey user t r c) (user_round_stats s)) as [x |] eqn:E;
      [| contradiction].
    destruct (find_some_holds _ _ _ E) as [Hk Hin].
    destruct (statsKey_fields _ _ _ _ _ Hk) as (Eu & Et & Er & Ec).
    exists x. split; [exact Eu |]. apply filter_In. split; [exact Hin |].
    rewrite Er, Ec, Et, Z.eqb_refl, !String.eqb_refl. reflexivity.
Qed.

(** ** Round rows over time *)

Lemma roundKept_refl r : roundKept r r.
Proof. unfold roundKept. auto 10. Qed.

Lemma roundKept_trans r1 r2 r3 : roundKept r1 r2 -> roundKept r2 r3 -> roundKept r1 r3.
Proof.
  unfold roundKept. intros (A1 & A2 & A3 & A4 & A5 & A6 & A7) (B1 & B2 & B3 & B4 & B5 & B6 & B7).
  repeat split; try congruence. auto.
Qed.

Lemma Forall2_roundKept_refl l : Forall2 roundKept l l.
Proof. induction l; constructor; auto using roundKept_refl. Qed.

Lemma roundsKept_refl l : roundsKept l l.
Proof. exists l, []. split; [rewrite app_nil_r; reflexivity | apply Forall2_roundKept_refl]. Qed.

Lemma Forall2_roundKept_trans l1 l2 l3 :
  Forall2 roundKept l1 l2 -> Forall2 roundKept l2 l3 -> Forall2 roundKept l1 l3.
Proof.
  intros H. revert l3. induction H as [| x y l1 l2 Hxy H IH]; intros l3 H3.
  - inversion H3. constructor.
  - inversion H3 as [| ? z ? l3' Hyz H3']; subst. constructor; [| auto].
    apply (roundKept_trans x y z); assumption.
Qed.

Lemma roundsKept_trans l1 l2 l3 : roundsKept l1 l2 -> roundsKept l2 l3 -> roundsKept l1 l3.
Proof.
  intros (k & a & -> & Hk) (k' & a' & -> & Hk').
  apply Forall2_app_inv_l in Hk'. destruct Hk' as (k1 & k2 & H1 & H2 & ->).
  exists k1, (k2 ++ a'). split; [rewrite app_assoc; reflexivity |].
  apply (Forall2_roundKept_trans l1 k k1); assumption.
Qed.

Lemma roundsKept_update p f l :
  (forall r, roundKept r (f r)) -> roundsKept l (update_first p f l).
Proof.
  intros Hf. exists (update_first p f l), []. split; [rewrite app_nil_r; reflexivity |].
  induction l as [| x t IH]; cbn; [constructor |].
  destruct (p x); constructor; auto using roundKept_refl, Forall2_roundKept_refl.
Qed.

Lemma keepsRounds_ret {A} (a : A) : keepsRounds (ret a).
Proof. intros s. apply roundsKept_refl. Qed.

Lemma keepsRounds_throw {A} e : keepsRounds (@throw A e).
Proof. intros s. apply roundsKept_refl. Qed.

Lemma keepsRounds_bind {A B} (c : Db A) (k : A -> Db B) :
  keepsRounds c -> (forall a, keepsRounds (k a)) -> keepsRounds (bind c k).
Proof.
  intros Hc Hk s. unfold bind. specialize (Hc s).
  destruct (c s) as [s' [e | a]]; cbn in *; [exact Hc |].
  apply (roundsKept_trans _ (rounds s')); [exact Hc | apply Hk].
Qed.

Lemma keepsRounds_of_keeps {A} (c : Db A) : keeps rounds c -> keepsRounds c.
Proof. intros K s. rewrite K. apply roundsKept_refl. Qed.

Lemma keepsRounds_insertRound r : keepsRounds (insertRound r).
Proof.
  intros s. cbn. exists (rounds s), [r]. split; [reflexivity | apply Forall2_roundKept_refl].
Qed.

Lemma keepsRounds_updateRound t r c ch f :
  (forall x, roundKept x (f x)) -> keepsRounds (updateRound t r c ch f).
Proof. intros Hf s. cbn. apply roundsKept_update, Hf. Qed.

Ltac solve_keepsRounds :=
  repeat first
    [ apply keepsRounds_ret
    | apply keepsRounds_throw
    | apply keepsRounds_insertRound
    | apply keepsRounds_updateRound; intros; unfold roundKept; cbn; solve [auto 10]
    | solve [apply keepsRounds_of_keeps; solve_frame]
    | apply keepsRounds_bind; [| intros]
    | match goal with
      | |- keepsRounds (match ?x with _ => _ end) => destruct x
      | |- keepsRounds (if ?x then _ else _) => destruct x
      end ].

(** X21. No handler and no cursor write deletes a round row, moves it,
    changes its identity or its time window, or takes back a claimed prize:
    after any delivery other than the purge, the rounds table consists of
    the rows it had, each still marked claimed if it was, followed by the
    rows that were added. *)
Theorem round_rows_are_kept :
  forall d s, d <> Purge -> roundsKept (rounds s) (rounds (deliver d s)).
Proof.
  intros d s Hd.
  assert (G : forall c : Db unit, keepsRounds c ->
                roundsKept (rounds s) (rounds (fst (catchDuplicate c s)))).
  { intros c Hc. rewrite fst_catchDuplicate. apply Hc. }
  destruct d; cbn [deliver]; try contradiction.
  - unfold processTicketPurchasedEvent. apply G. solve_keepsRounds.
  - unfold processFirstTicketBonusEvent. apply G. solve_keepsRounds.
  - unfold processWinnerPickedEvent. apply G. solve_keepsRounds.
  - unfold processSolanaTicketPurchasedEvent. apply G. solve_keepsRounds.
  - unfold processSolanaWinnerPickedEvent. apply G. solve_keepsRounds.
  - unfold processAllRequestsCompletedEvent. apply G. solve_keepsRounds.
  - unfold processSolanaPrizeClaimedEvent. apply G.
    destruct (find isPrizeClaimed events) as [[] |]; try apply keepsRounds_ret.
    intros s0.
    destruct (existsb _ _); [| apply roundsKept_refl].
    destruct (find _ _); [| apply roundsKept_refl].
    rewrite keeps_rounds_updateLastSyncedBlock. cbn.
    apply roundsKept_update. intros x. unfold roundKept. cbn. auto 10.
  - rewrite keeps_rounds_updateLastSyncedBlock. apply roundsKept_refl.
Qed.

(** ** Events that fail inside a backfill *)

Lemma processEvents_all_fail chain chainId name contract allEvents s :
  (forall e st, In (Decoded e) allEvents ->
                fst (processEvent chain chainId e name contract st) = st) ->
  processEvents chain chainId name contract allEvents s = s.
Proof.
  revert s. induction allEvents as [| [e |] rest IH]; intros s H; cbn.
  - reflexivity.
  - rewrite H by (left; reflexivity). apply IH. intros e0 st Hin. apply H. right. exact Hin.
  - apply IH. intros e0 st Hin. apply H. right. exact Hin.
Qed.

(** X22. A log whose handler throws is skipped, and the backfill moves the
    cursor past it all the same.  When the chain has no configuration, or
    when every log of the range is a WinnerPicked whose [getRoundResult]
    read throws, a backfill whose query answers returns true and changes
    nothing but the cursor, which then reads as the last block of the range:
    the skipped logs are not fetched again. *)
Theorem failed_events_are_skipped_for_good :
  forall chain chainId name contract fromBlock toBlock s allEvents,
    name <> "" -> contract <> "" -> toBlock <> 0 ->
    toBlock - fromBlock + 1 <= maxBlockRange ->
    queryFilter chain contract fromBlock toBlock = Some allEvents ->
    (chainId = None \/
     forall e, In (Decoded e) allEvents ->
       exists token roundId timestamp,
         args e = WinnerPicked token roundId timestamp /\
         getRoundResult chain name token roundId = ReadThrows) ->
    let b := fetchHistoricalEvents chain chainId name contract fromBlock toBlock s in
    bf_result b = true /\
    bf_store b = fst (updateLastSyncedBlock name contract toBlock s) /\
    getLastSyncedBlock (bf_store b) name contract = Some toBlock.
Proof.
  intros chain chainId name contract fromBlock toBlock s allEvents
    Hname Hc Hto Hspan Hq Hfail. cbv zeta.
  unfold fetchHistoricalEvents.
  apply Z.leb_le in Hspan. rewrite Hspan, Hq. cbn [bf_result bf_store].
  rewrite processEvents_all_fail.
  - split; [reflexivity |]. split; [reflexivity |]. apply cursor_after_write; assumption.
  - intros e st Hin. unfold processEvent.
    destruct Hfail as [-> | Hfail]; [reflexivity |].
    destruct chainId as [id |]; [| reflexivity].
    destruct (Hfail e Hin) as (token & roundId & timestamp & -> & Hread).
    unfold processWinnerPickedEvent. rewrite Hread. reflexivity.
Qed.

(** ** Replaying purchase logs *)

Lemma evm_purchase_handler token roundId buyer count totalAmount timestamp chainId tx blockNo
    name contract idx s :
  let after := fst (processTicketPurchasedEvent token roundId buyer count totalAmount
                      timestamp chainId tx blockNo name contract idx s) in
  hasUser after buyer = true /\ hasTicketPurchase after tx idx = true /\ grows s after /\
  (hasUser s buyer = true -> hasTicketPurchase s tx idx = true -> after = s).
Proof.
  cbv zeta. unfold processTicketPurchasedEvent. rewrite fst_catchDuplicate.
  set (mk := fun user => mkTicketPurchase user token roundId chainId contract count
                           totalAmount (timestamp * 1000) tx idx).
  set (rest := fun user : string =>
                 updateStatsOnPurchase user token roundId contract count (timestamp * 1000) ;;;
                 updateLastSyncedBlock name contract blockNo).
  assert (Hkey : forall u, tp_transactionHash (mk u) = tx /\ tp_logIndex (mk u) = idx)
    by (intros; split; reflexivity).
  assert (Hrest : forall u, monotone (rest u)) by (intros u; apply monotone_purchase_tail).
  destruct (keyed_insert_leaves_key buyer tx idx mk rest Hkey Hrest s) as [Hu Ht].
  split; [exact Hu |]. split; [exact Ht |]. split.
  - assert (Hm : monotone (user <-- getOrCreateUser buyer ;;
                           saveTicketPurchase (mk user) ;;; rest user)).
    { apply monotone_bind; [apply monotone_getOrCreateUser | intros u].
      apply monotone_bind; [apply monotone_saveTicketPurchase | intros; apply Hrest]. }
    apply Hm.
  - intros Hu0 Ht0.
    change (fst ((user <-- getOrCreateUser buyer ;;
                  saveTicketPurchase (mk user) ;;; rest user) s) = s).
    rewrite (keyed_insert_duplicate buyer tx idx mk rest Hkey s Hu0 Ht0). reflexivity.
Qed.

Lemma applied_grows s s' e : grows s s' -> applied s e = true -> applied s' e = true.
Proof.
  intros [Gu Gt]. unfold applied. destruct (args e); auto.
  intros H. apply andb_true_iff in H. destruct H as [H1 H2].
  apply andb_true_iff. split; [apply Gu, H1 | apply Gt, H2].
Qed.

Lemma processEvents_purchases_grow chain chainId name contract allEvents s :
  purchasesOnly allEvents = true ->
  grows s (processEvents chain (Some chainId) name contract allEvents s).
Proof.
  revert s. induction allEvents as [| [e |] rest IH]; intros s H; cbn in *.
  - apply grows_refl.
  - apply andb_true_iff in H. destruct H as [He Hrest].
    apply (grows_trans _ (fst (processEvent chain (Some chainId) e name contract s)));
      [| apply IH, Hrest].
    unfold processEvent. destruct (args e); try discriminate He.
    apply evm_purchase_handler.
  - apply IH. exact H.
Qed.

Lemma processEvents_applies chain chainId name contract allEvents s :
  purchasesOnly allEvents = true ->
  forall e, In (Decoded e) allEvents ->
    applied (processEvents chain (Some chainId) name contract allEvents s) e = true.
Proof.
  revert s. induction allEvents as [| [e0 |] rest IH]; intros s H e Hin; cbn in *.
  - contradiction.
  - apply andb_true_iff in H. destruct H as [He Hrest].
    destruct Hin as [Heq | Hin]; [| apply IH; assumption].
    injection Heq as ->.
    apply (applied_grows (fst (processEvent chain (Some chainId) e name contract s)));
      [apply processEvents_purchases_grow, Hrest |].
    unfold processEvent, applied. destruct (args e); try discriminate He.
    destruct (evm_purchase_handler token roundId buyer count totalAmount timestamp chainId
                (transactionHash e) (blockNumber e) name contract (index e) s)
      as (H1 & H2 & _).
    rewrite H1, H2. reflexivity.
  - destruct Hin as [Heq | Hin]; [discriminate | apply IH; assumption].
Qed.

Lemma processEvents_replay chain chainId name contract allEvents s :
  purchasesOnly allEvents = true ->
  (forall e, In (Decoded e) allEvents -> applied s e = true) ->
  processEvents chain (Some chainId) name contract allEvents s = s.
Proof.
  induction allEvents as [| [e |] rest IH]; intros H Happ;
    cbn [processEvents purchasesOnly forallb] in *.
  - reflexivity.
  - apply andb_true_iff in H. destruct H as [He Hrest].
    assert (Hstep : fst (processEvent chain (Some chainId) e name contract s) = s).
    { specialize (Happ e (or_introl eq_refl)). unfold processEvent, applied in *.
      destruct (args e); try discriminate He.
      apply andb_true_iff in Happ. destruct Happ as [H1 H2].
      apply evm_purchase_handler; assumption. }
    rewrite Hstep. apply IH; [exact Hrest |]. intros e0 H0. apply Happ. right. exact H0.
  - apply IH; [exact H |]. intros e0 H0. apply Happ. right. exact H0.
Qed.

Lemma cursor_write_same name contract n s :
  getLastSyncedBlock s name contract = Some n ->
  fst (updateLastSyncedBlock name contract n s) = s.
Proof.
  destruct s as [us tps ftbs wes urs rds syncs].
  unfold getLastSyncedBlock, findSync, updateLastSyncedBlock. cbn [blockchain_sync].
  intros H.
  destruct (Z.eqb n 0 || String.eqb name "" || String.eqb contract ""); [reflexivity |].
  destruct (find (syncKey name contract) syncs) as [r |] eqn:E; [| discriminate].
  destruct (Z.eqb (bs_lastSyncedBlock r) 0); [discriminate |]. injection H as H.
  assert (Hl : update_first (syncKey name contract)
                 (fun r0 => mkBlockchainSync (bs_blockchainName r0) (bs_contractAddress r0) n)
                 syncs = syncs).
  { revert E H. clear. induction syncs as [| x t IH]; cbn; [reflexivity |].
    destruct (syncKey name contract x).
    - intros Hx H. injection Hx as ->. destruct r. cbn in *. subst. reflexivity.
    - intros Hx H. rewrite IH by assumption. reflexivity. }
  unfold set_blockchain_sync. cbn. rewrite Hl, E. reflexivity.
Qed.

(** X23. Replaying a range of purchase logs changes nothing.  When the logs
    of a range are TicketPurchased logs, a second backfill of the range
    leaves the store exactly as the first one left it: every purchase is
    recognised as a duplicate, no row is added, no count is raised and the
    cursor is written with the value it has. *)
Theorem replaying_purchase_logs_is_a_noop :
  forall chain chainId name contract fromBlock toBlock s allEvents,
    name <> "" -> contract <> "" -> toBlock <> 0 ->
    toBlock - fromBlock + 1 <= maxBlockRange ->
    queryFilter chain contract fromBlock toBlock = Some allEvents ->
    purchasesOnly allEvents = true ->
    let once := bf_store (fetchHistoricalEvents chain (Some chainId) name contract
                            fromBlock toBlock s) in
    bf_store (fetchHistoricalEvents chain (Some chainId) name contract fromBlock toBlock
                once) = once.
Proof.
  intros chain chainId name contract fromBlock toBlock s allEvents
    Hname Hc Hto Hspan Hq Hp. cbv zeta.
  unfold fetchHistoricalEvents. apply Z.leb_le in Hspan. rewrite Hspan, Hq.
  cbn [bf_store].
  set (s1 := processEvents chain (Some chainId) name contract allEvents s).
  set (s2 := fst (updateLastSyncedBlock name contract toBlock s1)).
  assert (Happ : forall e, In (Decoded e) allEvents -> applied s2 e = true).
  { intros e Hin. apply (applied_grows s1).
    - apply grows_same; unfold s2;
        [apply keeps_users_updateLastSyncedBlock | apply keeps_tp_updateLastSyncedBlock].
    - apply processEvents_applies; assumption. }
  rewrite (processEvents_replay chain chainId name contract allEvents s2 Hp Happ).
  apply cursor_write_same. unfold s2. apply cursor_after_write; assumption.
Qed.

(** ** One aggregate row per delivery *)

Lemma purchase_keeps_other_rows u t r c n ts u' t' r' c' :
  (u', t', r', c') <> (u, t, r, c) ->
  keeps (fun s => statsRow s u' t' r' c') (updateStatsOnPurchase u t r c n ts).
Proof.
  intros Hne s.
  destruct (updateStatsOnPurchase_writes u t r c n ts s) as (s' & row & E & _ & _ & _ & Ho & _).
  rewrite E. apply Ho, Hne.
Qed.

Lemma win_keeps_other_rows u t r c ts u' t' r' c' :
  (u', t', r', c') <> (u, t, r, c) ->
  keeps (fun s => statsRow s u' t' r' c') (updateStatsOnWin u t r c ts).
Proof.
  intros Hne s.
  destruct (updateStatsOnWin_writes u t r c ts s) as (s' & row & E & _ & _ & _ & Ho & _).
  rewrite E. apply Ho, Hne.
Qed.

Lemma keeps_bind_user {B X} (f : Store -> X) a (k : string -> Db B) :
  keeps f (getOrCreateUser a) -> keeps f (k a) -> keeps f (bind (getOrCreateUser a) k).
Proof.
  intros Hc Hk s. unfold bind. specialize (Hc s).
  destruct (getOrCreateUser_spec a s) as (s' & E & _). rewrite E in *. cbn in *.
  rewrite Hk. exact Hc.
Qed.

Ltac solve_rows Hne :=
  repeat first
    [ apply keeps_ret
    | apply keeps_throw
    | solve [apply purchase_keeps_other_rows; exact Hne]
    | solve [apply win_keeps_other_rows; exact Hne]
    | apply frame_findRound
    | apply frame_getRoundPlayers
    | apply frame_getOrCreateUser; frame_side
    | apply frame_getOrCreateUsers; frame_side
    | apply frame_saveTicketPurchase; frame_side
    | apply frame_saveFirstTicketBonus; frame_side
    | apply frame_saveWinEvent; frame_side
    | apply frame_insertRound; frame_side
    | apply frame_updateRound; frame_side
    | apply frame_updateLastSyncedBlock; frame_side
    | match goal with
      | |- keeps _ (bind (getOrCreateUser _) _) => apply keeps_bind_user
      | |- keeps _ (bind _ _) => apply keeps_bind; [| intros]
      | |- keeps _ (match ?x with _ => _ end) => destruct x
      | |- keeps _ (if ?x then _ else _) => destruct x
      end ].

(** X24. A delivery other than the purge changes no aggregate row but the
    one of its own key: a purchase that of its buyer and round, a
    WinnerPicked that of the winner and round, every other delivery none.
    In particular a win is counted on the row of its own round only; the
    rows the winner already has for later rounds keep their [totalWins]. *)
Theorem delivery_changes_one_aggregate_row :
  forall d s user token roundId contractAddress,
    d <> Purge ->
    aggregateKeyOf d <> Some (user, token, roundId, contractAddress) ->
    statsRow (deliver d s) user token roundId contractAddress =
    statsRow s user token roundId contractAddress.
Proof.
  intros d s u' t' r' c' Hd Hkey.
  assert (G : forall (c : Db unit),
                keeps (fun s => statsRow s u' t' r' c') c ->
                statsRow (fst (catchDuplicate c s)) u' t' r' c' = statsRow s u' t' r' c').
  { intros c K. rewrite fst_catchDuplicate. apply K. }
  assert (N : forall k : string * string * Z * string,
                Some k <> Some (u', t', r', c') -> (u', t', r', c') <> k).
  { intros k H E. apply H. rewrite E. reflexivity. }
  destruct d; cbn [deliver aggregateKeyOf] in *; try contradiction.
  - apply N in Hkey. unfold processTicketPurchasedEvent. apply G. solve_rows Hkey.
  - unfold processFirstTicketBonusEvent. apply G. solve_rows Hkey.
  - destruct roundResult as [| | rr]; try reflexivity.
    apply N in Hkey. unfold processWinnerPickedEvent. apply G. solve_rows Hkey.
  - unfold processSolanaTicketPurchasedEvent.
    destruct (find isTicketPurchased events) as [[] |]; try reflexivity.
    apply N in Hkey. apply G. solve_rows Hkey.
  - unfold processSolanaWinnerPickedEvent.
    destruct (find isWinnerPicked events) as [[] |]; try reflexivity.
    destruct (winnerPubkey round winner_purchase_index) as [winner |]; [| reflexivity].
    apply N in Hkey. apply G. solve_rows Hkey.
  - unfold processAllRequestsCompletedEvent. apply G. solve_rows Hkey.
  - unfold processSolanaPrizeClaimedEvent. apply G.
    destruct (find isPrizeClaimed events) as [[] |]; try apply keeps_ret.
    intros s0. destruct (existsb _ _); [| reflexivity].
    destruct (find _ _); [| reflexivity].
    unfold statsRow. rewrite keeps_urs_updateLastSyncedBlock. reflexivity.
  - unfold statsRow. rewrite keeps_urs_updateLastSyncedBlock. reflexivity.
Qed.

(** ** The further properties at concrete inputs *)

Lemma retryWithBackoff_bounded_witness :
  1 <= defaultMaxRetries /\
  (let r := retryWithBackoff rateLimitedTwice defaultMaxRetries defaultBaseDelay in
   let calls := Z.of_nat (retry_calls r) in
   1 <= calls <= defaultMaxRetries /\
   retry_delays r =
     map (fun i => defaultBaseDelay * 2 ^ Z.of_nat i) (seq 0 (retry_calls r - 1)) /\
   (forall k, 1 <= k < calls -> rateLimitedTwice k = RateLimited) /\
   match rateLimitedTwice calls with
   | Returns a => retry_result r = Returned a
   | Fails => retry_result r = ThrewOther
   | RateLimited => retry_result r = ThrewRateLimit /\ calls = defaultMaxRetries
   end).
Proof.
  assert (H : 1 <= defaultMaxRetries) by (unfold defaultMaxRetries; lia).
  split; [exact H |].
  exact (proj1 (retryWithBackoff_bounded Z rateLimitedTwice defaultMaxRetries
                  defaultBaseDelay) H).
Defined.

Lemma getDeploymentBlock_witness :
  getDeploymentBlock true (fun b => 1234 <=? b) 100000 = 1234.
Proof.
  apply (proj2 (proj2 (getDeploymentBlock_finds_first_block_with_code
                         (fun b => 1234 <=? b) 100000))).
  - lia.
  - intros b _. reflexivity.
Defined.

Lemma backfill_cursor_witness :
  "ethereum" <> "" /\ "0xC" <> "" /\ 0 <= 100 /\ 0 < 124999 /\
  (let b := fetchHistoricalEvents flakyChain (Some 1) "ethereum" "0xC" 100 124999
              emptyStore in
   (bf_result b = true ->
    getLastSyncedBlock (bf_store b) "ethereum" "0xC" = Some 124999) /\
   (bf_result b = false ->
    (bf_chunks b = [] /\ bf_store b = emptyStore) \/
    (bf_chunks b <> [] /\
     100 <= endAfter 100 (bf_chunks b) < 124999 /\
     getLastSyncedBlock (bf_store b) "ethereum" "0xC" = Some (endAfter 100 (bf_chunks b))))).
Proof.
  assert (H1 : "ethereum" <> "") by discriminate.
  assert (H2 : "0xC" <> "") by discriminate.
  assert (H3 : 0 <= 100) by lia.
  assert (H4 : 0 < 124999) by lia.
  repeat (split; [assumption |]).
  exact (backfill_cursor_on_success_and_failure flakyChain (Some 1) "ethereum" "0xC"
           100 124999 emptyStore H1 H2 H3 H4).
Defined.

Lemma backfill_chunk_count_witness :
  124999 - 100 + 1 > maxBlockRange /\
  bf_result (fetchHistoricalEvents quietChain (Some 1) "ethereum" "0xC" 100 124999
               emptyStore) = true /\
  Z.of_nat (length (bf_chunks (fetchHistoricalEvents quietChain (Some 1) "ethereum" "0xC"
                                 100 124999 emptyStore))) = totalChunks 100 124999.
Proof.
  assert (H1 : 124999 - 100 + 1 > maxBlockRange) by reflexivity.
  assert (H2 : bf_result (fetchHistoricalEvents quietChain (Some 1) "ethereum" "0xC"
                            100 124999 emptyStore) = true) by (vm_compute; reflexivity).
  repeat (split; [assumption |]).
  exact (backfill_runs_the_announced_number_of_chunks quietChain (Some 1) "ethereum" "0xC"
           100 124999 emptyStore H1 H2).
Defined.

Lemma solana_backfill_is_complete_witness :
  newestFirst (sol_history demoSolana) /\
  (let b := fetchSolanaTransactions demoSolana "solana" 5 25 true emptyStore in
   (sb_result b = true ->
    sb_applied b =
      rev (map signature (List.filter (inRange 5 25) (sol_history demoSolana)))) /\
   (sb_result b = false -> sb_store b = emptyStore /\ sb_applied b = [])).
Proof.
  assert (H : newestFirst (sol_history demoSolana)).
  { split; [constructor; [cbn; lia | constructor] | split; [constructor | exact I]]. }
  split; [exact H |].
  exact (solana_backfill_is_complete demoSolana "solana" 5 25 true emptyStore H).
Defined.

Lemma solana_backfill_cursor_witness :
  "solana" <> "" /\ sol_programId demoSolana <> "" /\ 25 <> 0 /\
  sb_result (fetchSolanaTransactions demoSolana "solana" 5 25 true emptyStore) = true /\
  (let b := fetchSolanaTransactions demoSolana "solana" 5 25 true emptyStore in
   getLastSyncedBlock (sb_store b) "solana" (sol_programId demoSolana) = Some 25 /\
   ((forall sig, getTransaction demoSolana sig = ReadThrows) ->
    sb_store b =
      fst (updateLastSyncedBlock "solana" (sol_programId demoSolana) 25 emptyStore))).
Proof.
  assert (H1 : "solana" <> "") by discriminate.
  assert (H2 : sol_programId demoSolana <> "") by discriminate.
  assert (H3 : 25 <> 0) by discriminate.
  assert (H4 : sb_result (fetchSolanaTransactions demoSolana "solana" 5 25 true emptyStore)
               = true) by (vm_compute; reflexivity).
  repeat (split; [assumption |]).
  exact (solana_backfill_moves_cursor_past_unread_transactions demoSolana "solana" 5 25
           true emptyStore H1 H2 H3 H4).
Defined.

Lemma reachable_ticket_counts_witness :
  reachableInRange afterRound6 /\ ticketsConsistent afterRound6.
Proof.
  assert (H : reachableInRange afterRound6).
  { apply inRange_deliver; [| reflexivity | reflexivity].
    apply inRange_deliver; [| reflexivity | reflexivity].
    apply inRange_empty. }
  split; [exact H | exact (reachable_ticket_counts_match_purchases afterRound6 H)].
Defined.

Lemma winner_picked_redelivery_witness :
  hasWinEvent afterWin "0xW5" 2 = true /\
  (let run := processWinnerPickedEvent (ReadValue demoResult) "0xT" 5 1700000500 1
                "0xW5" 55 "ethereum" "0xC" 2 afterWin in
   deliveryFits (EvmWinnerPicked (ReadValue demoResult) "0xT" 5 1700000500 1 "0xW5" 55
                   "ethereum" "0xC" 2) = true /\
   aggregatesFit (fst run) = true /\
   totalWinsOf (fst run) "0xB" "0xT" 5 "0xC" = totalWinsOf afterWin "0xB" "0xT" 5 "0xC" + 1 /\
   snd run = DuplicateIgnored /\ win_events (fst run) = win_events afterWin) /\
  find isWinnerPicked demoWinnerPicked =
    Some (SolWinnerPicked "SOL" "roundPda" 7 0 1 135 1700000900) /\
  (let run := processSolanaWinnerPickedEvent "Prog" (fun _ _ => Some "alice") 101 "sigW" 30
                "solana" 0 demoWinnerPicked emptyStore in
   deliveryFits (SolanaWinnerPicked "Prog" (fun _ _ => Some "alice") 101 "sigW" 30
                   "solana" 0 demoWinnerPicked) = true /\
   aggregatesFit (fst run) = true /\
   totalWinsOf (fst run) "alice" "SOL" 7 "Prog" =
     totalWinsOf emptyStore "alice" "SOL" 7 "Prog" + 1).
Proof.
  assert (H1 : hasWinEvent afterWin "0xW5" 2 = true) by reflexivity.
  assert (H2 : find isWinnerPicked demoWinnerPicked =
               Some (SolWinnerPicked "SOL" "roundPda" 7 0 1 135 1700000900)) by reflexivity.
  split; [exact H1 |]. split; [| split; [exact H2 |]].
  - cbv zeta. split; [reflexivity |]. split; [reflexivity |].
    pose proof (proj1 winner_picked_redelivery_counts_the_win_again demoResult "0xT" 5
                  1700000500 1 "0xW5" 55 "ethereum" "0xC" 2 afterWin eq_refl eq_refl)
      as [Ha Hb].
    split; [exact Ha | exact (Hb H1)].
  - cbv zeta. split; [reflexivity |]. split; [reflexivity |].
    exact (proj1 (proj2 winner_picked_redelivery_counts_the_win_again "Prog"
                    (fun _ _ => Some "alice") 101 "sigW" 30 "solana" 0 demoWinnerPicked
                    emptyStore "SOL" "roundPda" 7 0 1 135 1700000900 "alice" H2 eq_refl
                    eq_refl eq_refl)).
Defined.

Lemma reachable_streak_flag_witness :
  reachable afterRound6 /\ In rowOfRound6 (user_round_stats afterRound6) /\
  0 <= urs_consecutiveRounds rowOfRound6 /\
  (urs_isConsecutive rowOfRound6 = true <-> 1 <= urs_consecutiveRounds rowOfRound6).
Proof.
  assert (H1 : reachable afterRound6)
    by (apply reachable_deliver, reachable_deliver, reachable_empty).
  assert (H2 : In rowOfRound6 (user_round_stats afterRound6))
    by (right; left; reflexivity).
  repeat (split; [assumption |]).
  exact (reachable_streak_flag_matches_length afterRound6 rowOfRound6 H1 H2).
Defined.

Lemma round_totals_witness :
  find isTicketPurchased followingEvents =
    Some (SolTicketPurchased "SOL" 7 "bob" 1 50 45 5 1700000020) /\
  find isFirstTicketBonusAwarded followingEvents = None /\
  hasTicketPurchase afterOpening "sigB" 0 = false /\
  deliveryFits (SolanaTicketPurchased "Prog" 101 "sigB" 20 "solana" 0 followingEvents)
    = true /\
  aggregatesFit (fst (processSolanaTicketPurchasedEvent "Prog" 101 "sigB" 20 "solana" 0
                        followingEvents afterOpening)) = true /\
  (let after := fst (processSolanaTicketPurchasedEvent "Prog" 101 "sigB" 20 "solana" 0
                       followingEvents afterOpening) in
   (hasRound afterOpening "SOL" 7 "Prog" 101 = true ->
    prizeOf after "SOL" 7 "Prog" 101 = prizeOf afterOpening "SOL" 7 "Prog" 101 + 45 /\
    commissionOf after "SOL" 7 "Prog" 101 = commissionOf afterOpening "SOL" 7 "Prog" 101 + 5 /\
    length (rounds after) = length (rounds afterOpening)) /\
   (hasRound afterOpening "SOL" 7 "Prog" 101 = false ->
    rounds after = rounds afterOpening /\
    length (ticketPurchaseRows after "sigB" 0) = 1%nat)).
Proof.
  assert (H1 : find isTicketPurchased followingEvents =
               Some (SolTicketPurchased "SOL" 7 "bob" 1 50 45 5 1700000020)) by reflexivity.
  assert (H2 : find isFirstTicketBonusAwarded followingEvents = None) by reflexivity.
  assert (H3 : hasTicketPurchase afterOpening "sigB" 0 = false) by reflexivity.
  assert (H4 : deliveryFits (SolanaTicketPurchased "Prog" 101 "sigB" 20 "solana" 0
                               followingEvents) = true) by reflexivity.
  assert (H5 : aggregatesFit (fst (processSolanaTicketPurchasedEvent "Prog" 101 "sigB" 20
                                     "solana" 0 followingEvents afterOpening)) = true)
    by reflexivity.
  repeat (split; [assumption |]).
  exact (proj2 round_totals_accumulate_on_solana_only "Prog" 101 "sigB" 20 "solana" 0
           followingEvents afterOpening "SOL" 7 "bob" 1 50 45 5 1700000020 H1 H2 H3 H4 H5).
Defined.

Lemma successful_reconnect_witness :
  configs afterFailedAttempt !! "ethereum" = Some wsConfig /\
  attemptsOf afterFailedAttempt "ethereum" < maxReconnectAttempts /\
  attemptSucceeds nodeUp = true /\
  exists rt',
    reconnectBlockchain nodeUp "ethereum" afterFailedAttempt =
      (rt', [AttemptStarted "ethereum" (attemptsOf afterFailedAttempt "ethereum" + 1);
             Waited "ethereum" (reconnectDelay * attemptsOf afterFailedAttempt "ethereum");
             Reconnected "ethereum"]) /\
    configs rt' !! "ethereum" = Some wsConfig /\
    attemptsOf rt' "ethereum" = 0 /\
    getConnectionStatus rt' !! "ethereum" = Some (true, 0) /\
    "ethereum" ∈ healthCheckTimers rt' /\
    reconnectTimeouts rt' = reconnectTimeouts afterFailedAttempt.
Proof.
  assert (H1 : configs afterFailedAttempt !! "ethereum" = Some wsConfig)
    by (vm_compute; reflexivity).
  assert (H2 : attemptsOf afterFailedAttempt "ethereum" < maxReconnectAttempts)
    by (vm_compute; reflexivity).
  assert (H3 : attemptSucceeds nodeUp = true) by reflexivity.
  repeat (split; [assumption |]).
  exact (successful_reconnect_resets_the_count nodeUp "ethereum" wsConfig afterFailedAttempt
           H1 H2 H3).
Defined.

Lemma polled_chain_witness :
  polled "ethereum" httpConfig = true /\
  exists rt' effects,
    unhealthyRun [nodeDown; nodeDown; nodeDown; nodeDown; nodeDown; nodeDown; nodeDown]
      "ethereum" (connected "ethereum" httpConfig) = (rt', effects) /\
    attemptsStarted "ethereum" effects = repeat 1 7 /\
    waits effects = repeat 0 7 /\
    retriesScheduled effects = repeat reconnectDelay 7 /\
    getConnectionStatus rt' !! "ethereum" = Some (false, 0) /\
    pendingFor "ethereum" rt' = [("ethereum", reconnectDelay)].
Proof.
  assert (H1 : polled "ethereum" httpConfig = true) by reflexivity.
  split; [exact H1 |].
  apply (polled_chain_is_retried_without_bound "ethereum" httpConfig
           (connected "ethereum" httpConfig)
           [nodeDown; nodeDown; nodeDown; nodeDown; nodeDown; nodeDown; nodeDown] H1);
    try (vm_compute; reflexivity).
  discriminate.
Defined.

Lemma cleanup_witness :
  In ("ethereum", 5000) (reconnectTimeouts afterFailedAttempt) /\
  configs afterFailedAttempt !! "ethereum" = Some wsConfig /\
  attemptsOf afterFailedAttempt "ethereum" < maxReconnectAttempts /\
  attemptSucceeds nodeUp = true /\
  (let rt' := fst (reconnectTimeoutFires nodeUp ("ethereum", 5000)
                     (cleanup afterFailedAttempt)) in
   "ethereum" ∈ healthCheckTimers rt' /\
   connectionStates rt' !! "ethereum" = Some true).
Proof.
  assert (H0 : In ("ethereum", 5000) (reconnectTimeouts afterFailedAttempt))
    by (left; reflexivity).
  assert (H1 : configs afterFailedAttempt !! "ethereum" = Some wsConfig)
    by (vm_compute; reflexivity).
  assert (H2 : attemptsOf afterFailedAttempt "ethereum" < maxReconnectAttempts)
    by (vm_compute; reflexivity).
  assert (H3 : attemptSucceeds nodeUp = true) by reflexivity.
  repeat (split; [assumption |]).
  exact (proj2 (proj2 (proj2 (cleanup_leaves_retry_timeouts_pending afterFailedAttempt)))
           nodeUp ("ethereum", 5000) wsConfig H0 H1 H2 H3).
Defined.

Lemma probe_writes_witness :
  probe_backfill (checkConnectionHealth quietChain demoSolana (Some 104)
                    (connected "ethereum" wsConfig) "ethereum" cursorAt100) = None /\
  probe_store (checkConnectionHealth quietChain demoSolana (Some 104)
                 (connected "ethereum" wsConfig) "ethereum" cursorAt100) = cursorAt100 /\
  probe_backfill (checkConnectionHealth quietChain demoSolana (Some 107)
                    (connected "ethereum" wsConfig) "ethereum" cursorAt100)
    = Some ("0xC", 101, 107) /\
  exists cursor,
    getLastSyncedBlock cursorAt100 "ethereum" "0xC" = Some cursor /\
    101 = cursor + 1 /\
    Some 107 = Some 107 /\
    ((providers (connected "ethereum" wsConfig) !! "ethereum" = Some WebSocketProvider /\
      syncThresholdBlocks (connected "ethereum" wsConfig) < 107 - cursor) \/
     (providers (connected "ethereum" wsConfig) !! "ethereum" = Some Connection /\
      syncThresholdBlocks (connected "ethereum" wsConfig) * 10 < 107 - cursor)).
Proof.
  assert (H1 : probe_backfill (checkConnectionHealth quietChain demoSolana (Some 104)
                                 (connected "ethereum" wsConfig) "ethereum" cursorAt100)
               = None) by (vm_compute; reflexivity).
  assert (H2 : probe_backfill (checkConnectionHealth quietChain demoSolana (Some 107)
                                 (connected "ethereum" wsConfig) "ethereum" cursorAt100)
               = Some ("0xC", 101, 107)) by (vm_compute; reflexivity).
  split; [exact H1 |]. split; [| split; [exact H2 |]].
  - exact (proj1 (probe_writes_only_through_its_backfill quietChain demoSolana (Some 104)
                    (connected "ethereum" wsConfig) "ethereum" cursorAt100) H1).
  - exact (proj2 (probe_writes_only_through_its_backfill quietChain demoSolana (Some 107)
                    (connected "ethereum" wsConfig) "ethereum" cursorAt100)
             "0xC" 101 107 H2).
Defined.

Lemma probe_health_report_witness :
  providers (connected "solana" solanaConfig) !! "solana" = Some Connection /\
  Some 500 <> (None : option Z) /\
  probe_healthy (checkConnectionHealth quietChain demoSolana (Some 500)
                   (connected "solana" solanaConfig) "solana" emptyStore) = true /\
  checkConnectionHealth quietChain demoSolana None
    (connected "solana" solanaConfig) "solana" emptyStore = mkProbe false emptyStore None.
Proof.
  assert (H1 : providers (connected "solana" solanaConfig) !! "solana" = Some Connection)
    by (vm_compute; reflexivity).
  assert (H2 : Some 500 <> (None : option Z)) by discriminate.
  repeat (split; [assumption |]). split.
  - exact (proj2 (probe_health_report quietChain demoSolana (Some 500)
                    (connected "solana" solanaConfig) "solana" emptyStore) H1 H2).
  - exact (proj1 (probe_health_report quietChain demoSolana None
                    (connected "solana" solanaConfig) "solana" emptyStore)
             (or_intror eq_refl)).
Defined.

Lemma listener_setup_witness :
  "ethereum" <> "" /\ 0 < 107 /\
  exists s',
    listenToEthereumEvents quietChain (Some 1) deployedAt50 "ethereum" (Some ["0xC"; "0xD"])
      (Some 107) cursorAt100 = ListenDone s' /\
    forall c, In c ["0xC"; "0xD"] -> caughtUp s' "ethereum" c 107.
Proof.
  assert (H1 : "ethereum" <> "") by discriminate.
  assert (H2 : 0 < 107) by lia.
  repeat (split; [assumption |]).
  apply (proj1 listener_setup_catches_up quietChain (Some 1) deployedAt50 "ethereum"
           ["0xC"; "0xD"] 107 cursorAt100 H1 H2).
  - intros c f t. discriminate.
  - intros c [<- | [<- | []]]; split; discriminate.
Defined.

Lemma two_purchase_instructions_witness :
  sol_hasIdl demoSolana = true /\
  ix_isProgram buyInstruction = true /\
  ix_decoded buyInstruction = ReadValue buy_tickets_sol /\
  find isTicketPurchased twoPurchases =
    Some (SolTicketPurchased "SOL" 7 "bob" 1 50 45 5 1700000020) /\
  hasTicketPurchase emptyStore "sigD" 0 = false /\
  hasTicketPurchase emptyStore "sigD" 1 = false /\
  deliveryFits (SolanaTicketPurchased (sol_programId demoSolana) (sol_chainId demoSolana)
                  "sigD" 20 "solana" 0 twoPurchases) = true /\
  aggregatesFit (fst (processSolanaTicketPurchasedEvent (sol_programId demoSolana)
                        (sol_chainId demoSolana) "sigD" 20 "solana" 0 twoPurchases
                        emptyStore)) = true /\
  aggregatesFit (processSolanaTransactionData demoSolana "solana"
                   (mkSolanaTx 20 [buyInstruction; buyInstruction] (MetaOk [] twoPurchases))
                   "sigD" 20 true emptyStore) = true /\
  (let tx := mkSolanaTx 20 [buyInstruction; buyInstruction] (MetaOk [] twoPurchases) in
   let after := processSolanaTransactionData demoSolana "solana" tx "sigD" 20 true
                  emptyStore in
   let row := mkTicketPurchase "bob" "SOL" 7 (sol_chainId demoSolana)
                (sol_programId demoSolana) 1 50 (1700000020 * 1000) "sigD" in
   ticket_purchases after = ticket_purchases emptyStore ++ [row 0; row 1] /\
   ticketCountOf after "bob" "SOL" 7 (sol_programId demoSolana) =
     ticketCountOf emptyStore "bob" "SOL" 7 (sol_programId demoSolana) + 2 * 1).
Proof.
  assert (H1 : sol_hasIdl demoSolana = true) by reflexivity.
  assert (H2 : ix_isProgram buyInstruction = true) by reflexivity.
  assert (H3 : ix_decoded buyInstruction = ReadValue buy_tickets_sol) by reflexivity.
  assert (H4 : find isTicketPurchased twoPurchases =
               Some (SolTicketPurchased "SOL" 7 "bob" 1 50 45 5 1700000020)) by reflexivity.
  assert (H5 : hasTicketPurchase emptyStore "sigD" 0 = false) by reflexivity.
  assert (H6 : hasTicketPurchase emptyStore "sigD" 1 = false) by reflexivity.
  assert (H7 : deliveryFits (SolanaTicketPurchased (sol_programId demoSolana)
                               (sol_chainId demoSolana) "sigD" 20 "solana" 0 twoPurchases)
               = true) by reflexivity.
  assert (H8 : aggregatesFit (fst (processSolanaTicketPurchasedEvent
                                     (sol_programId demoSolana) (sol_chainId demoSolana)
                                     "sigD" 20 "solana" 0 twoPurchases emptyStore)) = true)
    by reflexivity.
  assert (H9 : aggregatesFit (processSolanaTransactionData demoSolana "solana"
                                (mkSolanaTx 20 [buyInstruction; buyInstruction]
                                   (MetaOk [] twoPurchases))
                                "sigD" 20 true emptyStore) = true) by reflexivity.
  repeat (split; [assumption |]).
  exact (two_purchase_instructions_apply_the_first_event_twice demoSolana "solana" "sigD" 20
           true emptyStore buyInstruction twoPurchases "SOL" 7 "bob" 1 50 45 5 1700000020
           H1 H2 H3 H4 H5 H6 H7 H8 H9).
Defined.

Lemma round_players_witness :
  reachable afterRound6 /\
  List.NoDup (roundPlayersOf afterRound6 "0xC" "0xT" 6) /\
  forall user,
    In user (roundPlayersOf afterRound6 "0xC" "0xT" 6) <->
    statsRow afterRound6 user "0xT" 6 "0xC" <> None.
Proof.
  assert (H : reachable afterRound6)
    by (apply reachable_deliver, reachable_deliver, reachable_empty).
  split; [exact H |].
  exact (round_players_are_listed_once afterRound6 "0xC" "0xT" 6 H).
Defined.

Lemma round_rows_witness :
  followingPurchase <> Purge /\
  roundAmounts afterOpening = [(7, Some 90, Some 10)] /\
  roundAmounts (deliver followingPurchase afterOpening) = [(7, Some 135, Some 15)] /\
  roundsKept (rounds afterOpening) (rounds (deliver followingPurchase afterOpening)).
Proof.
  assert (H : followingPurchase <> Purge) by discriminate.
  split; [exact H |]. split; [reflexivity |]. split; [reflexivity |].
  exact (round_rows_are_kept followingPurchase afterOpening H).
Defined.

Lemma failed_events_witness :
  "ethereum" <> "" /\ "0xC" <> "" /\ 60 <> 0 /\ 60 - 50 + 1 <= maxBlockRange /\
  (let b := fetchHistoricalEvents deafChain (Some 1) "ethereum" "0xC" 50 60 afterRound5 in
   bf_result b = true /\
   bf_store b = fst (updateLastSyncedBlock "ethereum" "0xC" 60 afterRound5) /\
   getLastSyncedBlock (bf_store b) "ethereum" "0xC" = Some 60).
Proof.
  assert (H1 : "ethereum" <> "") by discriminate.
  assert (H2 : "0xC" <> "") by discriminate.
  assert (H3 : 60 <> 0) by discriminate.
  assert (H4 : 60 - 50 + 1 <= maxBlockRange) by (unfold maxBlockRange; lia).
  repeat (split; [assumption |]).
  apply (failed_events_are_skipped_for_good deafChain (Some 1) "ethereum" "0xC" 50 60
           afterRound5
           [Decoded (mkEventLog (WinnerPicked "0xT" 5 1700000500) "0xW5" 55 2)]
           H1 H2 H3 H4 eq_refl).
  right. intros e [He | []]. injection He as <-.
  exists "0xT", 5, 1700000500. split; reflexivity.
Defined.

Lemma replaying_purchase_logs_witness :
  "ethereum" <> "" /\ "0xC" <> "" /\ 60 <> 0 /\ 60 - 50 + 1 <= maxBlockRange /\
  (let once := bf_store (fetchHistoricalEvents purchaseChain (Some 1) "ethereum" "0xC"
                           50 60 emptyStore) in
   bf_store (fetchHistoricalEvents purchaseChain (Some 1) "ethereum" "0xC" 50 60 once)
     = once).
Proof.
  assert (H1 : "ethereum" <> "") by discriminate.
  assert (H2 : "0xC" <> "") by discriminate.
  assert (H3 : 60 <> 0) by discriminate.
  assert (H4 : 60 - 50 + 1 <= maxBlockRange) by (unfold maxBlockRange; lia).
  repeat (split; [assumption |]).
  exact (replaying_purchase_logs_is_a_noop purchaseChain 1 "ethereum" "0xC" 50 60 emptyStore
           _ H1 H2 H3 H4 eq_refl eq_refl).
Defined.

Lemma delivery_changes_one_aggregate_row_witness :
  lateWin <> Purge /\
  aggregateKeyOf lateWin <> Some ("0xB", "0xT", 6, "0xC") /\
  statsRow (deliver lateWin afterRound6) "0xB" "0xT" 6 "0xC" =
  statsRow afterRound6 "0xB" "0xT" 6 "0xC".
Proof.
  assert (H1 : lateWin <> Purge) by discriminate.
  assert (H2 : aggregateKeyOf lateWin <> Some ("0xB", "0xT", 6, "0xC"))
    by (cbn; discriminate).
  split; [exact H1 | split; [exact H2 |]].
  exact (delivery_changes_one_aggregate_row lateWin afterRound6 "0xB" "0xT" 6 "0xC" H1 H2).
Defined.
